(** * Runtime configuration loader and deployment scripts

    A shallow embedding of
    - [ConfigService] (config.service.ts): [loadConfig], [getConfig], the
      field accessors, [validateConfig] and [isValidUrl];
    - [deploy.mjs] and [deploy.sh]: the two deployment scripts;
    - the constructor of the root component (app.ts) and the loop of the
      bundle analysis script.

    JavaScript values are modelled by a JSON datatype, exceptions by an
    explicit result type, [this.config] and the console by state passing.
    The scripts are functions from a [World] (command line, files on disk,
    outcome of external commands) to an [Outcome] (exit status, trace of
    effects, files left behind). *)

From Stdlib Require Import ZArith Ascii.
From stdpp Require Import gmap strings list fin_maps pretty.

Set Warnings "-register-all".
Local Open Scope Z_scope.

(* ===================================================================== *)
(** ** JavaScript values *)
(* ===================================================================== *)

Module JS.

(** A value produced by [JSON.parse]. Numbers are restricted to integer
    literals; [JNum n] is the Number the literal [n] is read as, the
    double nearest to [n]. An object is the list of its own properties; a
    property read returns the first binding of the key. *)
Inductive json : Type :=
| JNull
| JBool (b : bool)
| JNum (n : Z)
| JStr (s : string)
| JArr (elems : list json)
| JObj (props : list (string * json)).

(** The result of a property read: [None] is [undefined]. *)
Definition value : Type := option json.

Definition undefined : value := None.

(** Exceptions. [TypeError] is what the engine raises, [Error] is
    [new Error(message)], [HttpErrorResponse] is the rejection of the
    HTTP client (network failure, error status or unparsable body). *)
Inductive exn : Type :=
| TypeError (message : string)
| Error (message : string)
| HttpErrorResponse (message : string).

Definition message (e : exn) : string :=
  match e with
  | TypeError m | Error m | HttpErrorResponse m => m
  end.

Inductive result (A : Type) : Type :=
| Return (a : A)
| Throw (e : exn).
Arguments Return {A} a.
Arguments Throw {A} e.

Definition is_Return {A} (r : result A) : bool :=
  match r with Return _ => true | Throw _ => false end.

Fixpoint assoc (k : string) (props : list (string * json)) : value :=
  match props with
  | [] => None
  | (k', v) :: rest => if String.eqb k k' then Some v else assoc k rest
  end.

(** [v[k]] for the property names the service reads ([name], [production],
    [apiUrl], [authUrl], [features]): none of them is a built-in property
    of a string, number, boolean or array, nor of [Object.prototype], so
    the read yields the own property of an object and [undefined] on every
    other value, except that reading a property of [null] raises. *)
Definition get_prop (v : json) (k : string) : result value :=
  match v with
  | JNull =>
      Throw (TypeError ("Cannot read properties of null (reading '" +:+ k +:+ "')"))
  | JObj props => Return (assoc k props)
  | _ => Return undefined
  end.

(** [!v]: the falsy values are [null], [false], [0] and the empty string. *)
Definition falsy (v : json) : bool :=
  match v with
  | JNull => true
  | JBool b => negb b
  | JNum n => n =? 0
  | JStr s => String.eqb s ""
  | JArr _ | JObj _ => false
  end.

(** [v === undefined || v === null] *)
Definition undefined_or_null (v : value) : bool :=
  match v with
  | None | Some JNull => true
  | Some _ => false
  end.

Definition join (sep : string) (parts : list string) : string :=
  match parts with
  | [] => ""
  | p :: ps => fold_left (λ acc q, acc +:+ sep +:+ q) ps p
  end.

(** *** Numbers as strings

    The double nearest to a natural number, ties to even; [None] when the
    number rounds to [Infinity]. Up to 2^53 every integer is a double. *)
Definition nearest_double (n : Z) : option Z :=
  if n <=? 2 ^ 53 then Some n
  else
    let e := Z.log2 n - 52 in
    let q := Z.shiftr n e in
    let r := n - Z.shiftl q e in
    let half := Z.shiftl 1 (e - 1) in
    let q' := if (half <? r) || ((r =? half) && Z.odd q) then q + 1 else q in
    let v := Z.shiftl q' e in
    if v <? 2 ^ 1024 then Some v else None.

(** The decimal numeral with the fewest significant digits that is read
    back as the double [x], the one closest to [x] when there are several
    (Number::toString, steps on [n], [k] and [s]); [x] is a double above
    2^53. Among the numerals with [k] significant digits only the two
    next to [x] can be read back as [x]. *)
Definition shortest_numeral (x : Z) : Z :=
  let reads_back c :=
    match nearest_double c with Some v => v =? x | None => false end in
  let with_digits (k : nat) : option Z :=
    let e := Z.of_nat (String.length (pretty x)) - Z.of_nat k in
    if e <? 0 then None
    else
      let unit := 10 ^ e in
      let s := x / unit in
      let below := s * unit in
      let above := below + unit in
      match reads_back below, reads_back above with
      | true, true =>
          if x - below <? above - x then Some below
          else if above - x <? x - below then Some above
          else Some (if Z.even s then below else above)
      | true, false => Some below
      | false, true => Some above
      | false, false => None
      end in
  default x (head (omap with_digits (seq 1 17))).

Fixpoint drop_zeros (digits : list ascii) : list ascii :=
  match digits with
  | c :: rest => if Ascii.eqb c "0"%char then drop_zeros rest else digits
  | [] => []
  end.

(** The significant digits of a decimal numeral: without its final
    zeros. *)
Definition significant (numeral : string) : string :=
  String.string_of_list_ascii
    (rev (drop_zeros (rev (String.list_ascii_of_string numeral)))).

(** Number::toString on a positive integral double: plain digits up to
    21 of them, exponent notation beyond. *)
Definition print_double (x : Z) : string :=
  let numeral := pretty (if x <=? 2 ^ 53 then x else shortest_numeral x) in
  let n := String.length numeral in
  if (n <=? 21)%nat then numeral
  else
    match significant numeral with
    | String d EmptyString => String d ("e+" +:+ pretty (n - 1)%nat)
    | String d more => String d ("." +:+ more +:+ "e+" +:+ pretty (n - 1)%nat)
    | EmptyString => numeral
    end.

(** [String(x)] for the Number that the integer literal [n] is read as. *)
Definition Number_toString (n : Z) : string :=
  if n =? 0 then "0"
  else
    let magnitude :=
      match nearest_double (Z.abs n) with
      | Some x => print_double x
      | None => "Infinity"
      end in
    if n <? 0 then "-" +:+ magnitude else magnitude.

(** *** [String(v)]

    As used by template literals and by the conversion of the argument of
    [new URL]. An object is printed by the [toString] it inherits, unless
    it has a property of its own called [toString]: that one is never a
    function in parsed JSON, [valueOf] gives back the object, and the
    conversion throws. [Array.prototype.toString] joins the elements with
    a comma, from left to right, printing [null] elements as the empty
    string. *)
Definition not_primitive : exn :=
  TypeError "Cannot convert object to primitive value".

Fixpoint join_results (parts : list (result string)) : result (list string) :=
  match parts with
  | [] => Return []
  | Throw e :: _ => Throw e
  | Return p :: rest =>
      match join_results rest with
      | Return ps => Return (p :: ps)
      | Throw e => Throw e
      end
  end.

Fixpoint to_string (v : json) : result string :=
  match v with
  | JNull => Return "null"
  | JBool true => Return "true"
  | JBool false => Return "false"
  | JNum n => Return (Number_toString n)
  | JStr s => Return s
  | JArr elems =>
      match join_results
              (map (λ e, match e with JNull => Return "" | _ => to_string e end)
                   elems) with
      | Return parts => Return (join "," parts)
      | Throw e => Throw e
      end
  | JObj props =>
      match assoc "toString" props with
      | Some _ => Throw not_primitive
      | None => Return "[object Object]"
      end
  end.

Definition ToString (v : value) : result string :=
  match v with
  | None => Return "undefined"
  | Some j => to_string j
  end.

(** [hay.includes(needle)] on strings. *)
Fixpoint includes (needle hay : string) : bool :=
  String.prefix needle hay ||
  match hay with
  | EmptyString => false
  | String _ rest => includes needle rest
  end.

(** *** The scheme stage of the platform's URL parser

    [new URL(s)], called without a base, first strips leading and trailing
    C0 control characters and spaces, drops every tab and newline, and then
    reads a scheme: an ASCII letter, then letters, digits, [+], [-] or [.],
    up to a colon. An input without such a scheme is rejected ("no scheme
    state" with a null base). What follows the scheme is checked by later
    stages that are not modelled; [URL_scheme_stage] is used only to run
    the service on concrete documents whose URLs pass or fail at this
    stage, and every general statement is over an arbitrary parser. *)
Definition is_c0_or_space (c : ascii) : bool := (Ascii.N_of_ascii c <=? 32)%N.
Definition is_tab_or_newline (c : ascii) : bool :=
  let n := Ascii.N_of_ascii c in ((n =? 9) || (n =? 10) || (n =? 13))%N.
Definition is_alpha (c : ascii) : bool :=
  let n := Ascii.N_of_ascii c in
  (((65 <=? n) && (n <=? 90)) || ((97 <=? n) && (n <=? 122)))%N.
Definition is_digit (c : ascii) : bool :=
  let n := Ascii.N_of_ascii c in ((48 <=? n) && (n <=? 57))%N.
Definition is_scheme_char (c : ascii) : bool :=
  is_alpha c || is_digit c ||
  (let n := Ascii.N_of_ascii c in ((n =? 43) || (n =? 45) || (n =? 46))%N).

Fixpoint drop_while (p : ascii → bool) (s : list ascii) : list ascii :=
  match s with
  | c :: rest => if p c then drop_while p rest else s
  | [] => []
  end.

Fixpoint scheme_rest (s : list ascii) : bool :=
  match s with
  | [] => false
  | c :: rest =>
      if is_scheme_char c then scheme_rest rest
      else (Ascii.N_of_ascii c =? 58)%N
  end.

Definition URL_scheme_stage (s : string) : bool :=
  let stripped :=
    rev (drop_while is_c0_or_space
          (rev (drop_while is_c0_or_space (String.list_ascii_of_string s)))) in
  match filter (λ c, is_tab_or_newline c = false) stripped with
  | c :: rest => is_alpha c && scheme_rest rest
  | [] => false
  end.

End JS.
Export JS.

(* ===================================================================== *)
(** ** ConfigService (config.service.ts) *)
(* ===================================================================== *)

Module Config.

(** [HttpClient.get] followed by [firstValueFrom]: the parsed JSON body,
    or a rejection. *)
Definition HttpClient : Type := string → result json.

(** The fields of the class. [config] starts as [null]. *)
Record ConfigService : Type := {
  config : json;
  http : HttpClient;
}.

Definition new_ConfigService (http : HttpClient) : ConfigService :=
  {| config := JNull; http := http |}.

Definition CONFIG_PATH : string := "/assets/config/environment.json".

Inductive console : Type :=
| console_warn (msg : string)
| console_error (msg : string) (error : exn).

(** A method body: it reads and writes the fields of [this], prints to the
    console, and returns or throws. Assignments and console lines made
    before a throw stay. *)
Definition M (A : Type) : Type :=
  ConfigService → result A * ConfigService * list console.

Definition ret {A} (a : A) : M A := λ this, (Return a, this, []).
Definition throw {A} (e : exn) : M A := λ this, (Throw e, this, []).
Definition lift {A} (r : result A) : M A := λ this, (r, this, []).
Definition bind {A B} (m : M A) (f : A → M B) : M B := λ this,
  match m this with
  | (Return a, this1, out1) =>
      let '(r, this2, out2) := f a this1 in (r, this2, out1 ++ out2)
  | (Throw e, this1, out1) => (Throw e, this1, out1)
  end.
Definition try_catch {A} (body : M A) (handler : exn → M A) : M A := λ this,
  match body this with
  | (Return a, this1, out1) => (Return a, this1, out1)
  | (Throw e, this1, out1) =>
      let '(r, this2, out2) := handler e this1 in (r, this2, out1 ++ out2)
  end.
Definition print (c : console) : M unit := λ this, (Return tt, this, [c]).
Definition read_config : M json := λ this, (Return (config this), this, []).
Definition write_config (v : json) : M unit := λ this,
  (Return tt, {| config := v; http := http this |}, []).
Definition http_get (path : string) : M json := λ this,
  (http this path, this, []).

#[global] Instance M_bind : MBind M := λ A B f m, bind m f.

Definition result_of {A} (r : result A * ConfigService * list console) := r.1.1.
Definition this_of {A} (r : result A * ConfigService * list console) := r.1.2.
Definition console_of {A} (r : result A * ConfigService * list console) := r.2.

Definition requiredFields : list string :=
  ["name"; "production"; "apiUrl"; "authUrl"; "features"].

Section WithURL.

(** [new URL(s)] of the platform returns normally on the string [s]. *)
Variable URL_parses : string → bool.

(** [isValidUrl]: the argument is converted to a string by the [URL]
    constructor, whatever its run-time type; the [catch] takes every
    exception, that of the conversion included. *)
Definition isValidUrl (url : value) : bool :=
  match ToString url with
  | Return s => URL_parses s
  | Throw _ => false
  end.

(** The [for] loop over [requiredFields]. *)
Fixpoint check_required (config : json) (fields : list string) : M unit :=
  match fields with
  | [] => ret tt
  | field :: rest =>
      v ← lift (get_prop config field);
      if undefined_or_null v
      then throw (Error ("Missing required configuration field: " +:+ field))
      else check_required config rest
  end.

Definition validateConfig (config : json) : M unit :=
  check_required config requiredFields ;;
  apiUrl ← lift (get_prop config "apiUrl");
  (if negb (isValidUrl apiUrl)
   then text ← lift (ToString apiUrl);
        throw (Error ("Invalid API URL: " +:+ text))
   else ret tt) ;;
  authUrl ← lift (get_prop config "authUrl");
  (if negb (isValidUrl authUrl)
   then text ← lift (ToString authUrl);
        throw (Error ("Invalid Auth URL: " +:+ text))
   else ret tt) ;;
  print (console_warn "[ConfigService] Configuration validation passed").

Definition loadConfig : M unit :=
  try_catch
    (body ← http_get CONFIG_PATH;
     write_config body ;;
     c ← read_config;
     validateConfig c ;;
     c ← read_config;
     name ← lift (get_prop c "name");
     text ← lift (ToString name);
     print (console_warn
       ("[ConfigService] Configuration loaded for environment: " +:+ text)))
    (λ error,
       print (console_error "[ConfigService] Failed to load configuration:" error) ;;
       throw (Error "Failed to load application configuration")).

End WithURL.

Definition getConfig : M json :=
  c ← read_config;
  if falsy c
  then throw (Error "Configuration not loaded. APP_INITIALIZER may have failed.")
  else ret c.

(** The field accessors. *)
Definition apiUrl : M value := c ← getConfig; lift (get_prop c "apiUrl").
Definition authUrl : M value := c ← getConfig; lift (get_prop c "authUrl").
Definition isProduction : M value := c ← getConfig; lift (get_prop c "production").
Definition environmentName : M value := c ← getConfig; lift (get_prop c "name").
Definition features : M value := c ← getConfig; lift (get_prop c "features").

(** [initializeApp] (config-initializer.ts): the APP_INITIALIZER callback
    is [loadConfig] itself. *)
Definition initializeApp (URL_parses : string → bool) : M unit :=
  loadConfig URL_parses.

End Config.

(* ===================================================================== *)
(** ** The deployment scripts (deploy.mjs, deploy.sh) *)
(* ===================================================================== *)

Module Deploy.

(** What a run does to the outside, in order. The lines printed are kept
    without ANSI colours and emoji; blank lines, the banner and the usage
    help are left out. *)
Inductive Event : Type :=
| Exec (cmd : string)            (* an external command is run *)
| CopyFile (src dst : string)    (* fs.copyFileSync / cp is called *)
| Source (path : string)         (* deploy.sh: source of a file *)
| Out (line : string)            (* console.log / echo *)
| Err (line : string).           (* console.error *)

(** A copy that fails (the directory of the target is missing or cannot
    be written, ...): the message of the error [fs.copyFileSync] throws,
    the exit status of [cp], which is not zero, and what is at the target
    afterwards. *)
Record CopyFailure : Type := {
  copy_message : string;
  cp_status : positive;
  left_at_target : option string;
}.

(** The surroundings of one run.
    - [argument]: [process.argv[2]] or [$1]; [None] when it is not given.
    - [dirname]: [__dirname] of deploy.mjs, an absolute normalised
      directory; deploy.sh uses paths relative to the working directory.
    - [files]: the regular files on disk, path to content, a text file
      by its UTF-8 bytes. Directories and permissions are not part of
      it; [copy_failure] stands for them.
    - [run]: an external command ([npm], [aws]) on the current files: its
      exit status and the files it leaves.
    - [source]: deploy.sh only, the effect of sourcing a file with the
      given content on the shell variables, and the status of its last
      command.
    - [copy_failure]: whether copying the source over the target fails
      on the current files, and how.
    - [escapes]: deploy.sh only, what [echo -e] prints from the first
      backslash of its text on, given the text before it. *)
Record World : Type := {
  argument : option string;
  dirname : string;
  files : gmap string string;
  run : string → gmap string string → Z * gmap string string;
  source : string → gmap string string → Z * gmap string string;
  copy_failure : string → string → gmap string string → option CopyFailure;
  escapes : string → string → string;
}.

Definition with_argument (a : option string) (w : World) : World :=
  {| argument := a; dirname := dirname w; files := files w;
     run := run w; source := source w;
     copy_failure := copy_failure w; escapes := escapes w |}.

Record State : Type := {
  disk : gmap string string;
  trace : list Event;
}.

Record Outcome : Type := {
  exit_code : Z;
  events : list Event;
  files_after : gmap string string;
}.

(** A statement either goes on, throws (deploy.mjs), or ends the process. *)
Inductive step (A : Type) : Type :=
| Next (a : A)
| Thrown (e : exn)
| Exit (code : Z).
Arguments Next {A} a.
Arguments Thrown {A} e.
Arguments Exit {A} code.

Definition Script (A : Type) : Type := State → step A * State.

Definition sret {A} (a : A) : Script A := λ st, (Next a, st).
Definition sbind {A B} (m : Script A) (f : A → Script B) : Script B := λ st,
  match m st with
  | (Next a, st1) => f a st1
  | (Thrown e, st1) => (Thrown e, st1)
  | (Exit c, st1) => (Exit c, st1)
  end.
#[global] Instance Script_bind : MBind Script := λ A B f m, sbind m f.

Definition emit (ev : Event) : Script unit := λ st,
  (Next tt, {| disk := disk st; trace := trace st ++ [ev] |}).
Definition exit {A} (code : Z) : Script A := λ st, (Exit code, st).
Definition raise {A} (e : exn) : Script A := λ st, (Thrown e, st).
Definition catch {A} (body : Script A) (handler : exn → Script A) : Script A :=
  λ st,
  match body st with
  | (Thrown e, st1) => handler e st1
  | other => other
  end.
Definition when (b : bool) (body : Script unit) : Script unit :=
  if b then body else sret tt.

(** [fs.existsSync(p)] / [[ -f p ]] *)
Definition exists_file (p : string) : Script bool := λ st,
  (Next (bool_decide (is_Some (disk st !! p))), st).

Definition read_file (p : string) : Script (option string) := λ st,
  (Next (disk st !! p), st).

(** Runs the command and returns its exit status. *)
Definition spawn (w : World) (cmd : string) : Script Z := λ st,
  let '(status, disk') := run w cmd (disk st) in
  (Next status, {| disk := disk'; trace := trace st ++ [Exec cmd] |}).

(** The file at [p] becomes [content]; [None] removes it. *)
Definition put (p : string) (content : option string) (d : gmap string string)
  : gmap string string :=
  match content with
  | Some c => <[p := c]> d
  | None => delete p d
  end.

Definition no_such_file (src dst : string) (at_target : option string)
  : CopyFailure :=
  {| copy_message := "ENOENT: no such file or directory, copyfile '" +:+ src +:+
                     "' -> '" +:+ dst +:+ "'";
     cp_status := 1;
     left_at_target := at_target |}.

(** Copies [src] over [dst], and tells how it failed if it did. A copy
    that succeeds leaves the content of [src] at [dst]; one that fails
    touches no file but [dst]. *)
Definition copy (w : World) (src dst : string) : Script (option CopyFailure) :=
  λ st,
  let t := trace st ++ [CopyFile src dst] in
  match disk st !! src with
  | Some content =>
      match copy_failure w src dst (disk st) with
      | None => (Next None, {| disk := <[dst := content]> (disk st); trace := t |})
      | Some failure =>
          (Next (Some failure),
           {| disk := put dst (left_at_target failure) (disk st); trace := t |})
      end
  | None =>
      (Next (Some (no_such_file src dst (disk st !! dst))),
       {| disk := disk st; trace := t |})
  end.

(** The state in which a script starts. *)
Definition initial (w : World) : State := {| disk := files w; trace := [] |}.

Definition finish (w : World) (main : Script unit) : Outcome :=
  match main (initial w) with
  | (Next _, st) => {| exit_code := 0; events := trace st; files_after := disk st |}
  | (Exit c, st) => {| exit_code := c; events := trace st; files_after := disk st |}
  | (Thrown _, st) =>
      (* an uncaught exception ends node with status 1 *)
      {| exit_code := 1; events := trace st; files_after := disk st |}
  end.

(** *** Strings *)

Definition nonempty (s : string) : bool :=
  match s with EmptyString => false | String _ _ => true end.

(** [s.split(sep)] for a one-character separator. *)
Fixpoint split (sep : ascii) (s : string) : list string :=
  match s with
  | EmptyString => [EmptyString]
  | String c rest =>
      if Ascii.eqb c sep then EmptyString :: split sep rest
      else match split sep rest with
           | p :: ps => String c p :: ps
           | [] => [String c EmptyString]
           end
  end.

(** The white space and line terminators that [trim] removes, by their
    UTF-8 bytes. One byte: tab, line feed, vertical tab, form feed,
    carriage return, space. *)
Definition is_space (c : ascii) : bool :=
  let n := Ascii.N_of_ascii c in (((9 <=? n) && (n <=? 13)) || (n =? 32))%N.

(** Two bytes: U+00A0. *)
Definition is_space2 (c1 c2 : ascii) : bool :=
  ((Ascii.N_of_ascii c1 =? 194) && (Ascii.N_of_ascii c2 =? 160))%N.

(** Three bytes: U+1680, U+2000 to U+200A, U+2028, U+2029, U+202F, U+205F,
    U+3000 and U+FEFF. *)
Definition is_space3 (c1 c2 c3 : ascii) : bool :=
  let a := Ascii.N_of_ascii c1 in
  let b := Ascii.N_of_ascii c2 in
  let c := Ascii.N_of_ascii c3 in
  ((a =? 225) && (b =? 154) && (c =? 128)
   || (a =? 226) && (b =? 128) &&
      ((128 <=? c) && (c <=? 138) || (c =? 168) || (c =? 169) || (c =? 175))
   || (a =? 226) && (b =? 129) && (c =? 159)
   || (a =? 227) && (b =? 128) && (c =? 128)
   || (a =? 239) && (b =? 187) && (c =? 191))%N.

(** The string without the white space it starts with; with [backwards],
    on a string whose bytes are in reverse order. *)
Fixpoint strip (backwards : bool) (s : string) : string :=
  match s with
  | String c1 rest1 =>
      if is_space c1 then strip backwards rest1
      else
        match rest1 with
        | String c2 rest2 =>
            if (if backwards then is_space2 c2 c1 else is_space2 c1 c2)
            then strip backwards rest2
            else
              match rest2 with
              | String c3 rest3 =>
                  if (if backwards then is_space3 c3 c2 c1 else is_space3 c1 c2 c3)
                  then strip backwards rest3
                  else s
              | EmptyString => s
              end
        | EmptyString => s
        end
  | EmptyString => EmptyString
  end.

Definition reverse (s : string) : string :=
  String.string_of_list_ascii (rev (String.list_ascii_of_string s)).

Definition trimStart (s : string) : string := strip false s.

Definition trimEnd (s : string) : string := reverse (strip true (reverse s)).

Definition trim (s : string) : string := trimEnd (trimStart s).

Definition startsWith (s : string) (c : ascii) : bool :=
  match s with
  | String c' _ => Ascii.eqb c' c
  | EmptyString => false
  end.

(** [path.join] on segments that need no normalisation. *)
Definition path_join (segments : list string) : string := join "/" segments.

(** [xs.includes(x)] on an array of strings. *)
Definition array_includes (xs : list string) (x : string) : bool :=
  existsb (String.eqb x) xs.

(** *** deploy.mjs *)

Definition validEnvironments : list string := ["dev"; "qa"; "staging"; "prod"].

Definition newline : ascii := "010"%char.
Definition dquote : string := String "034"%char EmptyString.

(** One step of the [reduce] over the lines of .env.aws:
    [const [key, value] = line.split('='); if (key && value) ...]. The
    accumulator is an object literal: an assignment to [__proto__] with a
    string goes to the setter it inherits and adds no property. *)
Definition parse_line (acc : gmap string string) (line : string)
  : gmap string string :=
  match split "="%char line with
  | key :: value :: _ =>
      if nonempty key && nonempty value
      then if String.eqb (trim key) "__proto__" then acc
           else <[trim key := trim value]> acc
      else acc
  | _ => acc
  end.

Definition parse_env (envFileContent : string) : gmap string string :=
  fold_left parse_line
    (List.filter (λ line, nonempty (trim line) && negb (startsWith line "#"%char))
       (split newline envFileContent))
    ∅.

(** [!x] on a string that may be [undefined]. *)
Definition truthy (x : option string) : option string :=
  match x with
  | Some s => if nonempty s then Some s else None
  | None => None
  end.

Definition build_command : string :=
  "npm run build -- --configuration=production".

Definition configFile (environment : string) : string :=
  if String.eqb environment "prod"
  then "environment.production.json"
  else "environment." +:+ environment +:+ ".json".

Definition bucketName (environment UNIQUE_ID : string) : string :=
  "angular-deploy-" +:+ environment +:+ "-" +:+ UNIQUE_ID.

Definition sourceConfig (w : World) (environment : string) : string :=
  path_join [dirname w; "src"; "assets"; "config"; configFile environment].

Definition distPath (w : World) : string :=
  path_join [dirname w; "dist"; "angular-release-deployment-frontend"; "browser"].

Definition targetConfig (w : World) : string :=
  path_join [dirname w; "dist"; "angular-release-deployment-frontend";
             "browser"; "assets"; "config"; "environment.json"].

Definition s3SyncCommand (w : World) (bucket : string) : string :=
  "aws s3 sync " +:+ dquote +:+ distPath w +:+ dquote +:+
  " s3://" +:+ bucket +:+ " --delete".

Definition invalidation_command (distribution : string) : string :=
  "aws cloudfront create-invalidation --distribution-id " +:+ distribution +:+
  " --paths " +:+ dquote +:+ "/*" +:+ dquote.

Definition website (bucket : string) : string :=
  "http://" +:+ bucket +:+ ".s3-website-us-east-1.amazonaws.com".

(** [execSync]: a non-zero status is thrown. *)
Definition execSync (w : World) (cmd : string) : Script unit :=
  status ← spawn w cmd;
  if status =? 0 then sret tt else raise (Error ("Command failed: " +:+ cmd)).

(** [fs.copyFileSync]: a failure is thrown. *)
Definition copyFileSync (w : World) (src dst : string) : Script unit :=
  failure ← copy w src dst;
  match failure with
  | None => sret tt
  | Some f => raise (Error (copy_message f))
  end.

(** Step 1. It has no environment among its arguments. *)
Definition build_step (w : World) : Script unit :=
  emit (Out "[1/4] Building Angular application...") ;;
  execSync w build_command ;;
  emit (Out "Build completed successfully").

(** Step 2. *)
Definition swap_step (w : World) (environment : string) : Script unit :=
  emit (Out "[2/4] Swapping environment configuration...") ;;
  present ← exists_file (sourceConfig w environment);
  when (negb present)
    (raise (Error ("Config file not found: " +:+ sourceConfig w environment))) ;;
  copyFileSync w (sourceConfig w environment) (targetConfig w) ;;
  emit (Out ("Configuration swapped to " +:+ environment)).

(** Step 3. *)
Definition publish_step (w : World) (bucket : string) : Script unit :=
  emit (Out ("[3/4] Deploying to S3 bucket: " +:+ bucket)) ;;
  execSync w (s3SyncCommand w bucket) ;;
  emit (Out "Files uploaded to S3").

(** Step 4, inside [if (environment === 'prod')]. *)
Definition invalidate_step (w : World) (CLOUDFRONT_DISTRIBUTION_ID : option string)
  : Script unit :=
  emit (Out "[4/5] Invalidating CloudFront cache...") ;;
  match truthy CLOUDFRONT_DISTRIBUTION_ID with
  | None =>
      emit (Out "CloudFront distribution ID not found in .env.aws") ;;
      emit (Out "Skipping cache invalidation")
  | Some id =>
      catch
        (execSync w (invalidation_command id) ;;
         emit (Out "CloudFront cache invalidated") ;;
         emit (Out "Fresh content will be available within 1-2 minutes"))
        (λ _, emit (Out "CloudFront invalidation failed (not critical)"))
  end.

Definition summary (environment bucket : string) (CLOUDFRONT_DOMAIN : option string)
  : Script unit :=
  let prod := String.eqb environment "prod" in
  emit (Out ((if prod then "[5/5]" else "[4/4]") +:+ " Deployment complete!")) ;;
  emit (Out "Deployment Successful!") ;;
  emit (Out ("Environment:  " +:+ environment)) ;;
  emit (Out ("Bucket:       " +:+ bucket)) ;;
  emit (Out "Your app is live at:") ;;
  if prod then
    emit (Out ("https://" +:+ default "undefined" CLOUDFRONT_DOMAIN +:+
               " (CloudFront - Recommended)")) ;;
    emit (Out (website bucket +:+ " (S3 Direct)"))
  else
    emit (Out (website bucket)).

(** The [try] block and its [catch]. An error of [execSync] run with
    inherited stdio carries no [stderr], and neither does one of [fs]: only
    the message is printed. *)
Definition deployment_failed (error : exn) : Script unit :=
  emit (Err "Deployment failed!") ;;
  when (nonempty (message error)) (emit (Err (message error))) ;;
  exit 1.

Definition steps_after_build (w : World) (environment bucket : string)
    (envVars : gmap string string) : Script unit :=
  swap_step w environment ;;
  publish_step w bucket ;;
  when (String.eqb environment "prod")
    (invalidate_step w (envVars !! "CLOUDFRONT_DISTRIBUTION_ID")) ;;
  summary environment bucket (envVars !! "CLOUDFRONT_DOMAIN").

Definition deployment_steps (w : World) (environment UNIQUE_ID : string)
    (envVars : gmap string string) : Script unit :=
  let bucket := bucketName environment UNIQUE_ID in
  catch
    (build_step w ;; steps_after_build w environment bucket envVars)
    deployment_failed.

Definition main_mjs (w : World) : Script unit :=
  (* [!environment] holds for a missing and for an empty argument *)
  let environment := default "" (argument w) in
  when (negb (nonempty environment))
    (emit (Err "No environment specified") ;; exit 1) ;;
  when (negb (array_includes validEnvironments environment))
    (emit (Err ("Invalid environment: '" +:+ environment +:+ "'")) ;;
     emit (Out ("Must be one of: " +:+ join ", " validEnvironments)) ;;
     exit 1) ;;
  let envFilePath := path_join [dirname w; ".env.aws"] in
  envFile ← read_file envFilePath;
  match envFile with
  | None =>
      emit (Err ".env.aws file not found!") ;;
      emit (Out "Please ensure .env.aws exists with UNIQUE_ID variable") ;;
      exit 1
  | Some envFileContent =>
      let envVars := parse_env envFileContent in
      match truthy (envVars !! "UNIQUE_ID") with
      | None => emit (Err "UNIQUE_ID not found in .env.aws") ;; exit 1
      | Some UNIQUE_ID =>
          emit (Out ("Environment:  " +:+ environment)) ;;
          emit (Out ("Bucket:       " +:+ bucketName environment UNIQUE_ID)) ;;
          emit (Out ("Config:       " +:+ configFile environment)) ;;
          deployment_steps w environment UNIQUE_ID envVars
      end
  end.

Definition deploy_mjs (w : World) : Outcome := finish w (main_mjs w).

(** *** deploy.sh

    The script runs under [set -e]: a simple command that is not the test
    of an [if] ends the script with its own status when that is not zero.
    Every message goes to standard output. *)

Definition backslash : ascii := "092"%char.

(** What [echo -e text] prints: the text as it is up to its first
    backslash; from there on the shell reads escape sequences. *)
Fixpoint echo_e_after (w : World) (before text : string) : string :=
  match text with
  | EmptyString => EmptyString
  | String c rest =>
      if Ascii.eqb c backslash then escapes w before text
      else String c (echo_e_after w (before +:+ String c EmptyString) rest)
  end.

Definition echo_e (w : World) (text : string) : string := echo_e_after w "" text.

(** [$X]: empty when the variable is unset. *)
Definition expand (vars : gmap string string) (x : string) : string :=
  default "" (vars !! x).

Definition sh_command (w : World) (cmd : string) : Script Z :=
  status ← spawn w cmd;
  if status =? 0 then sret status else exit status.

Definition sh_cp (w : World) (src dst : string) : Script Z :=
  failure ← copy w src dst;
  match failure with
  | None => sret 0
  | Some f => exit (Z.pos (cp_status f))
  end.

(** [source path]: the variables afterwards, inherited ones included. *)
Definition sh_source (w : World) (path : string) (vars : gmap string string)
  : Script (gmap string string) := λ st,
  let st' := {| disk := disk st; trace := trace st ++ [Source path] |} in
  match disk st !! path with
  | Some content =>
      let '(status, vars') := source w content vars in
      (if status =? 0 then Next vars' else Exit status, st')
  | None => (Exit 1, st')
  end.

Definition case_patterns : list string := ["dev"; "qa"; "staging"; "prod"].

Definition SOURCE_CONFIG (ENVIRONMENT : string) : string :=
  "src/assets/config/" +:+ configFile ENVIRONMENT.

Definition TARGET_CONFIG : string :=
  "dist/angular-release-deployment-frontend/browser/assets/config/environment.json".

Definition sh_sync_command (BUCKET_NAME : string) : string :=
  "aws s3 sync dist/angular-release-deployment-frontend/browser s3://" +:+
  BUCKET_NAME +:+ " --delete".

Definition sh_invalidation_command (distribution : string) : string :=
  "aws cloudfront create-invalidation --distribution-id " +:+ distribution +:+
  " --paths " +:+ dquote +:+ "/*" +:+ dquote +:+ " > /dev/null".

Definition sh_build_step (w : World) : Script unit :=
  emit (Out "[1/4] Building Angular application...") ;;
  status ← sh_command w build_command;
  when (negb (status =? 0))
    (emit (Out "Build failed! Aborting deployment.") ;; exit 1) ;;
  emit (Out "Build completed successfully").

Definition sh_swap_step (w : World) (ENVIRONMENT : string) : Script unit :=
  emit (Out "[2/4] Swapping environment configuration...") ;;
  present ← exists_file (SOURCE_CONFIG ENVIRONMENT);
  when (negb present)
    (emit (Out (echo_e w ("Error: Config file not found: " +:+
                          SOURCE_CONFIG ENVIRONMENT))) ;;
     exit 1) ;;
  sh_cp w (SOURCE_CONFIG ENVIRONMENT) TARGET_CONFIG ;;
  emit (Out (echo_e w ("Configuration swapped to " +:+ ENVIRONMENT))).

Definition sh_publish_step (w : World) (BUCKET_NAME : string) : Script unit :=
  emit (Out (echo_e w ("[3/4] Deploying to S3 bucket: " +:+ BUCKET_NAME))) ;;
  status ← sh_command w (sh_sync_command BUCKET_NAME);
  when (negb (status =? 0)) (emit (Out "Deployment failed!") ;; exit 1) ;;
  emit (Out "Files uploaded to S3").

Definition sh_invalidate_step (w : World) (CLOUDFRONT_DISTRIBUTION_ID : string)
  : Script unit :=
  emit (Out "[4/5] Invalidating CloudFront cache...") ;;
  if negb (nonempty CLOUDFRONT_DISTRIBUTION_ID) then
    emit (Out "CloudFront distribution ID not found in .env.aws") ;;
    emit (Out "Skipping cache invalidation")
  else
    status ← sh_command w (sh_invalidation_command CLOUDFRONT_DISTRIBUTION_ID);
    if status =? 0 then
      emit (Out "CloudFront cache invalidated") ;;
      emit (Out "   Fresh content will be available within 1-2 minutes")
    else
      emit (Out "CloudFront invalidation failed (not critical)").

(** The lines with [$ENVIRONMENT] and [$BUCKET_NAME] alone are printed by
    [echo], the links by [echo -e]. *)
Definition sh_summary (w : World)
    (ENVIRONMENT BUCKET_NAME CLOUDFRONT_DOMAIN : string) : Script unit :=
  let prod := String.eqb ENVIRONMENT "prod" in
  emit (Out ((if prod then "[5/5]" else "[4/4]") +:+ " Deployment complete!")) ;;
  emit (Out "Deployment Successful!") ;;
  emit (Out ("Environment:  " +:+ ENVIRONMENT)) ;;
  emit (Out ("Bucket:       " +:+ BUCKET_NAME)) ;;
  emit (Out "Your app is live at:") ;;
  if prod then
    emit (Out (echo_e w ("https://" +:+ CLOUDFRONT_DOMAIN +:+
                         " (CloudFront - Recommended)"))) ;;
    emit (Out (echo_e w (website BUCKET_NAME +:+ " (S3 Direct)")))
  else
    emit (Out (echo_e w (website BUCKET_NAME))).

Definition sh_steps_after_build (w : World) (ENVIRONMENT BUCKET_NAME : string)
    (vars : gmap string string) : Script unit :=
  sh_swap_step w ENVIRONMENT ;;
  sh_publish_step w BUCKET_NAME ;;
  when (String.eqb ENVIRONMENT "prod")
    (sh_invalidate_step w (expand vars "CLOUDFRONT_DISTRIBUTION_ID")) ;;
  sh_summary w ENVIRONMENT BUCKET_NAME (expand vars "CLOUDFRONT_DOMAIN").

Definition main_sh (w : World) : Script unit :=
  let vars0 : gmap string string :=
    {[ "ENVIRONMENT" := default "" (argument w) ]} in
  present ← exists_file ".env.aws";
  when (negb present)
    (emit (Out "Error: .env.aws file not found!") ;;
     emit (Out "Please ensure .env.aws exists with UNIQUE_ID variable") ;;
     exit 1) ;;
  vars ← sh_source w ".env.aws" vars0;
  let ENVIRONMENT := expand vars "ENVIRONMENT" in
  when (negb (nonempty ENVIRONMENT))
    (emit (Out "Error: No environment specified") ;; exit 1) ;;
  when (negb (array_includes case_patterns ENVIRONMENT))
    (emit (Out (echo_e w ("Error: Invalid environment '" +:+ ENVIRONMENT +:+ "'"))) ;;
     emit (Out "Must be one of: dev, qa, staging, prod") ;;
     exit 1) ;;
  let BUCKET_NAME := bucketName ENVIRONMENT (expand vars "UNIQUE_ID") in
  emit (Out ("Environment:  " +:+ ENVIRONMENT)) ;;
  emit (Out ("Bucket:       " +:+ BUCKET_NAME)) ;;
  emit (Out ("Config:       " +:+ configFile ENVIRONMENT)) ;;
  sh_build_step w ;;
  sh_steps_after_build w ENVIRONMENT BUCKET_NAME vars.

Definition deploy_sh (w : World) : Outcome := finish w (main_sh w).

End Deploy.

(* ===================================================================== *)
(** ** Vocabulary of the statements, and concrete documents *)
(* ===================================================================== *)

Import Config.

Definition NotLoaded : exn :=
  Error "Configuration not loaded. APP_INITIALIZER may have failed.".

Definition LoadFailed : exn :=
  Error "Failed to load application configuration".

Definition MissingField (F : string) : exn :=
  Error ("Missing required configuration field: " +:+ F).

(** The entry [loadConfig] leaves on the console when it rejects. *)
Definition failure_log (cause : exn) : console :=
  console_error "[ConfigService] Failed to load configuration:" cause.

(** [doc[F]] on a document that is not [null]. *)
Definition field (doc : json) (F : string) : value :=
  match doc with
  | JObj props => assoc F props
  | _ => undefined
  end.

(** [F] is absent from the document, or [null]. *)
Definition missing (doc : json) (F : string) : bool :=
  undefined_or_null (field doc F).

(** The message of the error mentions the text [s]. *)
Definition names (e : exn) (s : string) : bool := includes s (message e).

(** A service that has not loaded yet, whose server answers [response]. *)
Definition serving (response : result json) : ConfigService :=
  new_ConfigService (λ _, response).

Definition qa_document : json :=
  JObj [("name", JStr "qa");
        ("production", JBool false);
        ("apiUrl", JStr "https://api-qa.example.com");
        ("authUrl", JStr "https://auth-qa.example.com");
        ("features", JObj [("enableAnalytics", JBool false);
                           ("enableLogging", JBool true)])].

(** [qa_document] without its [name]. *)
Definition nameless_document : json :=
  JObj [("production", JBool false);
        ("apiUrl", JStr "https://api-qa.example.com");
        ("authUrl", JStr "https://auth-qa.example.com");
        ("features", JObj [("enableAnalytics", JBool false);
                           ("enableLogging", JBool true)])].

(** [qa_document] with [apiUrl] set to [null]. *)
Definition null_apiUrl_document : json :=
  JObj [("name", JStr "qa");
        ("production", JBool false);
        ("apiUrl", JNull);
        ("authUrl", JStr "https://auth-qa.example.com");
        ("features", JObj [])].

(** A document that stops at its second field. *)
Definition partial_document : json :=
  JObj [("name", JStr "qa"); ("production", JBool false)].

(** [production] is a string, [name] a number, [features] an array. *)
Definition mistyped_document : json :=
  JObj [("name", JNum 7);
        ("production", JStr "false");
        ("apiUrl", JStr "https://api-qa.example.com");
        ("authUrl", JStr "https://auth-qa.example.com");
        ("features", JArr [])].

Definition bad_apiUrl_document : json :=
  JObj [("name", JStr "qa");
        ("production", JBool false);
        ("apiUrl", JStr "not a url");
        ("authUrl", JStr "https://auth-qa.example.com");
        ("features", JObj [])].

(** A valid document written with the field names [isProduction],
    [apiBaseUrl] and [authBaseUrl]. *)
Definition renamed_document : json :=
  JObj [("name", JStr "qa");
        ("isProduction", JBool false);
        ("apiBaseUrl", JStr "https://api-qa.example.com");
        ("authBaseUrl", JStr "https://auth-qa.example.com");
        ("features", JObj [])].

Definition bad_authUrl_document : json :=
  JObj [("name", JStr "qa");
        ("production", JBool false);
        ("apiUrl", JStr "https://api.example.com");
        ("authUrl", JStr "not a url");
        ("features", JObj [])].

Definition with_config (doc : json) (this : ConfigService) : ConfigService :=
  {| config := doc; http := http this |}.

(** What [validateConfig] throws for a URL that does not pass: the error
    whose message carries the string form of the value or, when the value
    has none, the exception of the conversion. *)
Definition invalid_url (label : string) (url : value) : exn :=
  match ToString url with
  | Return text => Error (label +:+ text)
  | Throw e => e
  end.

(** The value has a string form. *)
Definition printable (v : value) : bool := is_Return (ToString v).

(** What validation objects to first in a document, if anything: the
    order of the checks of [validateConfig], as a function. *)
Definition first_failure (URL_parses : string → bool) (doc : json) : option exn :=
  match doc with
  | JNull => Some (TypeError "Cannot read properties of null (reading 'name')")
  | _ =>
      match List.find (missing doc) requiredFields with
      | Some F => Some (MissingField F)
      | None =>
          if negb (isValidUrl URL_parses (field doc "apiUrl"))
          then Some (invalid_url "Invalid API URL: " (field doc "apiUrl"))
          else if negb (isValidUrl URL_parses (field doc "authUrl"))
          then Some (invalid_url "Invalid Auth URL: " (field doc "authUrl"))
          else None
      end
  end.

(** The console of a successful load, for a document whose [name] prints
    as [name]. *)
Definition validation_passed : console :=
  console_warn "[ConfigService] Configuration validation passed".

Definition success_log (name : string) : list console :=
  [validation_passed;
   console_warn ("[ConfigService] Configuration loaded for environment: " +:+ name)].

(** A complete document with two good URLs whose [name] is an object with
    a [toString] field. *)
Definition unprintable_name_document : json :=
  JObj [("name", JObj [("toString", JNum 1)]);
        ("production", JBool false);
        ("apiUrl", JStr "https://api-qa.example.com");
        ("authUrl", JStr "https://auth-qa.example.com");
        ("features", JObj [])].

(** A complete document whose [apiUrl] is such an object. *)
Definition unprintable_apiUrl_document : json :=
  JObj [("name", JStr "qa");
        ("production", JBool false);
        ("apiUrl", JObj [("toString", JNum 1)]);
        ("authUrl", JStr "https://auth-qa.example.com");
        ("features", JObj [])].

(** Every required field is present and not [null]. *)
Definition complete (doc : json) : bool :=
  forallb (λ F, negb (missing doc F)) requiredFields.

(** The required fields that are absent or [null], in declaration order. *)
Definition missing_fields (doc : json) : list string :=
  List.filter (missing doc) requiredFields.

(* ===================================================================== *)
(** ** Vocabulary of the statements about the scripts *)
(* ===================================================================== *)

Import Deploy.

(** The commands run and the files copied by a run, in order. *)
Definition effects (t : list Event) : list Event :=
  List.filter (λ ev, match ev with Exec _ | CopyFile _ _ => true | _ => false end) t.

(** The build as every run performs it: on the files the run starts from. *)
Definition build_status (w : World) : Z := (run w build_command (files w)).1.
Definition artifact (w : World) : gmap string string :=
  (run w build_command (files w)).2.

(** deploy.mjs: the variables of .env.aws and the value of [UNIQUE_ID],
    when the file is there and defines it. *)
Definition mjs_operator_config (w : World) : option (gmap string string * string) :=
  match files w !! path_join [dirname w; ".env.aws"] with
  | Some content =>
      match truthy (parse_env content !! "UNIQUE_ID") with
      | Some UNIQUE_ID => Some (parse_env content, UNIQUE_ID)
      | None => None
      end
  | None => None
  end.

(** deploy.sh: the shell variables once .env.aws has been found and
    sourced with success. *)
Definition sh_variables (w : World) : option (gmap string string) :=
  match files w !! ".env.aws" with
  | Some content =>
      let '(status, vars) :=
        source w content {[ "ENVIRONMENT" := default "" (argument w) ]} in
      if status =? 0 then Some vars else None
  | None => None
  end.

(** The trace of a script only grows. *)
Definition grows {A} (m : Script A) : Prop :=
  ∀ st, ∃ t, trace (m st).2 = trace st ++ t.

(** How deploy.mjs turns down an argument. *)
Definition mjs_refusal (w : World) (environment : string) : Outcome :=
  {| exit_code := 1;
     events :=
       if nonempty environment
       then [Err ("Invalid environment: '" +:+ environment +:+ "'");
             Out "Must be one of: dev, qa, staging, prod"]
       else [Err "No environment specified"];
     files_after := files w |}.

(** How deploy.sh turns down [$ENVIRONMENT], after sourcing .env.aws. The
    line that quotes it is printed by [echo -e]. *)
Definition sh_refusal (w : World) (ENVIRONMENT : string) : Outcome :=
  {| exit_code := 1;
     events :=
       if nonempty ENVIRONMENT
       then [Source ".env.aws";
             Out (echo_e w ("Error: Invalid environment '" +:+ ENVIRONMENT +:+ "'"));
             Out "Must be one of: dev, qa, staging, prod"]
       else [Source ".env.aws"; Out "Error: No environment specified"];
     files_after := files w |}.

(** The external commands of a trace, in order, and the first of a run. *)
Definition commands (t : list Event) : list string :=
  omap (λ ev, match ev with Exec cmd => Some cmd | _ => None end) t.

Definition first_command (o : Outcome) : option string :=
  head (commands (events o)).

(** The argument, as both scripts read it: empty when it is not given. *)
Definition requested (w : World) : string := default "" (argument w).

(** How deploy.mjs ends when .env.aws is absent, or has no [UNIQUE_ID]. *)
Definition mjs_no_env_file (w : World) : Outcome :=
  {| exit_code := 1;
     events := [Err ".env.aws file not found!";
                Out "Please ensure .env.aws exists with UNIQUE_ID variable"];
     files_after := files w |}.

Definition mjs_no_unique_id (w : World) : Outcome :=
  {| exit_code := 1;
     events := [Err "UNIQUE_ID not found in .env.aws"];
     files_after := files w |}.

(** How deploy.sh ends when .env.aws is absent. *)
Definition sh_no_env_file (w : World) : Outcome :=
  {| exit_code := 1;
     events := [Out "Error: .env.aws file not found!";
                Out "Please ensure .env.aws exists with UNIQUE_ID variable"];
     files_after := files w |}.

(** The trace of deploy.sh up to its build command. *)
Definition sh_header (ENVIRONMENT UNIQUE_ID : string) : list Event :=
  [Source ".env.aws";
   Out ("Environment:  " +:+ ENVIRONMENT);
   Out ("Bucket:       " +:+ bucketName ENVIRONMENT UNIQUE_ID);
   Out ("Config:       " +:+ configFile ENVIRONMENT);
   Out "[1/4] Building Angular application...";
   Exec build_command].

(** The trace of deploy.mjs up to its build command. *)
Definition mjs_header (environment UNIQUE_ID : string) : list Event :=
  [Out ("Environment:  " +:+ environment);
   Out ("Bucket:       " +:+ bucketName environment UNIQUE_ID);
   Out ("Config:       " +:+ configFile environment);
   Out "[1/4] Building Angular application...";
   Exec build_command].

(** *** Concrete worlds *)

Definition lines (ls : list string) : string :=
  join (String newline EmptyString) ls.

(** The .env.aws of the setup guide. *)
Definition operator_file : string :=
  lines ["UNIQUE_ID=shree-1767366539";
         "CLOUDFRONT_DISTRIBUTION_ID=E1QKKABZX5LKQQ";
         "CLOUDFRONT_DOMAIN=d29lgch8cdh74n.cloudfront.net"].

(** The same file without its first line. *)
Definition operator_file_without_id : string :=
  lines ["CLOUDFRONT_DISTRIBUTION_ID=E1QKKABZX5LKQQ";
         "CLOUDFRONT_DOMAIN=d29lgch8cdh74n.cloudfront.net"].

(** A checkout in /repo, seen through absolute paths (deploy.mjs) and
    from inside the directory (deploy.sh). It has configuration documents
    for dev and production only. *)
Definition checkout (env_file : string) : gmap string string :=
  list_to_map
    [("/repo/.env.aws", env_file);
     ("/repo/src/assets/config/environment.dev.json", "dev document");
     ("/repo/src/assets/config/environment.production.json", "production document");
     (".env.aws", env_file);
     ("src/assets/config/environment.dev.json", "dev document");
     ("src/assets/config/environment.production.json", "production document")].

(** Every command succeeds; the build writes one bundle and the default
    configuration document, under both views of the directory. *)
Definition commands_succeed (cmd : string) (d : gmap string string)
  : Z * gmap string string :=
  if String.eqb cmd build_command then
    (0,
     <["/repo/dist/angular-release-deployment-frontend/browser/main.js" := "bundle"]>
     (<["/repo/dist/angular-release-deployment-frontend/browser/assets/config/environment.json" := "default document"]>
     (<["dist/angular-release-deployment-frontend/browser/main.js" := "bundle"]>
     (<["dist/angular-release-deployment-frontend/browser/assets/config/environment.json" := "default document"]> d))))
  else (0, d).

(** As [commands_succeed], but the CloudFront command ends with 254. *)
Definition invalidation_fails (cmd : string) (d : gmap string string)
  : Z * gmap string string :=
  if String.prefix "aws cloudfront create-invalidation" cmd then (254, d)
  else commands_succeed cmd d.

(** Sourcing a file of [KEY=VALUE] lines sets those variables. *)
Definition source_assignments (content : string) (vars : gmap string string)
  : Z * gmap string string :=
  (0, parse_env content ∪ vars).

(** Every copy succeeds. *)
Definition copies_succeed (src dst : string) (d : gmap string string)
  : option CopyFailure := None.

(** The directory of the target is missing: the copy fails and writes
    nothing. *)
Definition no_target_directory (src dst : string) (d : gmap string string)
  : option CopyFailure := Some (no_such_file src dst (d !! dst)).

(** A shell that is never given a backslash to read. *)
Definition no_escapes (before text : string) : string := text.

Definition world (arg : option string) (env_file : string)
    (run : string → gmap string string → Z * gmap string string) : World :=
  {| argument := arg;
     dirname := "/repo";
     files := checkout env_file;
     run := run;
     source := source_assignments;
     copy_failure := copies_succeed;
     escapes := no_escapes |}.

(** A checkout without .env.aws. *)
Definition world_without_env_file (arg : option string) : World :=
  {| argument := arg;
     dirname := "/repo";
     files := delete ".env.aws" (delete "/repo/.env.aws" (checkout ""));
     run := commands_succeed;
     source := source_assignments;
     copy_failure := copies_succeed;
     escapes := no_escapes |}.

(** The tree of the checkout after a successful build. *)
Definition built : State :=
  {| disk := artifact (world None operator_file commands_succeed);
     trace := [] |}.

(** The lines that end a run that found no configuration document. *)
Definition mjs_missing_config_report (w : World) (e : string) : list Event :=
  [Out "Build completed successfully";
   Out "[2/4] Swapping environment configuration...";
   Err "Deployment failed!";
   Err ("Config file not found: " +:+ sourceConfig w e)].

Definition sh_missing_config_report (E : string) : list Event :=
  [Out "Build completed successfully";
   Out "[2/4] Swapping environment configuration...";
   Out ("Error: Config file not found: " +:+ SOURCE_CONFIG E)].

(** The trace of a prod run of deploy.sh up to the CloudFront command. The
    line that names the bucket is printed by [echo -e]. *)
Definition sh_run_to_invalidation (w : World) (UNIQUE_ID distribution : string)
  : list Event :=
  sh_header "prod" UNIQUE_ID ++
  [Out "Build completed successfully";
   Out "[2/4] Swapping environment configuration...";
   CopyFile (SOURCE_CONFIG "prod") TARGET_CONFIG;
   Out "Configuration swapped to prod";
   Out (echo_e w ("[3/4] Deploying to S3 bucket: " +:+ bucketName "prod" UNIQUE_ID));
   Exec (sh_sync_command (bucketName "prod" UNIQUE_ID));
   Out "Files uploaded to S3";
   Out "[4/5] Invalidating CloudFront cache...";
   Exec (sh_invalidation_command distribution)].

(** The trace of a prod run of deploy.mjs whose invalidation fails. *)
Definition mjs_run_with_warning (w : World) (UNIQUE_ID distribution : string)
    (domain : option string) : list Event :=
  mjs_header "prod" UNIQUE_ID ++
  [Out "Build completed successfully";
   Out "[2/4] Swapping environment configuration...";
   CopyFile (sourceConfig w "prod") (targetConfig w);
   Out "Configuration swapped to prod";
   Out ("[3/4] Deploying to S3 bucket: " +:+ bucketName "prod" UNIQUE_ID);
   Exec (s3SyncCommand w (bucketName "prod" UNIQUE_ID));
   Out "Files uploaded to S3";
   Out "[4/5] Invalidating CloudFront cache...";
   Exec (invalidation_command distribution);
   Out "CloudFront invalidation failed (not critical)";
   Out "[5/5] Deployment complete!";
   Out "Deployment Successful!";
   Out "Environment:  prod";
   Out ("Bucket:       " +:+ bucketName "prod" UNIQUE_ID);
   Out "Your app is live at:";
   Out ("https://" +:+ default "undefined" domain +:+ " (CloudFront - Recommended)");
   Out (website (bucketName "prod" UNIQUE_ID) +:+ " (S3 Direct)")].

(** A script leaves every file but [target] as it found it. *)
Definition keeps {A} (target : string) (m : Script A) : Prop :=
  ∀ st p, p ≠ target → disk (m st).2 !! p = disk st !! p.

(** Apart from the build, the commands of the world write no local file
    (they upload and invalidate). *)
Definition only_build_writes (w : World) : Prop :=
  ∀ cmd d, cmd ≠ build_command → (run w cmd d).2 = d.

(* ===================================================================== *)
(** ** The root component (app.ts) *)
(* ===================================================================== *)

Module Component.

(** The signals of [App], by their current values. *)
Record App : Type := {
  title : value;
  environment : value;
  apiUrl : value;
  isProduction : value;
}.

(** [console.warn(label, v)]: the value is handed to the console as it
    is. *)
Inductive warning : Type :=
| warn (label : string) (v : value).

(** The constructor: the field initialisers, then the body. It reads the
    configuration through [getConfig] and copies three fields into the
    signals; when [getConfig] throws, no component is made. *)
Definition construct (configService : ConfigService)
  : result (App * list warning) :=
  match result_of (getConfig configService) with
  | Throw e => Throw e
  | Return config =>
      match get_prop config "name" with
      | Throw e => Throw e
      | Return name =>
          match get_prop config "apiUrl" with
          | Throw e => Throw e
          | Return api =>
              match get_prop config "production" with
              | Throw e => Throw e
              | Return production =>
                  Return ({| title := Some (JStr "Angular Release & Deployment");
                             environment := name;
                             apiUrl := api;
                             isProduction := production |},
                          [warn "Current Environment: " name])
              end
          end
      end
  end.

End Component.

(** The same service, talking to another server. *)
Definition with_http (http' : HttpClient) (this : ConfigService) : ConfigService :=
  {| config := config this; http := http' |}.

(** [qa_document] with one more top-level field, in the middle. *)
Definition extended_document : json :=
  JObj [("name", JStr "qa");
        ("production", JBool false);
        ("releaseChannel", JStr "beta");
        ("apiUrl", JStr "https://api-qa.example.com");
        ("authUrl", JStr "https://auth-qa.example.com");
        ("features", JObj [("enableAnalytics", JBool false);
                           ("enableLogging", JBool true)])].

(* ===================================================================== *)
(** ** Vocabulary of the further statements about the scripts *)
(* ===================================================================== *)

(** The CloudFront command of a run of deploy.mjs, if it has one: only
    for prod, and only with a distribution id. *)
Definition mjs_invalidation (environment : string) (vars : gmap string string)
  : list string :=
  if String.eqb environment "prod" then
    match truthy (vars !! "CLOUDFRONT_DISTRIBUTION_ID") with
    | Some distribution => [invalidation_command distribution]
    | None => []
    end
  else [].

(** The commands of a complete run of deploy.mjs, in order. *)
Definition mjs_plan (w : World) : list string :=
  match mjs_operator_config w with
  | Some (vars, uid) =>
      if array_includes validEnvironments (requested w) then
        [build_command; s3SyncCommand w (bucketName (requested w) uid)]
        ++ mjs_invalidation (requested w) vars
      else []
  | None => []
  end.

(** Steps 1 to 3 of deploy.mjs all succeed in the world: the argument is
    accepted, .env.aws is usable, the build ends with 0, the configuration
    document is in the built tree, the copy to its place succeeds, and the
    upload of the tree with that document in place ends with 0. *)
Definition mjs_steps_succeed (w : World) : bool :=
  match mjs_operator_config w with
  | Some (vars, uid) =>
      array_includes validEnvironments (requested w)
      && (build_status w =? 0)
      && match artifact w !! sourceConfig w (requested w) with
         | Some document =>
             match copy_failure w (sourceConfig w (requested w)) (targetConfig w)
                     (artifact w) with
             | None =>
                 (run w (s3SyncCommand w (bucketName (requested w) uid))
                    (<[targetConfig w := document]> (artifact w))).1 =? 0
             | Some _ => false
             end
         | None => false
         end
  | None => false
  end.

(** The same for deploy.sh. *)
Definition sh_invalidation (ENVIRONMENT : string) (vars : gmap string string)
  : list string :=
  if String.eqb ENVIRONMENT "prod"
     && nonempty (expand vars "CLOUDFRONT_DISTRIBUTION_ID")
  then [sh_invalidation_command (expand vars "CLOUDFRONT_DISTRIBUTION_ID")]
  else [].

Definition sh_plan (w : World) : list string :=
  match sh_variables w with
  | Some vars =>
      let E := expand vars "ENVIRONMENT" in
      if array_includes case_patterns E then
        [build_command; sh_sync_command (bucketName E (expand vars "UNIQUE_ID"))]
        ++ sh_invalidation E vars
      else []
  | None => []
  end.

(** A run of deploy.sh goes through in the world: .env.aws is sourced,
    [$ENVIRONMENT] is accepted, the build ends with 0, the configuration
    document is in the built tree, the copy to its place succeeds, the
    upload ends with 0 and, for prod with a distribution id, so does the
    CloudFront command that follows it. *)
Definition sh_run_succeeds (w : World) : bool :=
  match sh_variables w with
  | Some vars =>
      let E := expand vars "ENVIRONMENT" in
      array_includes case_patterns E
      && (build_status w =? 0)
      && match artifact w !! SOURCE_CONFIG E with
         | Some document =>
             match copy_failure w (SOURCE_CONFIG E) TARGET_CONFIG (artifact w) with
             | None =>
                 let uploaded :=
                   run w (sh_sync_command (bucketName E (expand vars "UNIQUE_ID")))
                     (<[TARGET_CONFIG := document]> (artifact w)) in
                 (uploaded.1 =? 0)
                 && (if String.eqb E "prod"
                        && nonempty (expand vars "CLOUDFRONT_DISTRIBUTION_ID")
                     then (run w (sh_invalidation_command
                                    (expand vars "CLOUDFRONT_DISTRIBUTION_ID"))
                             uploaded.2).1 =? 0
                     else true)
             | Some _ => false
             end
         | None => false
         end
  | None => false
  end.

(** A script does not add the event to the trace. *)
Definition never_emits {A} (ev : Event) (m : Script A) : Prop :=
  ∀ st, ev ∉ trace st → ev ∉ trace (m st).2.

(** Three messages of deploy.sh, each in a branch that tests [$?] after a
    simple command. *)
Definition sh_messages_after_failure : list Event :=
  [Out "Build failed! Aborting deployment.";
   Out "Deployment failed!";
   Out "CloudFront invalidation failed (not critical)"].

(** The checkout with an .env.aws that the shell cannot source: sourcing
    ends with status 2. *)
Definition world_with_broken_env_file (arg : option string) : World :=
  {| argument := arg;
     dirname := "/repo";
     files := checkout "UNIQUE_ID=(";
     run := commands_succeed;
     source := λ _ vars, (2, vars);
     copy_failure := copies_succeed;
     escapes := no_escapes |}.

(** The checkout on a disk where the directory of the built configuration
    document cannot be written. *)
Definition world_without_target_directory (arg : option string) : World :=
  {| argument := arg;
     dirname := "/repo";
     files := checkout operator_file;
     run := commands_succeed;
     source := source_assignments;
     copy_failure := no_target_directory;
     escapes := no_escapes |}.

(** The checkout whose .env.aws starts with a byte order mark. *)
Definition operator_file_with_mark : string :=
  String "239"%char (String "187"%char (String "191"%char operator_file)).

(* ===================================================================== *)
(** ** Vocabulary of the statements about .env.aws *)
(* ===================================================================== *)

(** The string holds the character. *)
Fixpoint has_char (c : ascii) (s : string) : bool :=
  match s with
  | EmptyString => false
  | String c' rest => Ascii.eqb c' c || has_char c rest
  end.

(** The string starts with an ASCII character that is not white space
    (the white space of JavaScript outside ASCII takes several bytes, the
    first and the last of them outside ASCII). *)
Definition starts_tight (s : string) : bool :=
  match s with
  | String c _ => negb (is_space c) && (Ascii.N_of_ascii c <? 128)%N
  | EmptyString => false
  end.

(** A word as the keys and values of .env.aws are: not empty, an ASCII
    character that is not white space at either end, no equals sign, no
    line feed. *)
Definition word (s : string) : bool :=
  starts_tight s && starts_tight (reverse s)
  && negb (has_char "="%char s) && negb (has_char newline s).

(** A key is a word that does not start a comment and is not
    [__proto__]. *)
Definition key_word (k : string) : bool :=
  word k && negb (startsWith k "#"%char) && negb (String.eqb k "__proto__").

(** The line [KEY=VALUE]. *)
Definition assignment (kv : string * string) : string := kv.1 +:+ "=" +:+ kv.2.

(** What assignments made in order leave behind: the later one wins. *)
Definition assigned (kvs : list (string * string)) : gmap string string :=
  fold_left (λ m kv, <[kv.1 := kv.2]> m) kvs ∅.

(** The lines deploy.mjs passes over: blank ones, comments, and lines
    without an equals sign. *)
Definition ignored_line (l : string) : bool :=
  negb (nonempty (trim l)) || startsWith l "#"%char || negb (has_char "="%char l).

(** The test of the [filter] in the parser, and the parser on lines that
    are already split. *)
Definition kept_line (line : string) : bool :=
  nonempty (trim line) && negb (startsWith line "#"%char).

Definition parse_lines (ls : list string) : gmap string string :=
  fold_left parse_line (List.filter kept_line ls) ∅.

(* ===================================================================== *)
(** ** The bundle analysis script: attribution of sizes to packages *)
(* ===================================================================== *)

Module Analyzer.

(** A JavaScript number that is an integer, an infinity, or [NaN]. *)
Inductive number : Type :=
| Finite (n : Z)
| Infinite (negative : bool)
| NaN.

(** The Number nearest to an integer. *)
Definition Number (n : Z) : number :=
  match nearest_double (Z.abs n) with
  | Some x => Finite (if n <? 0 then - x else x)
  | None => Infinite (n <? 0)
  end.

(** [a + b]: the exact sum, rounded to the nearest Number. *)
Definition add (a b : number) : number :=
  match a, b with
  | Finite x, Finite y => Number (x + y)
  | NaN, _ | _, NaN => NaN
  | Infinite s, Finite _ | Finite _, Infinite s => Infinite s
  | Infinite s, Infinite s' => if Bool.eqb s s' then Infinite s else NaN
  end.

(** [!x] *)
Definition falsy (x : number) : bool :=
  match x with
  | Finite n => n =? 0
  | Infinite _ => false
  | NaN => true
  end.

(** [stats.inputs] as [Object.entries] lists it: the path of each input
    and its [bytes], an integer literal of stats.json. *)
Definition Inputs : Type := list (string * Z).

(** The package an input belongs to: [parts[1]] of the path for a file
    under node_modules, with [parts[2]] for a scoped package, and "Your
    App" for every other file. A path that starts with "node_modules/"
    always has a [parts[1]]; a missing [parts[2]] prints as
    "undefined". *)
Definition packageName (filePath : string) : string :=
  if String.prefix "node_modules/" filePath then
    let parts := split "/"%char filePath in
    let scope := default "" (parts !! 1%nat) in
    if startsWith scope "@"%char
    then scope +:+ "/" +:+ default "undefined" (parts !! 2%nat)
    else scope
  else "Your App".

(** The names that an empty object literal already answers to through
    [Object.prototype]; the loop below is modelled for package names
    outside this list. *)
Definition inherited_names : list string :=
  ["constructor"; "__proto__"; "hasOwnProperty"; "isPrototypeOf";
   "propertyIsEnumerable"; "toLocaleString"; "toString"; "valueOf";
   "__defineGetter__"; "__defineSetter__"; "__lookupGetter__";
   "__lookupSetter__"].

(** One turn of the loop: [totalSize.bytes += bytes], then
    [if (!packageSizes[name]) packageSizes[name] = 0] and
    [packageSizes[name] += bytes]. *)
Definition add_input (acc : gmap string number * number) (entry : string * Z)
  : gmap string number * number :=
  let '(packageSizes, totalSize) := acc in
  let bytes := Number entry.2 in
  let name := packageName entry.1 in
  let current :=
    match packageSizes !! name with
    | Some size => if falsy size then Finite 0 else size
    | None => Finite 0
    end in
  (<[name := add current bytes]> packageSizes, add totalSize bytes).

(** The loop over the inputs: [packageSizes] and [totalSize.bytes]. *)
Definition analyze (inputs : Inputs) : gmap string number * number :=
  fold_left add_input inputs (∅, Finite 0).

End Analyzer.

(** The bytes of the inputs that belong to the package, and of all
    inputs, as integers. *)
Definition bytes_of (name : string) (inputs : Analyzer.Inputs) : Z :=
  foldr (λ entry sum,
           if String.eqb (Analyzer.packageName entry.1) name
           then entry.2 + sum else sum) 0 inputs.

Definition total_bytes (inputs : Analyzer.Inputs) : Z :=
  foldr (λ entry sum, entry.2 + sum) 0 inputs.

(** The sum of the sizes in a table, as an integer. *)
Definition size_of (x : Analyzer.number) : Z :=
  match x with
  | Analyzer.Finite n => n
  | _ => 0
  end.

Definition table_sum (packageSizes : gmap string Analyzer.number) : Z :=
  map_fold (λ _ size sum, size_of size + sum) 0 packageSizes.

(** The loop with sizes added as integers, without rounding. The loop of
    the script agrees with it as long as the total stays within 2^53. *)
Definition add_exactly (acc : gmap string Z * Z) (entry : string * Z)
  : gmap string Z * Z :=
  let '(sizes, total) := acc in
  let name := Analyzer.packageName entry.1 in
  (<[name := default 0 (sizes !! name) + entry.2]> sizes, total + entry.2).

Definition sum_of (sizes : gmap string Z) : Z :=
  map_fold (λ _ size sum, size + sum) 0 sizes.

(** Some inputs of a build. *)
Definition sample_inputs : Analyzer.Inputs :=
  [("node_modules/@angular/core/fesm2022/core.mjs", 412000);
   ("src/main.ts", 310);
   ("node_modules/rxjs/dist/esm/internal/Observable.js", 5200);
   ("node_modules/@angular/core/fesm2022/primitives.mjs", 18000);
   ("src/app/app.ts", 1290);
   ("node_modules/rxjs/dist/esm/internal/Subject.js", 7400)].

(** Two inputs whose sizes add up to 2^53 + 1, which is not a Number. *)
Definition oversized_inputs : Analyzer.Inputs :=
  [("src/a.ts", 2 ^ 53); ("src/b.ts", 1)].

(* ===================================================================== *)
(** ** ConfigService: how a load runs *)
(* ===================================================================== *)

Section ConfigFacts.

Variable URL_parses : string → bool.

Lemma get_prop_field (doc : json) (F : string) :
  doc ≠ JNull → get_prop doc F = Return (field doc F).
Proof. intros Hdoc. destruct doc; try done. Qed.

Lemma check_required_find (doc : json) (fields : list string) (this : ConfigService) :
  doc ≠ JNull →
  check_required doc fields this =
    match List.find (missing doc) fields with
    | Some F => (Throw (MissingField F), this, [])
    | None => (Return tt, this, [])
    end.
Proof.
  intros Hdoc. induction fields as [|F rest IH]; [done|].
  cbn [check_required List.find].
  unfold mbind, M_bind, bind, lift. rewrite (get_prop_field _ _ Hdoc).
  fold (missing doc F). destruct (missing doc F); [done|].
  rewrite IH. by destruct (List.find _ rest).
Qed.

(** The test of one URL in [validateConfig]. *)
Lemma url_check_run (label : string) (url : value) (this : ConfigService) :
  (if negb (isValidUrl URL_parses url)
   then bind (lift (ToString url)) (λ text, throw (Error (label +:+ text)))
   else ret tt) this =
  if isValidUrl URL_parses url then (Return tt, this, [])
  else (Throw (invalid_url label url), this, []).
Proof.
  unfold isValidUrl, invalid_url, mbind, M_bind, bind, lift, throw, ret.
  destruct (ToString url) as [text|e]; [|done].
  by destruct (URL_parses text).
Qed.

Lemma validateConfig_run (doc : json) (this : ConfigService) :
  validateConfig URL_parses doc this =
    match first_failure URL_parses doc with
    | Some e => (Throw e, this, [])
    | None => (Return tt, this, [validation_passed])
    end.
Proof.
  assert (doc = JNull ∨ doc ≠ JNull) as [->|Hdoc]
    by (destruct doc; auto; right; discriminate).
  { done. }
  unfold validateConfig, first_failure.
  unfold mbind, M_bind, bind at 1.
  rewrite (check_required_find _ _ _ Hdoc).
  destruct (List.find (missing doc) requiredFields); [by destruct doc|].
  unfold bind at 1. unfold lift at 1. rewrite (get_prop_field _ _ Hdoc).
  unfold bind at 1. rewrite url_check_run.
  destruct (isValidUrl URL_parses (field doc "apiUrl")); [|by destruct doc].
  unfold bind at 1. unfold lift at 1. rewrite (get_prop_field _ _ Hdoc).
  unfold bind at 1. rewrite url_check_run.
  destruct (isValidUrl URL_parses (field doc "authUrl")); by destruct doc.
Qed.

(** A load whose fetch succeeds: the body is stored first, then judged,
    and the name is printed last. *)
Lemma loadConfig_run (this : ConfigService) (doc : json) :
  http this CONFIG_PATH = Return doc →
  loadConfig URL_parses this =
    match first_failure URL_parses doc with
    | Some e => (Throw LoadFailed, with_config doc this, [failure_log e])
    | None =>
        match ToString (field doc "name") with
        | Return name => (Return tt, with_config doc this, success_log name)
        | Throw e =>
            (Throw LoadFailed, with_config doc this,
             [validation_passed; failure_log e])
        end
    end.
Proof.
  intros Hget. unfold loadConfig, try_catch.
  unfold mbind, M_bind, bind at 1. unfold http_get. rewrite Hget.
  unfold bind at 1. unfold write_config.
  unfold bind at 1. unfold read_config at 1. cbn [config].
  unfold bind at 1. rewrite validateConfig_run.
  fold (with_config doc this).
  destruct (first_failure URL_parses doc) as [e|] eqn:Hfail; [done|].
  assert (doc ≠ JNull) as Hdoc by (intros ->; done).
  unfold bind, read_config, lift. cbn [config with_config].
  rewrite (get_prop_field _ _ Hdoc).
  by destruct (ToString (field doc "name")).
Qed.

(** A load that resolved. *)
Lemma loadConfig_resolved (this : ConfigService) (doc : json) :
  http this CONFIG_PATH = Return doc →
  result_of (loadConfig URL_parses this) = Return tt →
  first_failure URL_parses doc = None ∧
  ∃ name, ToString (field doc "name") = Return name ∧
          loadConfig URL_parses this
            = (Return tt, with_config doc this, success_log name).
Proof.
  intros Hget. rewrite (loadConfig_run this doc Hget).
  destruct (first_failure URL_parses doc); [discriminate|].
  destruct (ToString (field doc "name")) as [name|]; [|discriminate].
  intros _. split; [done|]. by exists name.
Qed.

(** A load whose fetch fails leaves the service as it was. *)
Lemma loadConfig_fetch_failure (this : ConfigService) (e : exn) :
  http this CONFIG_PATH = Throw e →
  loadConfig URL_parses this = (Throw LoadFailed, this, [failure_log e]).
Proof.
  intros Hget. unfold loadConfig, try_catch.
  unfold mbind, M_bind, bind at 1. unfold http_get. by rewrite Hget.
Qed.

End ConfigFacts.

(* ===================================================================== *)
(** ** ConfigService: the accessors after a load *)
(* ===================================================================== *)

Lemma getConfig_run (this : ConfigService) :
  getConfig this =
    if falsy (config this) then (Throw NotLoaded, this, [])
    else (Return (config this), this, []).
Proof.
  unfold getConfig, mbind, M_bind, bind, read_config.
  by destruct (falsy (config this)).
Qed.

(** Before any load every accessor refuses. *)
Lemma accessors_before_load (http : HttpClient) :
  let this := new_ConfigService http in
  result_of (getConfig this) = Throw NotLoaded ∧
  result_of (apiUrl this) = Throw NotLoaded ∧
  result_of (authUrl this) = Throw NotLoaded ∧
  result_of (isProduction this) = Throw NotLoaded ∧
  result_of (environmentName this) = Throw NotLoaded ∧
  result_of (features this) = Throw NotLoaded.
Proof. repeat split. Qed.

(** X5. A fresh service whose fetch fails rejects the load, and
    afterwards [getConfig] and every accessor still throw "Configuration
    not loaded". *)
Lemma accessors_after_failed_fetch (URL_parses : string → bool)
    (http : HttpClient) (e : exn) :
  http CONFIG_PATH = Throw e →
  let r := loadConfig URL_parses (new_ConfigService http) in
  result_of r = Throw LoadFailed ∧
  result_of (getConfig (this_of r)) = Throw NotLoaded ∧
  result_of (apiUrl (this_of r)) = Throw NotLoaded ∧
  result_of (authUrl (this_of r)) = Throw NotLoaded ∧
  result_of (isProduction (this_of r)) = Throw NotLoaded ∧
  result_of (environmentName (this_of r)) = Throw NotLoaded ∧
  result_of (features (this_of r)) = Throw NotLoaded.
Proof.
  intros Hget r. subst r.
  rewrite (loadConfig_fetch_failure URL_parses (new_ConfigService http) e Hget).
  repeat split.
Qed.

(** After a rejected validation the fetched body stays in [config]: when
    it is truthy, [getConfig] hands it out. *)
Lemma getConfig_after_rejected_validation (URL_parses : string → bool)
    (this : ConfigService) (doc : json) (e : exn) :
  http this CONFIG_PATH = Return doc →
  first_failure URL_parses doc = Some e →
  falsy doc = false →
  let r := loadConfig URL_parses this in
  result_of r = Throw LoadFailed ∧
  result_of (getConfig (this_of r)) = Return doc.
Proof.
  intros Hget Hfail Htruthy r. subst r.
  rewrite (loadConfig_run URL_parses this doc Hget), Hfail.
  split; [done|]. rewrite getConfig_run. cbn. by rewrite Htruthy.
Qed.

(** C1 (defect of the code). The server answers with a document that has
    only [name] and [production]. [loadConfig] rejects, the console names
    the missing [apiUrl], and yet [getConfig] returns the unvalidated
    document and [environmentName] reads "qa" from it, where the guard of
    [getConfig] was meant to throw "Configuration not loaded". *)
Theorem rejected_load_leaves_unvalidated_config (URL_parses : string → bool) :
  let r := loadConfig URL_parses (serving (Return partial_document)) in
  result_of r = Throw LoadFailed ∧
  console_of r = [failure_log (MissingField "apiUrl")] ∧
  result_of (getConfig (this_of r)) = Return partial_document ∧
  result_of (environmentName (this_of r)) = Return (Some (JStr "qa")).
Proof. repeat split. Qed.

(* ===================================================================== *)
(** ** ConfigService: required fields *)
(* ===================================================================== *)

Lemma find_head_of_filter {A} (f : A → bool) (l : list A) (x : A) (rest : list A) :
  List.filter f l = x :: rest → List.find f l = Some x.
Proof.
  induction l as [|y l IH]; [done|]. cbn.
  destruct (f y); [by intros [= -> _] | exact IH].
Qed.

Lemma find_none_of_complete (doc : json) :
  complete doc = true → List.find (missing doc) requiredFields = None.
Proof.
  unfold complete. generalize requiredFields as l.
  induction l as [|F l IH]; [done|]. cbn.
  destruct (missing doc F); [done|]. exact IH.
Qed.

Lemma complete_of_find_none (doc : json) :
  List.find (missing doc) requiredFields = None → complete doc = true.
Proof.
  unfold complete. generalize requiredFields as l.
  induction l as [|F l IH]; [done|]. cbn.
  destruct (missing doc F); [done|]. exact IH.
Qed.

Lemma complete_not_null (doc : json) : complete doc = true → doc ≠ JNull.
Proof. by intros H ->. Qed.

(** The first required field that is absent or [null] is the one the
    console names. *)
Lemma first_missing_field_is_logged (URL_parses : string → bool)
    (this : ConfigService) (doc : json) (F : string) :
  http this CONFIG_PATH = Return doc →
  doc ≠ JNull →
  List.find (missing doc) requiredFields = Some F →
  loadConfig URL_parses this =
    (Throw LoadFailed, with_config doc this, [failure_log (MissingField F)]).
Proof.
  intros Hget Hdoc Hfind.
  rewrite (loadConfig_run URL_parses this doc Hget).
  unfold first_failure. rewrite Hfind. by destruct doc.
Qed.

(** C3 (amended). The required fields are [name], [production], [apiUrl],
    [authUrl] and [features]. When exactly one of them, [F], is absent or
    [null] in the fetched document, [validateConfig] throws "Missing
    required configuration field: F"; [loadConfig] prints that error on the
    console and rejects with the fixed error "Failed to load application
    configuration". Of the required fields, the printed error mentions [F]
    and no other. *)
Theorem missing_field_is_logged_by_name (URL_parses : string → bool)
    (this : ConfigService) (doc : json) (F : string) :
  http this CONFIG_PATH = Return doc →
  missing_fields doc = [F] →
  let r := loadConfig URL_parses this in
  result_of (validateConfig URL_parses doc this) = Throw (MissingField F) ∧
  result_of r = Throw LoadFailed ∧
  console_of r = [failure_log (MissingField F)] ∧
  List.filter (names (MissingField F)) requiredFields = [F].
Proof.
  intros Hget Honly r. subst r.
  assert (doc ≠ JNull) as Hdoc by (intros ->; discriminate Honly).
  pose proof (find_head_of_filter _ _ _ _ Honly) as Hfind.
  rewrite (first_missing_field_is_logged URL_parses this doc F Hget Hdoc Hfind).
  rewrite validateConfig_run. unfold first_failure. rewrite Hfind.
  split; [by destruct doc|]. split; [done|]. split; [done|].
  assert (In F requiredFields) as HF.
  { apply (proj1 (filter_In (missing doc) F requiredFields)).
    fold (missing_fields doc). rewrite Honly. by left. }
  cbn in HF. clear -HF.
  destruct HF as [<-|[<-|[<-|[<-|[<-|[]]]]]]; reflexivity.
Qed.

(** At the document in which [apiUrl] is [null]. *)
Lemma missing_field_is_logged_by_name_witness :
  let r := loadConfig URL_scheme_stage (serving (Return null_apiUrl_document)) in
  result_of (validateConfig URL_scheme_stage null_apiUrl_document
               (serving (Return null_apiUrl_document)))
    = Throw (MissingField "apiUrl") ∧
  result_of r = Throw LoadFailed ∧
  console_of r = [failure_log (MissingField "apiUrl")] ∧
  List.filter (names (MissingField "apiUrl")) requiredFields = ["apiUrl"].
Proof.
  apply (missing_field_is_logged_by_name URL_scheme_stage
           (serving (Return null_apiUrl_document)) null_apiUrl_document "apiUrl").
  - reflexivity.
  - reflexivity.
Defined.

(** C3 (as stated, refuted). The document lacks [name]; the error with
    which [loadConfig] rejects does not mention [name]. And a document
    that has all of [name], [isProduction], [apiBaseUrl], [authBaseUrl]
    and [features] is rejected for want of [production]. *)
Lemma load_error_does_not_name_missing_field :
  missing_fields nameless_document = ["name"] ∧
  result_of (loadConfig URL_scheme_stage (serving (Return nameless_document)))
    = Throw LoadFailed ∧
  names LoadFailed "name" = false ∧
  List.filter (missing renamed_document)
    ["name"; "isProduction"; "apiBaseUrl"; "authBaseUrl"; "features"] = [] ∧
  console_of (loadConfig URL_scheme_stage (serving (Return renamed_document)))
    = [failure_log (MissingField "production")].
Proof. repeat split. Qed.

(* ===================================================================== *)
(** ** ConfigService: types and URLs *)
(* ===================================================================== *)

Lemma first_failure_none (URL_parses : string → bool) (doc : json) :
  first_failure URL_parses doc = None ↔
  complete doc = true ∧
  isValidUrl URL_parses (field doc "apiUrl") = true ∧
  isValidUrl URL_parses (field doc "authUrl") = true.
Proof.
  split.
  - intros Hnone.
    assert (doc ≠ JNull) as Hdoc by (intros ->; discriminate Hnone).
    assert (List.find (missing doc) requiredFields = None) as Hfind.
    { destruct doc; try done; cbn [first_failure] in Hnone;
        by destruct (List.find _ requiredFields). }
    split; [by apply complete_of_find_none|].
    unfold first_failure in Hnone. rewrite Hfind in Hnone.
    destruct (isValidUrl URL_parses (field doc "apiUrl"));
      destruct (isValidUrl URL_parses (field doc "authUrl"));
      by destruct doc.
  - intros (Hcomplete & Hapi & Hauth).
    pose proof (complete_not_null doc Hcomplete) as Hdoc.
    unfold first_failure.
    rewrite (find_none_of_complete doc Hcomplete), Hapi, Hauth.
    by destruct doc.
Qed.

(** C4 (amended). Validation checks no type and stores no converted
    value. A load whose fetch succeeds resolves exactly when every
    required field is present and not [null], [apiUrl] and [authUrl] have
    string forms that pass the URL parser, and [name] has a string form,
    which the load prints; no other property of the values plays a part
    (a value has no string form when it is, or is an array that holds, an
    object with a [toString] field). When the load resolves, [getConfig]
    returns the document as it was fetched, every value unchanged. *)
Theorem validation_ignores_types (URL_parses : string → bool)
    (this : ConfigService) (doc : json) :
  http this CONFIG_PATH = Return doc →
  let r := loadConfig URL_parses this in
  (result_of r = Return tt ↔
     complete doc = true ∧
     isValidUrl URL_parses (field doc "apiUrl") = true ∧
     isValidUrl URL_parses (field doc "authUrl") = true ∧
     printable (field doc "name") = true) ∧
  (result_of r = Return tt →
     result_of (getConfig (this_of r)) = Return doc).
Proof.
  intros Hget r. subst r.
  rewrite (loadConfig_run URL_parses this doc Hget).
  pose proof (first_failure_none URL_parses doc) as Hnone.
  unfold printable.
  destruct (first_failure URL_parses doc) as [e|] eqn:Hfail.
  - split; [split; [discriminate|] | discriminate].
    intros (Hcomplete & Hapi & Hauth & _).
    destruct Hnone as [_ Hnone]. by discriminate Hnone.
  - destruct Hnone as [(Hcomplete & Hapi & Hauth) _]; [done|].
    destruct (ToString (field doc "name")) as [name|e].
    + split; [done|]. intros _. rewrite getConfig_run. cbn.
      destruct doc; try discriminate Hcomplete. done.
    + split; [split; [discriminate|] | discriminate].
      by intros (_ & _ & _ & ?).
Qed.

(** At the document whose [production] is the string "false". *)
Lemma validation_ignores_types_witness :
  let r := loadConfig URL_scheme_stage (serving (Return mistyped_document)) in
  (result_of r = Return tt ↔
     complete mistyped_document = true ∧
     isValidUrl URL_scheme_stage (field mistyped_document "apiUrl") = true ∧
     isValidUrl URL_scheme_stage (field mistyped_document "authUrl") = true ∧
     printable (field mistyped_document "name") = true) ∧
  (result_of r = Return tt →
     result_of (getConfig (this_of r)) = Return mistyped_document).
Proof.
  apply (validation_ignores_types URL_scheme_stage
           (serving (Return mistyped_document)) mistyped_document).
  reflexivity.
Defined.

(** C4 (as stated, refuted). [production] holds the string "false" where a
    boolean is expected, [name] a number and [features] an array: the load
    resolves, and [isProduction] returns the string. *)
Lemma mistyped_document_loads :
  let r := loadConfig URL_scheme_stage (serving (Return mistyped_document)) in
  field mistyped_document "production" = Some (JStr "false") ∧
  result_of r = Return tt ∧
  result_of (isProduction (this_of r)) = Return (Some (JStr "false")).
Proof. repeat split. Qed.

(** The one value that a load turns into a string and prints is [name]. In
    a complete document with two good URLs whose [name] is the object
    [{"toString": 1}], validation passes, printing the name throws, and
    the load rejects. *)
Lemma unprintable_name_rejects :
  let r := loadConfig URL_scheme_stage
             (serving (Return unprintable_name_document)) in
  first_failure URL_scheme_stage unprintable_name_document = None ∧
  result_of r = Throw LoadFailed ∧
  console_of r = [validation_passed; failure_log not_primitive].
Proof. repeat split. Qed.

(** C8 (amended). The fields are called [apiUrl] and [authUrl]. With every
    required field present: when both pass the URL parser and [name] has a
    string form, the load resolves and [getConfig] returns the document;
    when [apiUrl] does not pass, [validateConfig] throws "Invalid API URL: "
    followed by the string form of the value; when [apiUrl] passes and
    [authUrl] does not, it throws "Invalid Auth URL: " followed by the
    string form of the value. A value without a string form does not
    pass, and what is thrown for it is the exception of the conversion.
    When both pass and [name] has no string form, printing it throws
    after the line "Configuration validation passed". In each failure
    [loadConfig] prints the thrown error on the console
    and rejects with the fixed error "Failed to load application
    configuration". *)
Theorem url_validation (URL_parses : string → bool)
    (this : ConfigService) (doc : json) :
  http this CONFIG_PATH = Return doc →
  complete doc = true →
  let api := field doc "apiUrl" in
  let auth := field doc "authUrl" in
  let r := loadConfig URL_parses this in
  (∀ label url text,
     ToString url = Return text → invalid_url label url = Error (label +:+ text)) ∧
  if isValidUrl URL_parses api then
    if isValidUrl URL_parses auth then
      match ToString (field doc "name") with
      | Return _ =>
          result_of r = Return tt ∧
          result_of (getConfig (this_of r)) = Return doc
      | Throw e =>
          result_of r = Throw LoadFailed ∧
          console_of r = [validation_passed; failure_log e]
      end
    else
      result_of r = Throw LoadFailed ∧
      console_of r = [failure_log (invalid_url "Invalid Auth URL: " auth)]
  else
    result_of r = Throw LoadFailed ∧
    console_of r = [failure_log (invalid_url "Invalid API URL: " api)].
Proof.
  intros Hget Hcomplete api auth r. subst api auth r.
  split.
  { intros label url text Htext. unfold invalid_url. by rewrite Htext. }
  rewrite (loadConfig_run URL_parses this doc Hget).
  pose proof (complete_not_null doc Hcomplete) as Hdoc.
  unfold first_failure.
  rewrite (find_none_of_complete doc Hcomplete).
  destruct (isValidUrl URL_parses (field doc "apiUrl"));
    [destruct (isValidUrl URL_parses (field doc "authUrl"))|].
  - cbn [negb].
    destruct (ToString (field doc "name")) as [name|e].
    + split; [by destruct doc|].
      replace (this_of _) with (with_config doc this) by (by destruct doc).
      rewrite getConfig_run.
      destruct doc; try discriminate Hcomplete; done.
    + by destruct doc.
  - by destruct doc.
  - by destruct doc.
Qed.

(** At the document whose [authUrl] is "not a url". *)
Lemma url_validation_witness :
  let r := loadConfig URL_scheme_stage (serving (Return bad_authUrl_document)) in
  result_of r = Throw LoadFailed ∧
  console_of r = [failure_log (Error "Invalid Auth URL: not a url")].
Proof.
  apply (url_validation URL_scheme_stage
           (serving (Return bad_authUrl_document)) bad_authUrl_document).
  - reflexivity.
  - reflexivity.
Defined.

(** [apiUrl] is the object [{"toString": 1}]: it has no string form, does
    not pass, and the console shows the exception of the conversion. *)
Lemma unprintable_url_is_rejected :
  let r := loadConfig URL_scheme_stage
             (serving (Return unprintable_apiUrl_document)) in
  isValidUrl URL_scheme_stage (field unprintable_apiUrl_document "apiUrl") = false ∧
  result_of r = Throw LoadFailed ∧
  console_of r = [failure_log not_primitive].
Proof. repeat split. Qed.

(** The two documents of property P2, under the field names of the code. *)
Lemma url_validation_examples :
  result_of (loadConfig URL_scheme_stage (serving (Return qa_document)))
    = Return tt ∧
  console_of (loadConfig URL_scheme_stage (serving (Return bad_apiUrl_document)))
    = [failure_log (Error "Invalid API URL: not a url")].
Proof. repeat split. Qed.

(** C8 (as stated, refuted). [apiUrl] is "not a url"; the error with which
    [loadConfig] rejects mentions neither the value nor the field. And a
    document whose [apiBaseUrl] and [authBaseUrl] are well-formed URLs,
    with [name], [isProduction] and [features] in order, does not load. *)
Lemma load_error_does_not_name_url :
  field bad_apiUrl_document "apiUrl" = Some (JStr "not a url") ∧
  result_of (loadConfig URL_scheme_stage (serving (Return bad_apiUrl_document)))
    = Throw LoadFailed ∧
  names LoadFailed "not a url" = false ∧
  names LoadFailed "apiUrl" = false ∧
  names LoadFailed "apiBaseUrl" = false ∧
  names LoadFailed "API URL" = false ∧
  field renamed_document "apiBaseUrl" = Some (JStr "https://api-qa.example.com") ∧
  result_of (loadConfig URL_scheme_stage (serving (Return renamed_document)))
    = Throw LoadFailed.
Proof. repeat split. Qed.

(* ===================================================================== *)
(** ** The scripts: traces only grow *)
(* ===================================================================== *)

Create HintDb grows.

Ltac script_unfold :=
  cbv beta iota zeta delta
    [mbind Script_bind sbind sret emit exit raise catch when initial
     exists_file read_file spawn copy execSync copyFileSync
     sh_command sh_cp].

Lemma grows_sret {A} (a : A) : grows (sret a).
Proof. intros st. exists []. cbn. by rewrite app_nil_r. Qed.

Lemma grows_emit (ev : Event) : grows (emit ev).
Proof. intros st. by exists [ev]. Qed.

Lemma grows_exit {A} (c : Z) : grows (@exit A c).
Proof. intros st. exists []. cbn. by rewrite app_nil_r. Qed.

Lemma grows_raise {A} (e : exn) : grows (@raise A e).
Proof. intros st. exists []. cbn. by rewrite app_nil_r. Qed.

Lemma grows_bind {A B} (m : Script A) (f : A → Script B) :
  grows m → (∀ a, grows (f a)) → grows (m ≫= f).
Proof.
  intros Hm Hf st. unfold mbind, Script_bind, sbind.
  destruct (Hm st) as [t1 Ht1].
  destruct (m st) as [[a|e|c] st1]; cbn in *.
  - destruct (Hf a st1) as [t2 Ht2]. exists (t1 ++ t2).
    by rewrite Ht2, Ht1, app_assoc.
  - by exists t1.
  - by exists t1.
Qed.

Lemma grows_catch {A} (m : Script A) (h : exn → Script A) :
  grows m → (∀ e, grows (h e)) → grows (catch m h).
Proof.
  intros Hm Hh st. unfold catch.
  destruct (Hm st) as [t1 Ht1].
  destruct (m st) as [[a|e|c] st1]; cbn in *.
  - by exists t1.
  - destruct (Hh e st1) as [t2 Ht2]. exists (t1 ++ t2).
    by rewrite Ht2, Ht1, app_assoc.
  - by exists t1.
Qed.

Lemma grows_when (b : bool) (m : Script unit) : grows m → grows (when b m).
Proof. intros Hm. destruct b; [done | apply grows_sret]. Qed.

Lemma grows_exists_file (p : string) : grows (exists_file p).
Proof. intros st. exists []. cbn. by rewrite app_nil_r. Qed.

Lemma grows_read_file (p : string) : grows (read_file p).
Proof. intros st. exists []. cbn. by rewrite app_nil_r. Qed.

Lemma grows_spawn (w : World) (cmd : string) : grows (spawn w cmd).
Proof.
  intros st. unfold spawn. destruct (run w cmd (disk st)). by exists [Exec cmd].
Qed.

Lemma grows_copy (w : World) (src dst : string) : grows (copy w src dst).
Proof.
  intros st. unfold copy.
  destruct (disk st !! src); [destruct (copy_failure w src dst (disk st))|];
    by exists [CopyFile src dst].
Qed.

Lemma grows_if {A} (b : bool) (m1 m2 : Script A) :
  grows m1 → grows m2 → grows (if b then m1 else m2).
Proof. by destruct b. Qed.

#[local] Hint Resolve grows_sret grows_emit grows_exit grows_raise
  grows_exists_file grows_read_file grows_spawn grows_copy : grows.
#[local] Hint Extern 2 (grows (_ ≫= _)) =>
  apply grows_bind; [|intros ?] : grows.
#[local] Hint Extern 2 (grows (catch _ _)) =>
  apply grows_catch; [|intros ?] : grows.
#[local] Hint Extern 2 (grows (when _ _)) => apply grows_when : grows.
#[local] Hint Extern 2 (grows (if _ then _ else _)) => apply grows_if : grows.
#[local] Hint Extern 3 (grows (match ?x with _ => _ end)) => destruct x : grows.

Lemma grows_execSync (w : World) (cmd : string) : grows (execSync w cmd).
Proof. unfold execSync. auto with grows. Qed.

Lemma grows_copyFileSync (w : World) (src dst : string) :
  grows (copyFileSync w src dst).
Proof. unfold copyFileSync. auto with grows. Qed.

Lemma grows_sh_command (w : World) (cmd : string) : grows (sh_command w cmd).
Proof. unfold sh_command. auto with grows. Qed.

Lemma grows_sh_cp (w : World) (src dst : string) : grows (sh_cp w src dst).
Proof. unfold sh_cp. auto with grows. Qed.

#[local] Hint Resolve grows_execSync grows_copyFileSync grows_sh_command
  grows_sh_cp : grows.

Lemma grows_swap_step (w : World) (e : string) : grows (swap_step w e).
Proof. unfold swap_step. auto 10 with grows. Qed.

Lemma grows_publish_step (w : World) (bucket : string) :
  grows (publish_step w bucket).
Proof. unfold publish_step. auto 10 with grows. Qed.

Lemma grows_invalidate_step (w : World) (id : option string) :
  grows (invalidate_step w id).
Proof. unfold invalidate_step. auto 10 with grows. Qed.

Lemma grows_summary (e bucket : string) (domain : option string) :
  grows (summary e bucket domain).
Proof. unfold summary. auto 12 with grows. Qed.

Lemma grows_sh_swap_step (w : World) (e : string) : grows (sh_swap_step w e).
Proof. unfold sh_swap_step. auto 10 with grows. Qed.

Lemma grows_sh_publish_step (w : World) (bucket : string) :
  grows (sh_publish_step w bucket).
Proof. unfold sh_publish_step. auto 10 with grows. Qed.

Lemma grows_sh_invalidate_step (w : World) (id : string) :
  grows (sh_invalidate_step w id).
Proof. unfold sh_invalidate_step. auto 10 with grows. Qed.

Lemma grows_sh_summary (w : World) (e bucket domain : string) :
  grows (sh_summary w e bucket domain).
Proof. unfold sh_summary. auto 12 with grows. Qed.

Lemma grows_steps_after_build (w : World) (e bucket : string)
    (vars : gmap string string) :
  grows (steps_after_build w e bucket vars).
Proof.
  unfold steps_after_build.
  pose proof grows_swap_step. pose proof grows_publish_step.
  pose proof grows_invalidate_step. pose proof grows_summary.
  auto 10 with grows.
Qed.

Lemma grows_deployment_failed (error : exn) : grows (deployment_failed error).
Proof. unfold deployment_failed. auto 10 with grows. Qed.

Lemma grows_sh_steps_after_build (w : World) (e bucket : string)
    (vars : gmap string string) :
  grows (sh_steps_after_build w e bucket vars).
Proof.
  unfold sh_steps_after_build.
  pose proof grows_sh_swap_step. pose proof grows_sh_publish_step.
  pose proof grows_sh_invalidate_step. pose proof grows_sh_summary.
  auto 10 with grows.
Qed.

(* ===================================================================== *)
(** ** The scripts: from the command line to the build *)
(* ===================================================================== *)

Lemma array_includes_elem_of (xs : list string) (x : string) :
  array_includes xs x = true ↔ x ∈ xs.
Proof.
  unfold array_includes. rewrite existsb_exists. split.
  - intros (y & Hy & Heq). apply String.eqb_eq in Heq as ->.
    by apply list_elem_of_In.
  - intros Hx. exists x. split; [by apply list_elem_of_In | apply String.eqb_refl].
Qed.

Lemma accepted_nonempty (e : string) :
  array_includes validEnvironments e = true → nonempty e = true.
Proof. by destruct e. Qed.

(** deploy.mjs with an accepted argument and a usable .env.aws: the three
    lines of the header, then the [try] block. *)
Lemma main_mjs_ready (w : World) (e uid : string) (vars : gmap string string) :
  argument w = Some e →
  array_includes validEnvironments e = true →
  mjs_operator_config w = Some (vars, uid) →
  main_mjs w (initial w) =
    deployment_steps w e uid vars
      {| disk := files w;
         trace := [Out ("Environment:  " +:+ e);
                   Out ("Bucket:       " +:+ bucketName e uid);
                   Out ("Config:       " +:+ configFile e)] |}.
Proof.
  intros Harg Hvalid Hconfig. unfold main_mjs, initial.
  rewrite Harg. change (default "" (Some e)) with e.
  rewrite (accepted_nonempty e Hvalid), Hvalid.
  unfold mjs_operator_config in Hconfig.
  script_unfold. cbn [negb disk trace].
  destruct (files w !! path_join [dirname w; ".env.aws"]) as [content|];
    [|discriminate].
  destruct (truthy (parse_env content !! "UNIQUE_ID")) as [uid'|];
    [|discriminate].
  injection Hconfig as <- <-. reflexivity.
Qed.

(** Step 1 of deploy.mjs, from any state. *)
Lemma deployment_steps_build (w : World) (e uid : string)
    (vars : gmap string string) (st : State) :
  deployment_steps w e uid vars st =
    let '(status, d) := run w build_command (disk st) in
    let t := (trace st ++ [Out "[1/4] Building Angular application..."])
               ++ [Exec build_command] in
    if status =? 0 then
      catch (steps_after_build w e (bucketName e uid) vars) deployment_failed
        {| disk := d; trace := t ++ [Out "Build completed successfully"] |}
    else
      (Exit 1,
       {| disk := d;
          trace := (t ++ [Err "Deployment failed!"])
                     ++ [Err ("Command failed: " +:+ build_command)] |}).
Proof.
  unfold deployment_steps, build_step, deployment_failed.
  script_unfold. cbn [disk trace].
  destruct (run w build_command (disk st)) as [status d].
  by destruct (status =? 0).
Qed.

Lemma events_finish (w : World) (main : Script unit) :
  events (finish w main) = trace (main (initial w)).2.
Proof. unfold finish, initial. by destruct (main _) as [[?|?|?] ?]. Qed.

Lemma files_after_finish (w : World) (main : Script unit) :
  files_after (finish w main) = disk (main (initial w)).2.
Proof. unfold finish, initial. by destruct (main _) as [[?|?|?] ?]. Qed.

Lemma commands_app (t1 t2 : list Event) :
  commands (t1 ++ t2) = commands t1 ++ commands t2.
Proof. apply omap_app. Qed.

Lemma effects_app (t1 t2 : list Event) :
  effects (t1 ++ t2) = effects t1 ++ effects t2.
Proof. apply List.filter_app. Qed.

(** deploy.mjs turns down every argument outside [validEnvironments],
    before it looks at anything else. *)
Lemma mjs_refuses (w : World) :
  array_includes validEnvironments (requested w) = false →
  deploy_mjs w = mjs_refusal w (requested w).
Proof.
  intros Hout. unfold deploy_mjs, finish, main_mjs, mjs_refusal.
  fold (requested w). rewrite Hout.
  by destruct (requested w).
Qed.

(** deploy.mjs without a usable .env.aws stops before step 1. *)
Lemma mjs_stops_without_operator_config (w : World) :
  array_includes validEnvironments (requested w) = true →
  mjs_operator_config w = None →
  deploy_mjs w =
    if bool_decide (is_Some (files w !! path_join [dirname w; ".env.aws"]))
    then mjs_no_unique_id w else mjs_no_env_file w.
Proof.
  intros Hvalid Hconfig. unfold deploy_mjs, finish, main_mjs.
  fold (requested w). rewrite (accepted_nonempty _ Hvalid), Hvalid.
  unfold mjs_operator_config in Hconfig.
  script_unfold. cbn [negb disk trace].
  destruct (files w !! path_join [dirname w; ".env.aws"]) as [content|].
  - destruct (truthy (parse_env content !! "UNIQUE_ID")); [discriminate|].
    rewrite bool_decide_eq_true_2 by eauto. reflexivity.
  - rewrite bool_decide_eq_false_2 by (intros [? ?]; discriminate). reflexivity.
Qed.

(** The state deploy.mjs is in when step 1 is over, and how it goes on. *)
Lemma mjs_through_build (w : World) (e uid : string) (vars : gmap string string) :
  argument w = Some e →
  array_includes validEnvironments e = true →
  mjs_operator_config w = Some (vars, uid) →
  let header := mjs_header e uid in
  main_mjs w (initial w) =
    if build_status w =? 0 then
      catch (steps_after_build w e (bucketName e uid) vars) deployment_failed
        {| disk := artifact w;
           trace := header ++ [Out "Build completed successfully"] |}
    else
      (Exit 1,
       {| disk := artifact w;
          trace := header ++ [Err "Deployment failed!";
                              Err ("Command failed: " +:+ build_command)] |}).
Proof.
  intros Harg Hvalid Hconfig header. subst header.
  rewrite (main_mjs_ready w e uid vars Harg Hvalid Hconfig).
  rewrite deployment_steps_build. cbn [disk trace app].
  unfold build_status, artifact.
  by destruct (run w build_command (files w)) as [status d].
Qed.

Lemma grows_after_build (w : World) (e bucket : string)
    (vars : gmap string string) :
  grows (catch (steps_after_build w e bucket vars) deployment_failed).
Proof.
  apply grows_catch;
    [apply grows_steps_after_build | apply grows_deployment_failed].
Qed.

(** The first command deploy.mjs runs, if it runs any, is the build. *)
Lemma mjs_first_command (w : World) :
  first_command (deploy_mjs w) =
    if array_includes validEnvironments (requested w)
       && bool_decide (is_Some (mjs_operator_config w))
    then Some build_command else None.
Proof.
  destruct (array_includes validEnvironments (requested w)) eqn:Hvalid.
  - destruct (mjs_operator_config w) as [[vars uid]|] eqn:Hconfig.
    + rewrite bool_decide_eq_true_2 by eauto. cbn [andb].
      assert (argument w = Some (requested w)) as Harg.
      { pose proof (accepted_nonempty _ Hvalid) as Hne. unfold requested in *.
        by destruct (argument w). }
      unfold first_command, deploy_mjs. rewrite events_finish.
      rewrite (mjs_through_build w _ uid vars Harg Hvalid Hconfig).
      destruct (build_status w =? 0); [|reflexivity].
      match goal with |- context [catch ?m ?h ?st] =>
        destruct (grows_after_build w (requested w)
                    (bucketName (requested w) uid) vars st) as [t Ht]
      end.
      rewrite Ht. cbn [trace]. rewrite commands_app. reflexivity.
    + rewrite bool_decide_eq_false_2 by (intros [? ?]; discriminate).
      rewrite (mjs_stops_without_operator_config w Hvalid Hconfig).
      by destruct (bool_decide _).
  - rewrite (mjs_refuses w Hvalid). unfold mjs_refusal, first_command.
    cbn [andb events]. by destruct (nonempty (requested w)).
Qed.

(** deploy.sh without .env.aws stops at once. *)
Lemma sh_stops_without_env_file (w : World) :
  files w !! ".env.aws" = None → deploy_sh w = sh_no_env_file w.
Proof.
  intros Habsent. unfold deploy_sh, finish, main_sh.
  script_unfold. cbn [disk trace]. rewrite Habsent.
  rewrite bool_decide_eq_false_2 by (intros [? ?]; discriminate).
  reflexivity.
Qed.

(** X16. Under [set -e], a failure while sourcing .env.aws ends deploy.sh
    with the status of that failure: nothing is printed, no command is
    run and no file is changed. *)
Lemma sh_stops_when_sourcing_fails (w : World) (content : string)
    (status : Z) (vars : gmap string string) :
  files w !! ".env.aws" = Some content →
  source w content {[ "ENVIRONMENT" := default "" (argument w) ]} = (status, vars) →
  status ≠ 0 →
  deploy_sh w =
    {| exit_code := status; events := [Source ".env.aws"]; files_after := files w |}.
Proof.
  intros Hfile Hsource Hstatus. unfold deploy_sh, finish, main_sh.
  script_unfold. unfold sh_source. cbn [disk trace]. rewrite Hfile.
  rewrite bool_decide_eq_true_2 by eauto. cbn [negb app disk trace].
  rewrite Hfile, Hsource. apply Z.eqb_neq in Hstatus. by rewrite Hstatus.
Qed.

(** deploy.sh, once .env.aws is sourced: the test of [$ENVIRONMENT]. *)
Lemma sh_refuses (w : World) (vars : gmap string string) :
  sh_variables w = Some vars →
  array_includes case_patterns (expand vars "ENVIRONMENT") = false →
  deploy_sh w = sh_refusal w (expand vars "ENVIRONMENT").
Proof.
  intros Hvars Hout. unfold deploy_sh, finish, main_sh, sh_refusal.
  unfold sh_variables in Hvars.
  script_unfold. unfold sh_source. cbn [disk trace].
  destruct (files w !! ".env.aws") as [content|] eqn:Hfile; [|discriminate].
  rewrite bool_decide_eq_true_2 by eauto. cbn [negb app disk trace].
  rewrite Hfile.
  destruct (source w content _) as [status vars'].
  destruct (status =? 0); [|discriminate]. injection Hvars as ->.
  cbn [disk trace app].
  rewrite Hout. by destruct (expand vars "ENVIRONMENT").
Qed.

(** The state deploy.sh is in when step 1 is over, and how it goes on.
    Under [set -e] a failed build ends the script with the status of
    [npm]; the message of the [if] that follows is never printed. *)
Lemma sh_through_build (w : World) (vars : gmap string string) :
  sh_variables w = Some vars →
  array_includes case_patterns (expand vars "ENVIRONMENT") = true →
  let E := expand vars "ENVIRONMENT" in
  let header := sh_header E (expand vars "UNIQUE_ID") in
  main_sh w (initial w) =
    if build_status w =? 0 then
      sh_steps_after_build w E (bucketName E (expand vars "UNIQUE_ID")) vars
        {| disk := artifact w;
           trace := header ++ [Out "Build completed successfully"] |}
    else
      (Exit (build_status w), {| disk := artifact w; trace := header |}).
Proof.
  intros Hvars Hvalid E header. subst E header.
  unfold main_sh, sh_build_step, initial.
  unfold sh_variables in Hvars.
  script_unfold. unfold sh_source. cbn [disk trace].
  destruct (files w !! ".env.aws") as [content|] eqn:Hfile; [|discriminate].
  rewrite bool_decide_eq_true_2 by eauto. cbn [negb app disk trace].
  rewrite Hfile.
  destruct (source w content _) as [status vars'].
  destruct (status =? 0); [|discriminate]. injection Hvars as ->.
  cbn [disk trace app].
  rewrite Hvalid.
  assert (nonempty (expand vars "ENVIRONMENT") = true) as ->
    by (by destruct (expand vars "ENVIRONMENT")).
  cbn [negb disk trace app]. unfold build_status, artifact, sh_header.
  destruct (run w build_command (files w)) as [bs d]. cbn [fst snd].
  destruct (bs =? 0) eqn:Hbs; [|reflexivity].
  rewrite Hbs. reflexivity.
Qed.

(** The first command deploy.sh runs, if it runs any, is the build. *)
Lemma sh_first_command (w : World) :
  first_command (deploy_sh w) =
    match sh_variables w with
    | Some vars =>
        if array_includes case_patterns (expand vars "ENVIRONMENT")
        then Some build_command else None
    | None => None
    end.
Proof.
  destruct (sh_variables w) as [vars|] eqn:Hvars.
  - destruct (array_includes case_patterns (expand vars "ENVIRONMENT")) eqn:Hvalid.
    + unfold first_command, deploy_sh. rewrite events_finish.
      rewrite (sh_through_build w vars Hvars Hvalid).
      destruct (build_status w =? 0); [|reflexivity].
      match goal with |- context [sh_steps_after_build ?w ?e ?b ?v ?st] =>
        destruct (grows_sh_steps_after_build w e b v st) as [t Ht]
      end.
      rewrite Ht. cbn [trace]. rewrite commands_app. reflexivity.
    + rewrite (sh_refuses w vars Hvars Hvalid). unfold sh_refusal, first_command.
      cbn [events]. by destruct (nonempty _).
  - unfold first_command, deploy_sh. rewrite events_finish.
    unfold main_sh, initial, sh_variables in *.
    script_unfold. unfold sh_source. cbn [disk trace].
    destruct (files w !! ".env.aws") as [content|] eqn:Hfile.
    + rewrite bool_decide_eq_true_2 by eauto. cbn [negb app disk trace].
      rewrite Hfile.
      destruct (source w content _) as [status vars'].
      destruct (status =? 0); [discriminate|]. reflexivity.
    + rewrite bool_decide_eq_false_2 by (intros [? ?]; discriminate).
      reflexivity.
Qed.

(* ===================================================================== *)
(** ** Substrings *)
(* ===================================================================== *)

Lemma prefix_app (n s q : string) :
  String.prefix n s = true → String.prefix n (s +:+ q) = true.
Proof.
  revert s. induction n as [|c n IH]; intros s.
  { intros _. by destruct (s +:+ q). }
  destruct s as [|c' s]; [discriminate|]. simpl.
  destruct (Ascii.ascii_dec c c'); [apply IH | discriminate].
Qed.

Lemma prefix_refl (s : string) : String.prefix s s = true.
Proof.
  induction s as [|c s IH]; [done|]. cbn.
  by destruct (Ascii.ascii_dec c c).
Qed.

Lemma includes_refl (s : string) : includes s s = true.
Proof.
  destruct s as [|c s]; [done|].
  change (includes (String c s) (String c s))
    with (String.prefix (String c s) (String c s) || includes (String c s) s).
  by rewrite prefix_refl.
Qed.

Lemma includes_app_l (n s q : string) :
  includes n s = true → includes n (s +:+ q) = true.
Proof.
  induction s as [|c s IH].
  - intros Hn. destruct n; [|discriminate]. by destruct q.
  - change (includes n (String c s))
      with (String.prefix n (String c s) || includes n s).
    change (includes n (String c s +:+ q))
      with (String.prefix n (String c s +:+ q) || includes n (s +:+ q)).
    intros [Hp|Hrest]%orb_true_iff; apply orb_true_iff.
    + left. by apply prefix_app.
    + right. by apply IH.
Qed.

Lemma includes_app_r (n p s : string) :
  includes n s = true → includes n (p +:+ s) = true.
Proof.
  intros Hn. induction p as [|c p IH]; [done|].
  change (includes n (String c p +:+ s))
    with (String.prefix n (String c (p +:+ s)) || includes n (p +:+ s)).
  apply orb_true_iff. by right.
Qed.

(** The name of the configuration document carries the environment. *)
Lemma configFile_includes_environment (e : string) :
  array_includes validEnvironments e = true →
  includes e (configFile e) = true.
Proof.
  intros He. apply array_includes_elem_of in He.
  unfold validEnvironments in He.
  repeat (apply elem_of_cons in He as [->|He]); try reflexivity.
  by apply elem_of_nil in He.
Qed.

(* ===================================================================== *)
(** ** The environment argument *)
(* ===================================================================== *)

Lemma has_char_app (c : ascii) (a b : string) :
  has_char c (a +:+ b) = has_char c a || has_char c b.
Proof.
  induction a as [|x a IH]; [done|].
  change (String x a +:+ b) with (String x (a +:+ b)).
  cbn [has_char]. by rewrite IH, orb_assoc.
Qed.

(** [echo -e] on a text without backslash prints it as it is. *)
Lemma echo_e_after_plain (w : World) (before text : string) :
  has_char backslash text = false → echo_e_after w before text = text.
Proof.
  revert before. induction text as [|c rest IH]; intros before; [done|].
  cbn [has_char echo_e_after]. intros [Hc Hrest]%orb_false_iff.
  by rewrite Hc, IH.
Qed.

Lemma echo_e_plain (w : World) (text : string) :
  has_char backslash text = false → echo_e w text = text.
Proof. apply echo_e_after_plain. Qed.

(** C2 (amended). The accepted identifiers are dev, qa, staging and prod.
    deploy.mjs ends with status 1 on every other argument, having printed
    "Invalid environment: '<argument>'" (or "No environment specified"
    for a missing or empty one), run no command and copied no file; on an
    accepted one, with a usable .env.aws, the first command it runs is
    the build. deploy.sh makes the same test on [$ENVIRONMENT] once it has
    found and sourced .env.aws: on a value that is not accepted it ends
    with status 1 without a command or a copy, after "Error: Invalid
    environment '<value>'", which it prints with [echo -e], so that a
    value without backslash appears as it is and escape sequences in any
    other are read by the shell; on an accepted value the first command
    is the build. *)
Theorem environment_gate (w : World) :
  validEnvironments = ["dev"; "qa"; "staging"; "prod"] ∧
  case_patterns = ["dev"; "qa"; "staging"; "prod"] ∧
  (∀ e, effects (events (mjs_refusal w e)) = [] ∧
        effects (events (sh_refusal w e)) = []) ∧
  (array_includes validEnvironments (requested w) = false →
     deploy_mjs w = mjs_refusal w (requested w)) ∧
  (array_includes validEnvironments (requested w) = true →
     is_Some (mjs_operator_config w) →
     first_command (deploy_mjs w) = Some build_command) ∧
  (∀ vars, sh_variables w = Some vars →
     (array_includes case_patterns (expand vars "ENVIRONMENT") = false →
        deploy_sh w = sh_refusal w (expand vars "ENVIRONMENT")) ∧
     (array_includes case_patterns (expand vars "ENVIRONMENT") = true →
        first_command (deploy_sh w) = Some build_command)) ∧
  (∀ E, has_char backslash E = false →
        echo_e w ("Error: Invalid environment '" +:+ E +:+ "'")
        = "Error: Invalid environment '" +:+ E +:+ "'").
Proof.
  split; [done|]. split; [done|]. split.
  { intros e. unfold mjs_refusal, sh_refusal. by destruct (nonempty e). }
  split; [apply mjs_refuses|]. split; [|split].
  - intros Hvalid Hconfig. rewrite mjs_first_command, Hvalid.
    by rewrite bool_decide_eq_true_2.
  - intros vars Hvars. split.
    + by apply sh_refuses.
    + intros Hvalid. by rewrite sh_first_command, Hvars, Hvalid.
  - intros E HE. apply echo_e_plain.
    by rewrite !has_char_app, HE.
Qed.

(** At the argument "staging-typo", and at "staging". *)
Lemma environment_gate_witness :
  deploy_mjs (world (Some "staging-typo") operator_file commands_succeed)
    = mjs_refusal (world (Some "staging-typo") operator_file commands_succeed)
        "staging-typo" ∧
  first_command (deploy_mjs (world (Some "staging") operator_file commands_succeed))
    = Some build_command.
Proof.
  split.
  - apply (environment_gate
             (world (Some "staging-typo") operator_file commands_succeed)).
    reflexivity.
  - apply (environment_gate
             (world (Some "staging") operator_file commands_succeed)).
    + reflexivity.
    + vm_compute. eexists. reflexivity.
Defined.

(** C2 (as stated, refuted). Both scripts turn "development" down, and
    both take "dev". *)
Lemma development_is_refused :
  let long := world (Some "development") operator_file commands_succeed in
  let short := world (Some "dev") operator_file commands_succeed in
  exit_code (deploy_mjs long) = 1 ∧
  events (deploy_mjs long) =
    [Err "Invalid environment: 'development'";
     Out "Must be one of: dev, qa, staging, prod"] ∧
  exit_code (deploy_sh long) = 1 ∧
  events (deploy_sh long) =
    [Source ".env.aws";
     Out "Error: Invalid environment 'development'";
     Out "Must be one of: dev, qa, staging, prod"] ∧
  exit_code (deploy_mjs short) = 0 ∧
  first_command (deploy_mjs short) = Some build_command ∧
  exit_code (deploy_sh short) = 0 ∧
  first_command (deploy_sh short) = Some build_command.
Proof. vm_compute. repeat split. Qed.

(* ===================================================================== *)
(** ** The parser of .env.aws *)
(* ===================================================================== *)

Lemma includes_infix (n a s : string) :
  includes n a = true → (∃ p q, s = p +:+ a +:+ q) → includes n s = true.
Proof.
  intros Hn (p & q & ->). by apply includes_app_r, includes_app_l.
Qed.

Lemma split_head_prefix (sep : ascii) (s p : string) (ps : list string) :
  split sep s = p :: ps → ∃ q, s = p +:+ q.
Proof.
  revert p ps. induction s as [|c r IH]; intros p ps; cbn [split].
  - intros [= <- _]. by exists "".
  - destruct (Ascii.eqb c sep).
    + intros [= <- _]. by exists (String c r).
    + destruct (split sep r) as [|p' ps'] eqn:Hsplit.
      * intros [= <- _]. by exists r.
      * intros [= <- _]. destruct (IH p' ps' eq_refl) as [q ->]. by exists q.
Qed.

Lemma split_elem_infix (sep : ascii) (s x : string) :
  x ∈ split sep s → ∃ p q, s = p +:+ x +:+ q.
Proof.
  revert x. induction s as [|c r IH]; intros x; cbn [split].
  - intros ->%list_elem_of_singleton. by exists "", "".
  - destruct (Ascii.eqb c sep).
    + intros [->|Hx]%elem_of_cons.
      * by exists "", (String c r).
      * destruct (IH x Hx) as (p & q & ->). by exists (String c p), q.
    + destruct (split sep r) as [|p' ps'] eqn:Hsplit.
      * intros ->%list_elem_of_singleton. by exists "", r.
      * intros [->|Hx]%elem_of_cons.
        -- destruct (split_head_prefix sep r p' ps' Hsplit) as [q ->].
           by exists "", q.
        -- destruct (IH x) as (p & q & ->); [by apply elem_of_cons; right|].
           by exists (String c p), q.
Qed.

Lemma strip_suffix_bounded (backwards : bool) (n : nat) (s : string) :
  (String.length s ≤ n)%nat → ∃ p, s = p +:+ strip backwards s.
Proof.
  revert s. induction n as [|n IH]; intros s Hn.
  { destruct s; [by exists "" | cbn in Hn; lia]. }
  destruct s as [|c1 rest1]; [by exists ""|]. cbn [strip]. cbn in Hn.
  destruct (is_space c1).
  { destruct (IH rest1) as [p Hp]; [lia|]. exists (String c1 p).
    change (String c1 p +:+ strip backwards rest1)
      with (String c1 (p +:+ strip backwards rest1)).
    by f_equal. }
  destruct rest1 as [|c2 rest2]; [by exists ""|]. cbn in Hn.
  destruct (if backwards then is_space2 c2 c1 else is_space2 c1 c2).
  { destruct (IH rest2) as [p Hp]; [lia|]. exists (String c1 (String c2 p)).
    change (String c1 (String c2 p) +:+ strip backwards rest2)
      with (String c1 (String c2 (p +:+ strip backwards rest2))).
    by do 2 f_equal. }
  destruct rest2 as [|c3 rest3]; [by exists ""|]. cbn in Hn.
  destruct (if backwards then is_space3 c3 c2 c1 else is_space3 c1 c2 c3);
    [|by exists ""].
  destruct (IH rest3) as [p Hp]; [lia|].
  exists (String c1 (String c2 (String c3 p))).
  change (String c1 (String c2 (String c3 p)) +:+ strip backwards rest3)
    with (String c1 (String c2 (String c3 (p +:+ strip backwards rest3)))).
  by do 3 f_equal.
Qed.

Lemma strip_suffix (backwards : bool) (s : string) :
  ∃ p, s = p +:+ strip backwards s.
Proof. by apply (strip_suffix_bounded backwards (String.length s)). Qed.

Lemma list_ascii_of_string_app (a b : string) :
  String.list_ascii_of_string (a +:+ b) =
  String.list_ascii_of_string a ++ String.list_ascii_of_string b.
Proof.
  induction a as [|c a IH]; [done|].
  change (String c a +:+ b) with (String c (a +:+ b)).
  cbn [String.list_ascii_of_string]. by rewrite IH.
Qed.

Lemma string_of_list_ascii_app (l1 l2 : list ascii) :
  String.string_of_list_ascii (l1 ++ l2) =
  String.string_of_list_ascii l1 +:+ String.string_of_list_ascii l2.
Proof.
  induction l1 as [|c l1 IH]; [done|].
  cbn [app String.string_of_list_ascii]. by rewrite IH.
Qed.

Lemma reverse_app (a b : string) : reverse (a +:+ b) = reverse b +:+ reverse a.
Proof.
  unfold reverse.
  by rewrite list_ascii_of_string_app, rev_app_distr, string_of_list_ascii_app.
Qed.

Lemma reverse_involutive (s : string) : reverse (reverse s) = s.
Proof.
  unfold reverse.
  by rewrite String.list_ascii_of_string_of_list_ascii, rev_involutive,
    String.string_of_list_ascii_of_string.
Qed.

(** [trim] cuts a piece out of its argument. *)
Lemma trim_infix (s : string) : ∃ p q, s = p +:+ trim s +:+ q.
Proof.
  unfold trim, trimEnd, trimStart. destruct (strip_suffix false s) as [p Hp].
  destruct (strip_suffix true (reverse (strip false s))) as [p' Hp'].
  exists p, (reverse p').
  rewrite <- reverse_app, <- Hp', reverse_involutive. exact Hp.
Qed.

Lemma parse_line_lookup (acc : gmap string string) (line k v : string) :
  parse_line acc line !! k = Some v →
  acc !! k = Some v ∨ includes k line = true.
Proof.
  unfold parse_line.
  destruct (split "="%char line) as [|key [|value rest]] eqn:Hsplit; [by left..|].
  destruct (nonempty key && nonempty value); [|by left].
  destruct (String.eqb (trim key) "__proto__"); [by left|].
  destruct (decide (trim key = k)) as [<-|Hne].
  - intros _. right.
    destruct (split_head_prefix _ _ _ _ Hsplit) as [q ->].
    apply includes_app_l.
    apply (includes_infix _ (trim key)); [apply includes_refl | apply trim_infix].
  - rewrite lookup_insert_ne by done. by left.
Qed.

Lemma fold_parse_line_lookup (ls : list string) (acc : gmap string string)
    (k v : string) :
  fold_left parse_line ls acc !! k = Some v →
  acc !! k = Some v ∨ ∃ line, line ∈ ls ∧ includes k line = true.
Proof.
  revert acc. induction ls as [|line ls IH]; intros acc; cbn [fold_left].
  - by left.
  - intros [Hacc|(l & Hl & Hin)]%IH.
    + apply parse_line_lookup in Hacc as [Hacc|Hline]; [by left|].
      right. exists line. split; [by left | done].
    + right. exists l. split; [by right | done].
Qed.

(** A variable that deploy.mjs reads from .env.aws is written in it. *)
Lemma parse_env_lookup (content k v : string) :
  parse_env content !! k = Some v → includes k content = true.
Proof.
  unfold parse_env.
  intros [Hempty|(line & Hline & Hin)]%fold_parse_line_lookup.
  - by rewrite lookup_empty in Hempty.
  - apply list_elem_of_In, filter_In in Hline as [Hline _].
    apply list_elem_of_In in Hline.
    by apply (includes_infix _ line), (split_elem_infix newline).
Qed.

Lemma parse_env_unwritten (content k : string) :
  includes k content = false → parse_env content !! k = None.
Proof.
  intros Hout. destruct (parse_env content !! k) as [v|] eqn:Hk; [|done].
  apply parse_env_lookup in Hk. congruence.
Qed.

(* ===================================================================== *)
(** ** The operator configuration *)
(* ===================================================================== *)

(** deploy.mjs without .env.aws, or with one that has no [UNIQUE_ID],
    ends with status 1 before step 1, whatever the argument. *)
Lemma mjs_requires_operator_config (w : World) :
  mjs_operator_config w = None →
  exit_code (deploy_mjs w) = 1 ∧
  effects (events (deploy_mjs w)) = [] ∧
  files_after (deploy_mjs w) = files w.
Proof.
  intros Hconfig.
  destruct (array_includes validEnvironments (requested w)) eqn:Hvalid.
  - rewrite (mjs_stops_without_operator_config w Hvalid Hconfig).
    by destruct (bool_decide _).
  - rewrite (mjs_refuses w Hvalid). unfold mjs_refusal.
    by destruct (nonempty _).
Qed.

(** X18. When the text UNIQUE_ID occurs nowhere in .env.aws, deploy.mjs
    ends with status 1 before step 1, whatever the argument: it runs no
    command, copies no file and leaves every file as it was. *)
Lemma mjs_requires_unique_id_in_file (w : World) (content : string) :
  files w !! path_join [dirname w; ".env.aws"] = Some content →
  includes "UNIQUE_ID" content = false →
  exit_code (deploy_mjs w) = 1 ∧
  effects (events (deploy_mjs w)) = [] ∧
  files_after (deploy_mjs w) = files w.
Proof.
  intros Hfile Hout. apply mjs_requires_operator_config.
  unfold mjs_operator_config.
  by rewrite Hfile, (parse_env_unwritten content "UNIQUE_ID" Hout).
Qed.

(** deploy.sh without .env.aws does the same. *)
Lemma sh_requires_env_file (w : World) :
  files w !! ".env.aws" = None →
  exit_code (deploy_sh w) = 1 ∧
  effects (events (deploy_sh w)) = [] ∧
  files_after (deploy_sh w) = files w.
Proof. intros Habsent. by rewrite (sh_stops_without_env_file w Habsent). Qed.

(** C10 (defect of deploy.sh). .env.aws is there and sourcing it leaves
    [UNIQUE_ID] unset. deploy.sh has no test of [UNIQUE_ID]: with an
    accepted environment it announces the bucket "angular-deploy-<env>-"
    and runs the build, where deploy.mjs stops with "UNIQUE_ID not found
    in .env.aws". *)
Theorem sh_builds_without_unique_id (w : World) (vars : gmap string string) :
  sh_variables w = Some vars →
  vars !! "UNIQUE_ID" = None →
  array_includes case_patterns (expand vars "ENVIRONMENT") = true →
  first_command (deploy_sh w) = Some build_command ∧
  Out ("Bucket:       angular-deploy-" +:+ expand vars "ENVIRONMENT" +:+ "-")
    ∈ events (deploy_sh w).
Proof.
  intros Hvars Hunset Hvalid. split.
  - by rewrite sh_first_command, Hvars, Hvalid.
  - unfold deploy_sh. rewrite events_finish.
    rewrite (sh_through_build w vars Hvars Hvalid).
    assert (expand vars "UNIQUE_ID" = "") as -> by (unfold expand; by rewrite Hunset).
    unfold sh_header, bucketName.
    destruct (build_status w =? 0).
    + match goal with |- context [sh_steps_after_build ?w ?e ?b ?v ?st] =>
        destruct (grows_sh_steps_after_build w e b v st) as [t Ht]
      end.
      rewrite Ht. cbn [trace]. apply elem_of_app. left.
      apply elem_of_cons. right. apply elem_of_cons. right.
      apply elem_of_cons. by left.
    + cbn [snd trace].
      apply elem_of_cons. right. apply elem_of_cons. right.
      apply elem_of_cons. by left.
Qed.

(** With the .env.aws that lacks its [UNIQUE_ID] line, for dev. *)
Lemma sh_builds_without_unique_id_witness :
  let w := world (Some "dev") operator_file_without_id commands_succeed in
  let vars := parse_env operator_file_without_id ∪ {[ "ENVIRONMENT" := "dev" ]} in
  first_command (deploy_sh w) = Some build_command ∧
  Out ("Bucket:       angular-deploy-" +:+ expand vars "ENVIRONMENT" +:+ "-")
    ∈ events (deploy_sh w).
Proof.
  intros w vars.
  apply (sh_builds_without_unique_id w vars).
  - reflexivity.
  - vm_compute. reflexivity.
  - vm_compute. reflexivity.
Defined.

(** That run, in full. *)
Lemma sh_builds_without_unique_id_example :
  let o := deploy_sh (world (Some "dev") operator_file_without_id
                        commands_succeed) in
  exit_code o = 0 ∧
  commands (events o) =
    [build_command;
     "aws s3 sync dist/angular-release-deployment-frontend/browser s3://angular-deploy-dev- --delete"].
Proof. vm_compute. repeat split. Qed.

(** The same surroundings under deploy.mjs. *)
Lemma mjs_stops_without_unique_id_example :
  deploy_mjs (world (Some "dev") operator_file_without_id commands_succeed)
  = mjs_no_unique_id (world (Some "dev") operator_file_without_id commands_succeed).
Proof. vm_compute. reflexivity. Qed.

(** Without .env.aws both scripts stop before anything else happens. *)
Lemma no_env_file_example :
  deploy_mjs (world_without_env_file (Some "dev"))
    = mjs_no_env_file (world_without_env_file (Some "dev")) ∧
  deploy_sh (world_without_env_file (Some "dev"))
    = sh_no_env_file (world_without_env_file (Some "dev")).
Proof. vm_compute. split; reflexivity. Qed.

(* ===================================================================== *)
(** ** Configuration substitution *)
(* ===================================================================== *)

Lemma accepted_cases (e : string) :
  array_includes case_patterns e = true →
  e = "dev" ∨ e = "qa" ∨ e = "staging" ∨ e = "prod".
Proof.
  intros He. apply array_includes_elem_of in He. unfold case_patterns in He.
  repeat (apply elem_of_cons in He as [->|He]); auto.
  by apply elem_of_nil in He.
Qed.

(** The two lines of step 2 that [echo -e] prints, for an accepted
    environment. *)
Lemma echo_e_missing_config (w : World) (e : string) :
  array_includes case_patterns e = true →
  echo_e w ("Error: Config file not found: " +:+ SOURCE_CONFIG e)
  = "Error: Config file not found: " +:+ SOURCE_CONFIG e.
Proof. by intros [->|[->|[->| ->]]]%accepted_cases. Qed.

Lemma echo_e_swapped (w : World) (e : string) :
  array_includes case_patterns e = true →
  echo_e w ("Configuration swapped to " +:+ e) = "Configuration swapped to " +:+ e.
Proof. by intros [->|[->|[->| ->]]]%accepted_cases. Qed.

(** Step 2 of deploy.mjs, from any state. *)
Lemma swap_step_run (w : World) (e : string) (st : State) :
  swap_step w e st =
    match disk st !! sourceConfig w e with
    | Some document =>
        match copy_failure w (sourceConfig w e) (targetConfig w) (disk st) with
        | None =>
            (Next tt,
             {| disk := <[targetConfig w := document]> (disk st);
                trace := trace st ++
                  [Out "[2/4] Swapping environment configuration...";
                   CopyFile (sourceConfig w e) (targetConfig w);
                   Out ("Configuration swapped to " +:+ e)] |})
        | Some failure =>
            (Thrown (Error (copy_message failure)),
             {| disk := put (targetConfig w) (left_at_target failure) (disk st);
                trace := trace st ++
                  [Out "[2/4] Swapping environment configuration...";
                   CopyFile (sourceConfig w e) (targetConfig w)] |})
        end
    | None =>
        (Thrown (Error ("Config file not found: " +:+ sourceConfig w e)),
         {| disk := disk st;
            trace := trace st ++
              [Out "[2/4] Swapping environment configuration..."] |})
    end.
Proof.
  unfold swap_step. script_unfold. cbn [disk trace].
  destruct (disk st !! sourceConfig w e) as [document|] eqn:Hsrc.
  - rewrite bool_decide_eq_true_2 by eauto. cbn [negb disk trace].
    rewrite Hsrc.
    destruct (copy_failure w _ _ (disk st)); cbn [disk trace];
      by rewrite <- !app_assoc.
  - rewrite bool_decide_eq_false_2 by (intros [? ?]; discriminate).
    reflexivity.
Qed.

(** Step 2 of deploy.sh, from any state. *)
Lemma sh_swap_step_run (w : World) (e : string) (st : State) :
  sh_swap_step w e st =
    match disk st !! SOURCE_CONFIG e with
    | Some document =>
        match copy_failure w (SOURCE_CONFIG e) TARGET_CONFIG (disk st) with
        | None =>
            (Next tt,
             {| disk := <[TARGET_CONFIG := document]> (disk st);
                trace := trace st ++
                  [Out "[2/4] Swapping environment configuration...";
                   CopyFile (SOURCE_CONFIG e) TARGET_CONFIG;
                   Out (echo_e w ("Configuration swapped to " +:+ e))] |})
        | Some failure =>
            (Exit (Z.pos (cp_status failure)),
             {| disk := put TARGET_CONFIG (left_at_target failure) (disk st);
                trace := trace st ++
                  [Out "[2/4] Swapping environment configuration...";
                   CopyFile (SOURCE_CONFIG e) TARGET_CONFIG] |})
        end
    | None =>
        (Exit 1,
         {| disk := disk st;
            trace := trace st ++
              [Out "[2/4] Swapping environment configuration...";
               Out (echo_e w ("Error: Config file not found: " +:+
                              SOURCE_CONFIG e))] |})
    end.
Proof.
  unfold sh_swap_step. script_unfold. cbn [disk trace].
  destruct (disk st !! SOURCE_CONFIG e) as [document|] eqn:Hsrc.
  - rewrite bool_decide_eq_true_2 by eauto. cbn [negb disk trace].
    rewrite Hsrc.
    destruct (copy_failure w _ _ (disk st)); cbn [disk trace];
      by rewrite <- !app_assoc.
  - rewrite bool_decide_eq_false_2 by (intros [? ?]; discriminate).
    cbn [negb disk trace]. by rewrite <- !app_assoc.
Qed.

(** What a successful substitution does to the files. *)
Lemma swap_step_disk (w : World) (e : string) (st st' : State) :
  swap_step w e st = (Next tt, st') →
  ∃ document, disk st !! sourceConfig w e = Some document ∧
              disk st' = <[targetConfig w := document]> (disk st).
Proof.
  rewrite swap_step_run.
  destruct (disk st !! sourceConfig w e) as [document|]; [|discriminate].
  destruct (copy_failure w _ _ (disk st)); [discriminate|].
  intros [= <-]. by exists document.
Qed.

Lemma sh_swap_step_disk (w : World) (e : string) (st st' : State) :
  sh_swap_step w e st = (Next tt, st') →
  ∃ document, disk st !! SOURCE_CONFIG e = Some document ∧
              disk st' = <[TARGET_CONFIG := document]> (disk st).
Proof.
  rewrite sh_swap_step_run.
  destruct (disk st !! SOURCE_CONFIG e) as [document|]; [|discriminate].
  destruct (copy_failure w _ _ (disk st)); [discriminate|].
  intros [= <-]. by exists document.
Qed.

(** C6. On one tree, substitution for one environment and then for
    another changes the file at the fixed path of the configuration
    document, which receives the document of the environment, and no
    other file: the two trees, and the tree as built, hold the same
    content at every other path. This holds for step 2 of deploy.mjs and
    of deploy.sh. *)
Theorem swap_changes_only_the_configuration_document
    (w : World) (e1 e2 : string) (st st1 st2 : State) :
  (swap_step w e1 st = (Next tt, st1) →
   swap_step w e2 st1 = (Next tt, st2) →
   disk st1 !! targetConfig w = disk st !! sourceConfig w e1 ∧
   disk st2 !! targetConfig w = disk st1 !! sourceConfig w e2 ∧
   ∀ p, p ≠ targetConfig w →
        disk st1 !! p = disk st !! p ∧ disk st2 !! p = disk st1 !! p) ∧
  (sh_swap_step w e1 st = (Next tt, st1) →
   sh_swap_step w e2 st1 = (Next tt, st2) →
   disk st1 !! TARGET_CONFIG = disk st !! SOURCE_CONFIG e1 ∧
   disk st2 !! TARGET_CONFIG = disk st1 !! SOURCE_CONFIG e2 ∧
   ∀ p, p ≠ TARGET_CONFIG →
        disk st1 !! p = disk st !! p ∧ disk st2 !! p = disk st1 !! p).
Proof.
  split.
  - intros (d1 & Hsrc1 & Hd1)%swap_step_disk (d2 & Hsrc2 & Hd2)%swap_step_disk.
    split; [by rewrite Hd1, lookup_insert_eq|].
    split; [by rewrite Hd2, lookup_insert_eq|].
    intros p Hp. split.
    + by rewrite Hd1, lookup_insert_ne.
    + by rewrite Hd2, lookup_insert_ne.
  - intros (d1 & Hsrc1 & Hd1)%sh_swap_step_disk (d2 & Hsrc2 & Hd2)%sh_swap_step_disk.
    split; [by rewrite Hd1, lookup_insert_eq|].
    split; [by rewrite Hd2, lookup_insert_eq|].
    intros p Hp. split.
    + by rewrite Hd1, lookup_insert_ne.
    + by rewrite Hd2, lookup_insert_ne.
Qed.

(** On the built checkout, for dev and then prod, under deploy.mjs. *)
Lemma swap_changes_only_the_configuration_document_witness :
  let w := world None operator_file commands_succeed in
  let st1 := (swap_step w "dev" built).2 in
  let st2 := (swap_step w "prod" st1).2 in
  disk st1 !! targetConfig w = disk built !! sourceConfig w "dev" ∧
  disk st2 !! targetConfig w = disk st1 !! sourceConfig w "prod" ∧
  ∀ p, p ≠ targetConfig w →
       disk st1 !! p = disk built !! p ∧ disk st2 !! p = disk st1 !! p.
Proof.
  intros w st1 st2.
  apply (swap_changes_only_the_configuration_document w "dev" "prod" built st1 st2).
  - vm_compute. reflexivity.
  - vm_compute. reflexivity.
Defined.

(** The same run, read off the files: the bundle stays, the document
    changes twice. *)
Lemma swap_example :
  let w := world None operator_file commands_succeed in
  let st1 := (swap_step w "dev" built).2 in
  let st2 := (swap_step w "prod" st1).2 in
  let bundle := "/repo/dist/angular-release-deployment-frontend/browser/main.js" in
  disk built !! targetConfig w = Some "default document" ∧
  disk st1 !! targetConfig w = Some "dev document" ∧
  disk st2 !! targetConfig w = Some "production document" ∧
  disk built !! bundle = Some "bundle" ∧
  disk st1 !! bundle = Some "bundle" ∧
  disk st2 !! bundle = Some "bundle".
Proof. vm_compute. repeat split. Qed.

Lemma sourceConfig_includes_environment (w : World) (e : string) :
  array_includes validEnvironments e = true →
  includes e (sourceConfig w e) = true.
Proof.
  intros He. unfold sourceConfig, path_join, join. cbn [fold_left].
  do 2 apply includes_app_r. by apply configFile_includes_environment.
Qed.

Lemma SOURCE_CONFIG_includes_environment (e : string) :
  array_includes case_patterns e = true →
  includes e (SOURCE_CONFIG e) = true.
Proof.
  intros He. unfold SOURCE_CONFIG.
  apply includes_app_r. by apply configFile_includes_environment.
Qed.

(** C5. The build has succeeded and the configuration document of the
    requested environment is not on disk. deploy.mjs then ends with
    status 1 after printing "Config file not found: <path>", and
    deploy.sh after printing "Error: Config file not found: <path>"; the
    path is the expected one and contains the environment (through the
    file name environment.<env>.json, "production" for prod). The trace
    shows the build as the only command and no copy: nothing is put in
    place of the missing document, and the files are left as built. *)
Theorem missing_source_config_aborts (w : World) :
  (∀ e uid vars,
     argument w = Some e →
     array_includes validEnvironments e = true →
     mjs_operator_config w = Some (vars, uid) →
     build_status w = 0 →
     artifact w !! sourceConfig w e = None →
     let o := deploy_mjs w in
     let msg := "Config file not found: " +:+ sourceConfig w e in
     exit_code o = 1 ∧
     events o = mjs_header e uid ++ mjs_missing_config_report w e ∧
     effects (events o) = [Exec build_command] ∧
     includes (sourceConfig w e) msg = true ∧
     includes e msg = true ∧
     files_after o = artifact w) ∧
  (∀ vars,
     sh_variables w = Some vars →
     let E := expand vars "ENVIRONMENT" in
     array_includes case_patterns E = true →
     build_status w = 0 →
     artifact w !! SOURCE_CONFIG E = None →
     let o := deploy_sh w in
     let msg := "Error: Config file not found: " +:+ SOURCE_CONFIG E in
     exit_code o = 1 ∧
     events o = sh_header E (expand vars "UNIQUE_ID") ++ sh_missing_config_report E ∧
     effects (events o) = [Exec build_command] ∧
     includes (SOURCE_CONFIG E) msg = true ∧
     includes E msg = true ∧
     files_after o = artifact w).
Proof.
  split.
  - intros e uid vars Harg Hvalid Hconfig Hbuild Hsrc o msg. subst o msg.
    assert (deploy_mjs w =
              {| exit_code := 1;
                 events := mjs_header e uid ++ mjs_missing_config_report w e;
                 files_after := artifact w |}) as ->.
    { unfold deploy_mjs, finish.
      rewrite (mjs_through_build w e uid vars Harg Hvalid Hconfig), Hbuild.
      cbn [Z.eqb]. unfold steps_after_build, deployment_failed.
      script_unfold. rewrite swap_step_run. cbn [disk trace].
      rewrite Hsrc. reflexivity. }
    cbn [exit_code events files_after].
    split; [done|]. split; [done|]. split; [done|].
    split; [apply includes_app_r, includes_refl|].
    split; [|done].
    apply includes_app_r. by apply sourceConfig_includes_environment.
  - intros vars Hvars E Hvalid Hbuild Hsrc o msg. subst E o msg.
    assert (deploy_sh w =
              {| exit_code := 1;
                 events := sh_header (expand vars "ENVIRONMENT")
                             (expand vars "UNIQUE_ID")
                           ++ sh_missing_config_report (expand vars "ENVIRONMENT");
                 files_after := artifact w |}) as ->.
    { unfold deploy_sh, finish.
      rewrite (sh_through_build w vars Hvars Hvalid), Hbuild.
      cbn [Z.eqb]. unfold sh_steps_after_build.
      script_unfold. rewrite sh_swap_step_run. cbn [disk trace].
      rewrite Hsrc, (echo_e_missing_config w _ Hvalid). reflexivity. }
    cbn [exit_code events files_after].
    split; [done|]. split; [done|]. split; [done|].
    split; [apply includes_app_r, includes_refl|].
    split; [|done].
    apply includes_app_r. by apply SOURCE_CONFIG_includes_environment.
Qed.

(** In the checkout, which has no document for qa. *)
Lemma missing_source_config_aborts_witness :
  let w := world (Some "qa") operator_file commands_succeed in
  let o := deploy_mjs w in
  let msg := "Config file not found: " +:+ sourceConfig w "qa" in
  exit_code o = 1 ∧
  events o = mjs_header "qa" "shree-1767366539" ++ mjs_missing_config_report w "qa" ∧
  effects (events o) = [Exec build_command] ∧
  includes (sourceConfig w "qa") msg = true ∧
  includes "qa" msg = true ∧
  files_after o = artifact w.
Proof.
  intros w.
  apply (proj1 (missing_source_config_aborts w) "qa" "shree-1767366539"
           (parse_env operator_file)).
  - reflexivity.
  - reflexivity.
  - vm_compute. reflexivity.
  - vm_compute. reflexivity.
  - vm_compute. reflexivity.
Defined.

(** The last line of that run. *)
Lemma missing_source_config_example :
  last (events (deploy_mjs (world (Some "qa") operator_file commands_succeed)))
  = Some (Err "Config file not found: /repo/src/assets/config/environment.qa.json").
Proof. vm_compute. reflexivity. Qed.

(* ===================================================================== *)
(** ** Cache invalidation *)
(* ===================================================================== *)

Ltac run_command H :=
  match goal with
  | |- context [run ?w ?cmd ?d] =>
      let s := fresh "s" in
      let d' := fresh "d" in
      let Hrun := fresh "Hrun" in
      pose proof (H d) as Hrun;
      destruct (run w cmd d) as [s d'];
      cbn [fst] in Hrun; subst s
  end.

(** X19. deploy.mjs, prod: build, substitution and publication succeed and
    the CloudFront command fails. The failure is caught, a warning is
    printed, and the run ends with status 0 and no line on the error
    stream. *)
Lemma mjs_invalidation_failure_is_warning (w : World)
    (vars : gmap string string) (uid distribution document : string)
    (status : Z) :
  argument w = Some "prod" →
  mjs_operator_config w = Some (vars, uid) →
  truthy (vars !! "CLOUDFRONT_DISTRIBUTION_ID") = Some distribution →
  build_status w = 0 →
  artifact w !! sourceConfig w "prod" = Some document →
  copy_failure w (sourceConfig w "prod") (targetConfig w) (artifact w) = None →
  (∀ d, (run w (s3SyncCommand w (bucketName "prod" uid)) d).1 = 0) →
  (∀ d, (run w (invalidation_command distribution) d).1 = status) →
  status ≠ 0 →
  exit_code (deploy_mjs w) = 0 ∧
  events (deploy_mjs w) =
    mjs_run_with_warning w uid distribution (vars !! "CLOUDFRONT_DOMAIN").
Proof.
  intros Harg Hconfig Hdist Hbuild Hsrc Hcopy Hsync Hinv Hstatus.
  unfold deploy_mjs, finish.
  rewrite (mjs_through_build w "prod" uid vars Harg eq_refl Hconfig), Hbuild.
  cbn [Z.eqb].
  unfold steps_after_build, publish_step, invalidate_step, summary.
  script_unfold. rewrite swap_step_run. cbn [disk trace].
  rewrite Hsrc, Hcopy. cbn [disk trace].
  run_command Hsync. cbn [Z.eqb disk trace String.eqb Ascii.eqb Bool.eqb].
  rewrite Hdist. cbn [disk trace].
  run_command Hinv. apply Z.eqb_neq in Hstatus. rewrite Hstatus.
  cbn [disk trace exit_code events].
  split; [done|]. unfold mjs_run_with_warning, mjs_header.
  by rewrite <- !app_assoc.
Qed.

(** C7 (defect of deploy.sh). deploy.sh, prod: build, substitution (the
    document is there and the copy succeeds) and publication succeed and
    the CloudFront command ends with a status other than 0. Under
    [set -e] the script ends there with that status; the branch that would
    print "CloudFront invalidation failed (not critical)" is not reached,
    and neither is the closing "Deployment Successful!". *)
Theorem sh_invalidation_failure_is_fatal (w : World)
    (vars : gmap string string) (document : string) (status : Z) :
  sh_variables w = Some vars →
  expand vars "ENVIRONMENT" = "prod" →
  nonempty (expand vars "CLOUDFRONT_DISTRIBUTION_ID") = true →
  build_status w = 0 →
  artifact w !! SOURCE_CONFIG "prod" = Some document →
  copy_failure w (SOURCE_CONFIG "prod") TARGET_CONFIG (artifact w) = None →
  (∀ d, (run w (sh_sync_command (bucketName "prod" (expand vars "UNIQUE_ID"))) d).1 = 0) →
  (∀ d, (run w (sh_invalidation_command
                  (expand vars "CLOUDFRONT_DISTRIBUTION_ID")) d).1 = status) →
  status ≠ 0 →
  let o := deploy_sh w in
  exit_code o = status ∧
  events o = sh_run_to_invalidation w (expand vars "UNIQUE_ID")
               (expand vars "CLOUDFRONT_DISTRIBUTION_ID") ∧
  (Out "CloudFront invalidation failed (not critical)" ∉ events o) ∧
  (Out "Deployment Successful!" ∉ events o).
Proof.
  intros Hvars Henv Hdist Hbuild Hsrc Hcopy Hsync Hinv Hstatus o. subst o.
  assert (array_includes case_patterns (expand vars "ENVIRONMENT") = true)
    as Hvalid by (by rewrite Henv).
  assert (∃ d, main_sh w (initial w) =
                 (Exit status,
                  {| disk := d;
                     trace := sh_run_to_invalidation w (expand vars "UNIQUE_ID")
                                (expand vars "CLOUDFRONT_DISTRIBUTION_ID") |}))
    as [d Hrun].
  { rewrite (sh_through_build w vars Hvars Hvalid), Hbuild, Henv.
    cbn [Z.eqb].
    unfold sh_steps_after_build, sh_publish_step, sh_invalidate_step.
    script_unfold. rewrite sh_swap_step_run. cbn [disk trace].
    rewrite Hsrc, Hcopy. cbn [disk trace].
    run_command Hsync. cbn [Z.eqb negb disk trace String.eqb Ascii.eqb Bool.eqb].
    rewrite Hdist. cbn [negb disk trace].
    run_command Hinv. apply Z.eqb_neq in Hstatus. rewrite Hstatus.
    cbn [disk trace]. eexists. unfold sh_run_to_invalidation, sh_header.
    rewrite <- !app_assoc. reflexivity. }
  unfold deploy_sh, finish. rewrite Hrun. cbn [exit_code events].
  split; [done|]. split; [done|].
  unfold sh_run_to_invalidation, sh_header. cbn [app].
  split; intros Hin.
  - repeat (apply elem_of_cons in Hin as [Hin|Hin]; [discriminate Hin|]).
    by apply elem_of_nil in Hin.
  - repeat (apply elem_of_cons in Hin as [Hin|Hin]; [discriminate Hin|]).
    by apply elem_of_nil in Hin.
Qed.

(** With the .env.aws of the guide, every command succeeding but the
    CloudFront one, which ends with 254. *)
Lemma sh_invalidation_failure_is_fatal_witness :
  let w := world (Some "prod") operator_file invalidation_fails in
  let o := deploy_sh w in
  exit_code o = 254 ∧
  events o = sh_run_to_invalidation w
               (expand (parse_env operator_file ∪ {[ "ENVIRONMENT" := "prod" ]})
                  "UNIQUE_ID")
               (expand (parse_env operator_file ∪ {[ "ENVIRONMENT" := "prod" ]})
                  "CLOUDFRONT_DISTRIBUTION_ID") ∧
  (Out "CloudFront invalidation failed (not critical)" ∉ events o) ∧
  (Out "Deployment Successful!" ∉ events o).
Proof.
  intros w.
  apply (sh_invalidation_failure_is_fatal w
           (parse_env operator_file ∪ {[ "ENVIRONMENT" := "prod" ]})
           "production document" 254).
  - reflexivity.
  - vm_compute. reflexivity.
  - vm_compute. reflexivity.
  - vm_compute. reflexivity.
  - vm_compute. reflexivity.
  - reflexivity.
  - intros d. vm_compute. reflexivity.
  - intros d. vm_compute. reflexivity.
  - discriminate.
Defined.

(** The two scripts in those surroundings: deploy.mjs ends with 0 and a
    warning, deploy.sh with 254 right after the CloudFront command. *)
Lemma invalidation_failure_example :
  let w := world (Some "prod") operator_file invalidation_fails in
  exit_code (deploy_mjs w) = 0 ∧
  last (commands (events (deploy_mjs w)))
    = Some (invalidation_command "E1QKKABZX5LKQQ") ∧
  exit_code (deploy_sh w) = 254 ∧
  last (events (deploy_sh w))
    = Some (Exec (sh_invalidation_command "E1QKKABZX5LKQQ")).
Proof. vm_compute. repeat split. Qed.

(* ===================================================================== *)
(** ** One build, many configurations: whole runs *)
(* ===================================================================== *)

Create HintDb keeps.

Lemma keeps_sret {A} (target : string) (a : A) : keeps target (sret a).
Proof. by intros st p _. Qed.

Lemma keeps_emit (target : string) (ev : Event) : keeps target (emit ev).
Proof. by intros st p _. Qed.

Lemma keeps_exit {A} (target : string) (c : Z) : keeps target (@exit A c).
Proof. by intros st p _. Qed.

Lemma keeps_raise {A} (target : string) (e : exn) : keeps target (@raise A e).
Proof. by intros st p _. Qed.

Lemma keeps_exists_file (target p : string) : keeps target (exists_file p).
Proof. by intros st q _. Qed.

Lemma keeps_bind {A B} (target : string) (m : Script A) (f : A → Script B) :
  keeps target m → (∀ a, keeps target (f a)) → keeps target (m ≫= f).
Proof.
  intros Hm Hf st p Hp. unfold mbind, Script_bind, sbind.
  specialize (Hm st p Hp).
  destruct (m st) as [[a|e|c] st1]; cbn in *; [|done..].
  by rewrite (Hf a st1 p Hp).
Qed.

Lemma keeps_catch {A} (target : string) (m : Script A) (h : exn → Script A) :
  keeps target m → (∀ e, keeps target (h e)) → keeps target (catch m h).
Proof.
  intros Hm Hh st p Hp. unfold catch.
  specialize (Hm st p Hp).
  destruct (m st) as [[a|e|c] st1]; cbn in *; [done| |done].
  by rewrite (Hh e st1 p Hp).
Qed.

Lemma keeps_when (target : string) (b : bool) (m : Script unit) :
  keeps target m → keeps target (when b m).
Proof. intros Hm. destruct b; [done | apply keeps_sret]. Qed.

Lemma keeps_if {A} (target : string) (b : bool) (m1 m2 : Script A) :
  keeps target m1 → keeps target m2 → keeps target (if b then m1 else m2).
Proof. by destruct b. Qed.

Lemma keeps_copy (w : World) (src target : string) :
  keeps target (copy w src target).
Proof.
  intros st p Hp. unfold copy.
  destruct (disk st !! src); [|done].
  destruct (copy_failure w src target (disk st)) as [[msg status [left|]]|]; cbn.
  - by rewrite lookup_insert_ne.
  - by rewrite lookup_delete_ne.
  - by rewrite lookup_insert_ne.
Qed.

Lemma keeps_spawn (w : World) (target cmd : string) :
  only_build_writes w → cmd ≠ build_command → keeps target (spawn w cmd).
Proof.
  intros Hquiet Hcmd st p _. unfold spawn.
  specialize (Hquiet cmd (disk st) Hcmd).
  destruct (run w cmd (disk st)) as [status d]. cbn in *. by subst d.
Qed.

#[local] Hint Resolve keeps_sret keeps_emit keeps_exit keeps_raise
  keeps_exists_file keeps_copy : keeps.
#[local] Hint Extern 2 (keeps _ (_ ≫= _)) =>
  apply keeps_bind; [|intros ?] : keeps.
#[local] Hint Extern 2 (keeps _ (catch _ _)) =>
  apply keeps_catch; [|intros ?] : keeps.
#[local] Hint Extern 2 (keeps _ (when _ _)) => apply keeps_when : keeps.
#[local] Hint Extern 2 (keeps _ (if _ then _ else _)) => apply keeps_if : keeps.
#[local] Hint Extern 3 (keeps _ (match ?x with _ => _ end)) => destruct x : keeps.
#[local] Hint Extern 1 (keeps _ (spawn _ _)) =>
  apply keeps_spawn; [assumption | discriminate] : keeps.

Lemma keeps_steps_after_build (w : World) (e bucket : string)
    (vars : gmap string string) :
  only_build_writes w →
  keeps (targetConfig w)
    (catch (steps_after_build w e bucket vars) deployment_failed).
Proof.
  intros Hquiet.
  unfold steps_after_build, swap_step, publish_step, invalidate_step, summary,
    deployment_failed, execSync, copyFileSync.
  auto 20 with keeps.
Qed.

Lemma keeps_sh_steps_after_build (w : World) (e bucket : string)
    (vars : gmap string string) :
  only_build_writes w →
  keeps TARGET_CONFIG (sh_steps_after_build w e bucket vars).
Proof.
  intros Hquiet.
  unfold sh_steps_after_build, sh_swap_step, sh_publish_step,
    sh_invalidate_step, sh_summary, sh_command, sh_cp.
  auto 20 with keeps.
Qed.

(** Whatever the environment and however the run ends, the files
    deploy.mjs leaves are the built tree everywhere but at the fixed path
    of the configuration document. *)
Lemma deploy_mjs_frame (w : World) (e uid : string) (vars : gmap string string)
    (p : string) :
  argument w = Some e →
  array_includes validEnvironments e = true →
  mjs_operator_config w = Some (vars, uid) →
  only_build_writes w →
  p ≠ targetConfig w →
  files_after (deploy_mjs w) !! p = artifact w !! p.
Proof.
  intros Harg Hvalid Hconfig Hquiet Hp.
  unfold deploy_mjs. rewrite files_after_finish.
  rewrite (mjs_through_build w e uid vars Harg Hvalid Hconfig).
  destruct (build_status w =? 0); [|done].
  match goal with |- context [catch ?m ?h ?st] =>
    rewrite (keeps_steps_after_build w e (bucketName e uid) vars Hquiet st p Hp)
  end.
  done.
Qed.

(** The same for deploy.sh. *)
Lemma deploy_sh_keeps_artifact (w : World) (vars : gmap string string)
    (p : string) :
  sh_variables w = Some vars →
  array_includes case_patterns (expand vars "ENVIRONMENT") = true →
  only_build_writes w →
  p ≠ TARGET_CONFIG →
  files_after (deploy_sh w) !! p = artifact w !! p.
Proof.
  intros Hvars Hvalid Hquiet Hp.
  unfold deploy_sh. rewrite files_after_finish.
  rewrite (sh_through_build w vars Hvars Hvalid).
  destruct (build_status w =? 0); [|done].
  match goal with |- context [sh_steps_after_build ?w ?e ?b ?v ?st] =>
    rewrite (keeps_sh_steps_after_build w e b v Hquiet st p Hp)
  end.
  done.
Qed.

(** X13. Whatever the accepted environment and however the run ends, the
    files deploy.sh leaves are the built tree everywhere but at the fixed
    path of the configuration document, provided no command but the build
    writes files. *)
Lemma deploy_sh_frame (w : World) (vars : gmap string string) (p : string) :
  sh_variables w = Some vars →
  array_includes case_patterns (expand vars "ENVIRONMENT") = true →
  only_build_writes w →
  p ≠ TARGET_CONFIG →
  files_after (deploy_sh w) !! p = artifact w !! p.
Proof. apply deploy_sh_keeps_artifact. Qed.

(** X12. Two runs of deploy.mjs in the same surroundings, for two accepted
    environments, leave the same content at every path but the fixed path
    of the configuration document, provided no command but the build
    writes files. *)
Lemma one_build_many_configurations (w : World) (e1 e2 uid : string)
    (vars : gmap string string) (p : string) :
  array_includes validEnvironments e1 = true →
  array_includes validEnvironments e2 = true →
  mjs_operator_config w = Some (vars, uid) →
  only_build_writes w →
  p ≠ targetConfig w →
  files_after (deploy_mjs (with_argument (Some e1) w)) !! p =
  files_after (deploy_mjs (with_argument (Some e2) w)) !! p.
Proof.
  intros H1 H2 Hconfig Hquiet Hp.
  rewrite (deploy_mjs_frame (with_argument (Some e1) w) e1 uid vars p
             eq_refl H1 Hconfig Hquiet Hp).
  by rewrite (deploy_mjs_frame (with_argument (Some e2) w) e2 uid vars p
                eq_refl H2 Hconfig Hquiet Hp).
Qed.

(* ===================================================================== *)
(** ** The build step *)
(* ===================================================================== *)





(* ===================================================================== *)
(** ** ConfigService: further properties *)
(* ===================================================================== *)

Lemma assoc_skip (F k : string) (v : json) (props1 props2 : list (string * json)) :
  F ≠ k → assoc F (props1 ++ (k, v) :: props2) = assoc F (props1 ++ props2).
Proof.
  intros Hne. induction props1 as [|[k' v'] props1 IH]; cbn.
  - destruct (String.eqb_spec F k); [done | done].
  - by rewrite IH.
Qed.

Lemma first_failure_ext (URL_parses : string → bool) (doc doc' : json) :
  doc ≠ JNull → doc' ≠ JNull →
  (∀ F, F ∈ requiredFields → field doc' F = field doc F) →
  first_failure URL_parses doc' = first_failure URL_parses doc.
Proof.
  intros Hdoc Hdoc' Hsame.
  assert (List.find (missing doc') requiredFields
          = List.find (missing doc) requiredFields) as Hfind.
  { revert Hsame. generalize requiredFields as l.
    induction l as [|F l IH]; intros Hsame; [done|]. cbn [List.find].
    unfold missing at 1 3. rewrite (Hsame F) by (by left).
    destruct (undefined_or_null (field doc F)); [done|].
    apply IH. intros G HG. apply Hsame. by right. }
  unfold first_failure. rewrite Hfind.
  rewrite (Hsame "apiUrl"), (Hsame "authUrl") by (unfold requiredFields; set_solver).
  destruct doc, doc'; done.
Qed.

(** X1. A field that is not one of the five required ones, wherever it
    stands in the document and whatever it holds, changes neither the
    result of the load nor what the load prints. *)
Theorem unknown_field_is_tolerated (URL_parses : string → bool)
    (this this' : ConfigService) (props1 props2 : list (string * json))
    (k : string) (v : json) :
  k ∉ requiredFields →
  http this CONFIG_PATH = Return (JObj (props1 ++ props2)) →
  http this' CONFIG_PATH = Return (JObj (props1 ++ (k, v) :: props2)) →
  result_of (loadConfig URL_parses this') = result_of (loadConfig URL_parses this) ∧
  console_of (loadConfig URL_parses this') = console_of (loadConfig URL_parses this).
Proof.
  intros Hk Hget Hget'.
  rewrite (loadConfig_run URL_parses this _ Hget).
  rewrite (loadConfig_run URL_parses this' _ Hget').
  assert (∀ F, F ∈ requiredFields →
            field (JObj (props1 ++ (k, v) :: props2)) F
            = field (JObj (props1 ++ props2)) F) as Hsame.
  { intros F HF. cbn [field]. apply assoc_skip. by intros ->. }
  rewrite (first_failure_ext URL_parses (JObj (props1 ++ props2))
             (JObj (props1 ++ (k, v) :: props2))) by done.
  rewrite (Hsame "name") by (unfold requiredFields; set_solver).
  destruct (first_failure URL_parses (JObj (props1 ++ props2))); [done|].
  by destruct (ToString (field (JObj (props1 ++ props2)) "name")).
Qed.

(** With [releaseChannel] added to the qa document. *)
Lemma unknown_field_is_tolerated_witness :
  result_of (loadConfig URL_scheme_stage (serving (Return extended_document)))
    = result_of (loadConfig URL_scheme_stage (serving (Return qa_document))) ∧
  console_of (loadConfig URL_scheme_stage (serving (Return extended_document)))
    = console_of (loadConfig URL_scheme_stage (serving (Return qa_document))).
Proof.
  apply (unknown_field_is_tolerated URL_scheme_stage
           (serving (Return qa_document)) (serving (Return extended_document))
           [("name", JStr "qa"); ("production", JBool false)]
           [("apiUrl", JStr "https://api-qa.example.com");
            ("authUrl", JStr "https://auth-qa.example.com");
            ("features", JObj [("enableAnalytics", JBool false);
                               ("enableLogging", JBool true)])]
           "releaseChannel" (JStr "beta")).
  - intros Hin. apply list_elem_of_In in Hin. cbn in Hin.
    destruct Hin as [H|[H|[H|[H|[H|[]]]]]]; discriminate H.
  - reflexivity.
  - reflexivity.
Defined.

(** X2. Whatever the server answers, [loadConfig] either resolves, having
    printed its two lines, or rejects with the one fixed error. When it
    rejects it has printed exactly one console error, which carries the
    cause and is the last line on the console; the only line that can
    come before it is "Configuration validation passed", when it was the
    printing of the name that failed. A caller can tell that the load
    failed, never why. *)
Theorem load_rejects_with_one_error (URL_parses : string → bool)
    (this : ConfigService) :
  let r := loadConfig URL_parses this in
  (result_of r = Return tt ∧
   ∃ name, ToString (field (config (this_of r)) "name") = Return name ∧
           console_of r = success_log name) ∨
  (result_of r = Throw LoadFailed ∧
   ∃ cause, console_of r = [failure_log cause] ∨
            console_of r = [validation_passed; failure_log cause]).
Proof.
  intros r. subst r.
  destruct (http this CONFIG_PATH) as [doc|e] eqn:Hget.
  - rewrite (loadConfig_run URL_parses this doc Hget).
    destruct (first_failure URL_parses doc) as [cause|].
    + right. split; [done|]. exists cause. by left.
    + destruct (ToString (field doc "name")) as [name|cause] eqn:Hname.
      * left. split; [done|]. exists name. by split.
      * right. split; [done|]. exists cause. by right.
  - rewrite (loadConfig_fetch_failure URL_parses this e Hget).
    right. split; [done|]. exists e. by left.
Qed.

(** The three cases: the qa document, a document without [apiUrl], and a
    document whose [name] cannot be printed. *)
Lemma load_rejects_with_one_error_witness :
  console_of (loadConfig URL_scheme_stage (serving (Return qa_document)))
    = success_log "qa" ∧
  console_of (loadConfig URL_scheme_stage (serving (Return partial_document)))
    = [failure_log (MissingField "apiUrl")] ∧
  console_of (loadConfig URL_scheme_stage
                (serving (Return unprintable_name_document)))
    = [validation_passed; failure_log not_primitive].
Proof.
  split; [|split].
  - destruct (load_rejects_with_one_error URL_scheme_stage
                (serving (Return qa_document)))
      as [(_ & name & Hname & Hlog)|(Hfailed & _)]; [|discriminate Hfailed].
    injection Hname as <-. exact Hlog.
  - destruct (load_rejects_with_one_error URL_scheme_stage
                (serving (Return partial_document)))
      as [(Hok & _)|(_ & cause & [Hlog|Hlog])]; [discriminate Hok| |].
    + reflexivity.
    + discriminate Hlog.
  - destruct (load_rejects_with_one_error URL_scheme_stage
                (serving (Return unprintable_name_document)))
      as [(Hok & _)|(_ & cause & [Hlog|Hlog])]; [discriminate Hok| |].
    + discriminate Hlog.
    + reflexivity.
Defined.

(** X3. After a load that resolved, each accessor returns the field of
    the fetched document that it is named after ([isProduction] reads
    [production], [environmentName] reads [name]), none of them is
    [undefined] or [null], and reading changes nothing in the service. *)
Theorem accessors_after_resolved_load (URL_parses : string → bool)
    (this : ConfigService) (doc : json) :
  http this CONFIG_PATH = Return doc →
  result_of (loadConfig URL_parses this) = Return tt →
  let this' := this_of (loadConfig URL_parses this) in
  apiUrl this' = (Return (field doc "apiUrl"), this', []) ∧
  authUrl this' = (Return (field doc "authUrl"), this', []) ∧
  isProduction this' = (Return (field doc "production"), this', []) ∧
  environmentName this' = (Return (field doc "name"), this', []) ∧
  features this' = (Return (field doc "features"), this', []) ∧
  missing_fields doc = [].
Proof.
  intros Hget Hok this'. subst this'.
  destruct (loadConfig_resolved URL_parses this doc Hget Hok)
    as (Hfail & name & _ & ->).
  apply first_failure_none in Hfail as (Hcomplete & _ & _).
  cbn [this_of fst snd].
  unfold apiUrl, authUrl, isProduction, environmentName, features.
  unfold mbind, M_bind, bind. rewrite !getConfig_run. cbn [config with_config].
  destruct doc; try discriminate Hcomplete. cbn [falsy lift get_prop field].
  repeat (split; [reflexivity|]).
  unfold missing_fields. unfold complete in Hcomplete.
  revert Hcomplete. generalize requiredFields as l.
  induction l as [|F l IH]; [done|]. cbn.
  destruct (missing (JObj props) F); [done|]. exact IH.
Qed.

Lemma accessors_after_resolved_load_witness :
  let this' := this_of (loadConfig URL_scheme_stage (serving (Return qa_document))) in
  apiUrl this' = (Return (field qa_document "apiUrl"), this', []) ∧
  authUrl this' = (Return (field qa_document "authUrl"), this', []) ∧
  isProduction this' = (Return (field qa_document "production"), this', []) ∧
  environmentName this' = (Return (field qa_document "name"), this', []) ∧
  features this' = (Return (field qa_document "features"), this', []) ∧
  missing_fields qa_document = [].
Proof.
  apply (accessors_after_resolved_load URL_scheme_stage
           (serving (Return qa_document)) qa_document).
  - reflexivity.
  - reflexivity.
Defined.

(** X4. A configuration that was loaded stays in the service when a later
    load cannot fetch: that load rejects, and [getConfig] goes on
    returning the earlier document. *)
Theorem failed_fetch_keeps_earlier_configuration (URL_parses : string → bool)
    (this : ConfigService) (doc : json) (later : HttpClient) (e : exn) :
  http this CONFIG_PATH = Return doc →
  result_of (loadConfig URL_parses this) = Return tt →
  later CONFIG_PATH = Throw e →
  let loaded := this_of (loadConfig URL_parses this) in
  let again := loadConfig URL_parses (with_http later loaded) in
  result_of again = Throw LoadFailed ∧
  console_of again = [failure_log e] ∧
  result_of (getConfig (this_of again)) = Return doc.
Proof.
  intros Hget Hok Hlater loaded again. subst loaded again.
  destruct (loadConfig_resolved URL_parses this doc Hget Hok)
    as (Hfail & name & _ & ->).
  apply first_failure_none in Hfail as (Hcomplete & _ & _).
  cbn [this_of fst snd].
  rewrite (loadConfig_fetch_failure URL_parses
             (with_http later (with_config doc this)) e Hlater).
  split; [done|]. split; [done|].
  cbn [this_of fst snd]. rewrite getConfig_run. cbn [config with_http with_config].
  by destruct doc.
Qed.

Lemma failed_fetch_keeps_earlier_configuration_witness :
  let loaded := this_of (loadConfig URL_scheme_stage (serving (Return qa_document))) in
  let again :=
    loadConfig URL_scheme_stage
      (with_http (λ _, Throw (HttpErrorResponse "504 Gateway Timeout")) loaded) in
  result_of again = Throw LoadFailed ∧
  console_of again = [failure_log (HttpErrorResponse "504 Gateway Timeout")] ∧
  result_of (getConfig (this_of again)) = Return qa_document.
Proof.
  apply (failed_fetch_keeps_earlier_configuration URL_scheme_stage
           (serving (Return qa_document)) qa_document
           (λ _, Throw (HttpErrorResponse "504 Gateway Timeout"))
           (HttpErrorResponse "504 Gateway Timeout")).
  - reflexivity.
  - reflexivity.
  - reflexivity.
Defined.

(** A first load that cannot fetch, on a fresh service. *)
Lemma accessors_after_failed_fetch_witness :
  let r := loadConfig URL_scheme_stage
             (new_ConfigService (λ _, Throw (HttpErrorResponse "404 Not Found"))) in
  result_of r = Throw LoadFailed ∧
  result_of (getConfig (this_of r)) = Throw NotLoaded ∧
  result_of (apiUrl (this_of r)) = Throw NotLoaded ∧
  result_of (authUrl (this_of r)) = Throw NotLoaded ∧
  result_of (isProduction (this_of r)) = Throw NotLoaded ∧
  result_of (environmentName (this_of r)) = Throw NotLoaded ∧
  result_of (features (this_of r)) = Throw NotLoaded.
Proof.
  apply (accessors_after_failed_fetch URL_scheme_stage
           (λ _, Throw (HttpErrorResponse "404 Not Found"))
           (HttpErrorResponse "404 Not Found")).
  reflexivity.
Defined.

(* ===================================================================== *)
(** ** The root component *)
(* ===================================================================== *)

(** X6. A component made after a load that resolved shows the fetched
    document: its [environment], [apiUrl] and [isProduction] signals hold
    the [name], [apiUrl] and [production] of the document, and the console
    is given the name. A component cannot be made on a service that has
    not loaded: the constructor throws "Configuration not loaded". *)
Theorem App_shows_the_loaded_document (URL_parses : string → bool)
    (this : ConfigService) (doc : json) :
  http this CONFIG_PATH = Return doc →
  result_of (loadConfig URL_parses this) = Return tt →
  Component.construct (this_of (loadConfig URL_parses this)) =
    Return ({| Component.title := Some (JStr "Angular Release & Deployment");
               Component.environment := field doc "name";
               Component.apiUrl := field doc "apiUrl";
               Component.isProduction := field doc "production" |},
            [Component.warn "Current Environment: " (field doc "name")]) ∧
  Component.construct (new_ConfigService (http this)) = Throw NotLoaded.
Proof.
  intros Hget Hok. split; [|reflexivity].
  destruct (loadConfig_resolved URL_parses this doc Hget Hok)
    as (Hfail & name & _ & ->).
  apply first_failure_none in Hfail as (Hcomplete & _ & _).
  cbn [this_of fst snd]. unfold Component.construct.
  rewrite getConfig_run. cbn [config with_config].
  by destruct doc.
Qed.

Lemma App_shows_the_loaded_document_witness :
  Component.construct
    (this_of (loadConfig URL_scheme_stage (serving (Return qa_document)))) =
    Return ({| Component.title := Some (JStr "Angular Release & Deployment");
               Component.environment := field qa_document "name";
               Component.apiUrl := field qa_document "apiUrl";
               Component.isProduction := field qa_document "production" |},
            [Component.warn "Current Environment: " (field qa_document "name")]) ∧
  Component.construct (new_ConfigService (http (serving (Return qa_document))))
    = Throw NotLoaded.
Proof.
  apply (App_shows_the_loaded_document URL_scheme_stage
           (serving (Return qa_document)) qa_document).
  - reflexivity.
  - reflexivity.
Defined.

(* ===================================================================== *)
(** ** deploy.mjs: the steps after the build *)
(* ===================================================================== *)

(** Step 4 and the summary of deploy.mjs never fail: they run the
    CloudFront command when there is one, print no line on the error
    stream, and end with the success banner. *)
Lemma mjs_tail_run (w : World) (e bucket : string) (vars : gmap string string)
    (st : State) :
  ∃ t d,
    (when (String.eqb e "prod")
       (invalidate_step w (vars !! "CLOUDFRONT_DISTRIBUTION_ID")) ≫= λ _,
     summary e bucket (vars !! "CLOUDFRONT_DOMAIN")) st
    = (Next tt, {| disk := d; trace := trace st ++ t |}) ∧
    commands t = mjs_invalidation e vars ∧
    Out "Deployment Successful!" ∈ t.
Proof.
  unfold mjs_invalidation, invalidate_step, summary.
  destruct (String.eqb e "prod") eqn:Hprod.
  - destruct (truthy (vars !! "CLOUDFRONT_DISTRIBUTION_ID")) as [id|] eqn:Hid.
    + script_unfold. cbn [disk trace].
      destruct (run w (invalidation_command id) (disk st)) as [s d].
      destruct (s =? 0); cbn [disk trace]; eexists _, _;
        (split; [rewrite <- !app_assoc; cbn [app]; reflexivity|]);
        (split; [reflexivity|]); set_solver.
    + script_unfold. cbn [disk trace]. eexists _, _.
      split; [rewrite <- !app_assoc; cbn [app]; reflexivity|].
      split; [reflexivity|]. set_solver.
  - script_unfold. cbn [disk trace]. eexists _, _.
    split; [rewrite <- !app_assoc; cbn [app]; reflexivity|].
    split; [reflexivity|]. set_solver.
Qed.

Lemma catch_bind_next {A B} (m : Script A) (f : A → Script B)
    (h : exn → Script B) (st st1 : State) (a : A) :
  m st = (Next a, st1) → catch (m ≫= f) h st = catch (f a) h st1.
Proof. intros Hm. unfold catch, mbind, Script_bind, sbind. by rewrite Hm. Qed.

Lemma catch_bind_thrown {A B} (m : Script A) (f : A → Script B)
    (h : exn → Script B) (st st1 : State) (e : exn) :
  m st = (Thrown e, st1) → catch (m ≫= f) h st = h e st1.
Proof. intros Hm. unfold catch, mbind, Script_bind, sbind. by rewrite Hm. Qed.

Lemma catch_next {A} (m : Script A) (h : exn → Script A) (st st1 : State) (a : A) :
  m st = (Next a, st1) → catch m h st = (Next a, st1).
Proof. intros Hm. unfold catch. by rewrite Hm. Qed.

Lemma bind_next {A B} (m : Script A) (f : A → Script B) (st st1 : State) (a : A) :
  m st = (Next a, st1) → (m ≫= f) st = f a st1.
Proof. intros Hm. unfold mbind, Script_bind, sbind. by rewrite Hm. Qed.

Lemma bind_exit {A B} (m : Script A) (f : A → Script B) (st st1 : State) (c : Z) :
  m st = (Exit c, st1) → (m ≫= f) st = (Exit c, st1).
Proof. intros Hm. unfold mbind, Script_bind, sbind. by rewrite Hm. Qed.

(** Step 3 of deploy.mjs, from any state. *)
Lemma publish_step_run (w : World) (bucket : string) (st : State) :
  publish_step w bucket st =
    let '(s, d) := run w (s3SyncCommand w bucket) (disk st) in
    let t := trace st ++ [Out ("[3/4] Deploying to S3 bucket: " +:+ bucket);
                          Exec (s3SyncCommand w bucket)] in
    if s =? 0
    then (Next tt, {| disk := d; trace := t ++ [Out "Files uploaded to S3"] |})
    else (Thrown (Error ("Command failed: " +:+ s3SyncCommand w bucket)),
          {| disk := d; trace := t |}).
Proof.
  unfold publish_step. script_unfold. cbn [disk trace].
  destruct (run w (s3SyncCommand w bucket) (disk st)) as [s d].
  destruct (s =? 0); cbn [disk trace]; rewrite <- ?app_assoc; reflexivity.
Qed.

Lemma deployment_failed_run (error : exn) (st : State) :
  nonempty (message error) = true →
  deployment_failed error st =
    (Exit 1, {| disk := disk st;
                trace := trace st ++ [Err "Deployment failed!"; Err (message error)] |}).
Proof.
  intros Hmsg. unfold deployment_failed. script_unfold. rewrite Hmsg.
  cbn [disk trace]. by rewrite <- !app_assoc.
Qed.

(** The [catch] of deploy.mjs runs no command and ends the run with
    status 1. *)
Lemma deployment_failed_exits (error : exn) (st : State) :
  ∃ t, deployment_failed error st
       = (Exit 1, {| disk := disk st; trace := trace st ++ t |}) ∧
       commands t = [].
Proof.
  unfold deployment_failed. script_unfold.
  destruct (nonempty (message error)); cbn [disk trace]; eexists;
    (split; [rewrite <- ?app_assoc; reflexivity | reflexivity]).
Qed.

(** How a run of deploy.mjs that got to step 1 ends. *)
Lemma mjs_ready_outcome (w : World) (e uid : string) (vars : gmap string string) :
  argument w = Some e →
  array_includes validEnvironments e = true →
  mjs_operator_config w = Some (vars, uid) →
  let o := deploy_mjs w in
  let sync := s3SyncCommand w (bucketName e uid) in
  if build_status w =? 0 then
    match artifact w !! sourceConfig w e with
    | None => exit_code o = 1 ∧ commands (events o) = [build_command]
    | Some document =>
        match copy_failure w (sourceConfig w e) (targetConfig w) (artifact w) with
        | Some _ => exit_code o = 1 ∧ commands (events o) = [build_command]
        | None =>
            if (run w sync (<[targetConfig w := document]> (artifact w))).1 =? 0
            then exit_code o = 0 ∧
                 commands (events o)
                 = [build_command; sync] ++ mjs_invalidation e vars ∧
                 Out "Deployment Successful!" ∈ events o
            else exit_code o = 1 ∧ commands (events o) = [build_command; sync]
        end
    end
  else exit_code o = 1 ∧ commands (events o) = [build_command].
Proof.
  intros Harg Hvalid Hconfig o sync. subst o sync.
  unfold deploy_mjs, finish.
  rewrite (mjs_through_build w e uid vars Harg Hvalid Hconfig).
  destruct (build_status w =? 0); [|by split].
  unfold steps_after_build.
  match goal with |- context [catch _ _ ?st] =>
    pose proof (swap_step_run w e st) as Hswap
  end.
  cbn [disk trace] in Hswap.
  destruct (artifact w !! sourceConfig w e) as [document|].
  - destruct (copy_failure w (sourceConfig w e) (targetConfig w) (artifact w))
      as [failure|].
    { rewrite (catch_bind_thrown _ _ _ _ _ _ Hswap).
      match goal with |- context [deployment_failed ?err ?st] =>
        destruct (deployment_failed_exits err st) as (t & -> & Hcmds)
      end.
      cbn [exit_code events trace]. split; [done|].
      by rewrite commands_app, Hcmds. }
    rewrite (catch_bind_next _ _ _ _ _ _ Hswap). clear Hswap.
    match goal with |- context [catch _ _ ?st] =>
      pose proof (publish_step_run w (bucketName e uid) st) as Hpublish
    end.
    cbn [disk trace] in Hpublish.
    destruct (run w (s3SyncCommand w (bucketName e uid))
                (<[targetConfig w:=document]> (artifact w))) as [s d].
    cbn [fst]. destruct (s =? 0).
    + rewrite (catch_bind_next _ _ _ _ _ _ Hpublish). clear Hpublish.
      match goal with |- context [catch _ _ ?st] =>
        destruct (mjs_tail_run w e (bucketName e uid) vars st)
          as (t & d' & Hrun & Hcmds & Hbanner)
      end.
      rewrite (catch_next _ _ _ _ _ Hrun).
      cbn [exit_code events trace]. split; [done|].
      rewrite commands_app, Hcmds. split; [done|].
      apply elem_of_app. by right.
    + rewrite (catch_bind_thrown _ _ _ _ _ _ Hpublish).
      rewrite deployment_failed_run by done. by split.
  - rewrite (catch_bind_thrown _ _ _ _ _ _ Hswap).
    rewrite deployment_failed_run by done. by split.
Qed.

Lemma requested_argument (w : World) :
  nonempty (requested w) = true → argument w = Some (requested w).
Proof. unfold requested. by destruct (argument w). Qed.

(** X7. deploy.mjs ends with status 0 exactly when steps 1 to 3 succeed:
    the argument is accepted, .env.aws is usable, the build succeeds, the
    configuration document of the environment exists and is copied to its
    place, and the upload succeeds. Whether there is a CloudFront command,
    and how it ends, plays no part. *)
Theorem mjs_exit_code_zero_iff (w : World) :
  exit_code (deploy_mjs w) = 0 ↔ mjs_steps_succeed w = true.
Proof.
  unfold mjs_steps_succeed.
  destruct (mjs_operator_config w) as [[vars uid]|] eqn:Hconfig.
  - destruct (array_includes validEnvironments (requested w)) eqn:Hvalid.
    + pose proof (requested_argument w (accepted_nonempty _ Hvalid)) as Harg.
      pose proof (mjs_ready_outcome w _ uid vars Harg Hvalid Hconfig) as Hout.
      cbn zeta in Hout. cbn [andb].
      destruct (build_status w =? 0).
      * destruct (artifact w !! sourceConfig w (requested w)) as [document|].
        -- destruct (copy_failure w _ _ (artifact w)).
           ++ destruct Hout as (-> & _). done.
           ++ destruct (_ =? 0).
              ** destruct Hout as (-> & _). done.
              ** destruct Hout as (-> & _). done.
        -- destruct Hout as (-> & _). done.
      * destruct Hout as (-> & _). done.
    + rewrite (mjs_refuses w Hvalid). done.
  - destruct (mjs_requires_operator_config w Hconfig) as (-> & _). done.
Qed.

(** In the checkout, for dev: the run ends with 0. With a byte order mark
    before the first line of .env.aws it still does; where the directory
    of the built document cannot be written it ends with 1. *)
Lemma mjs_exit_code_zero_iff_witness :
  exit_code (deploy_mjs (world (Some "dev") operator_file commands_succeed)) = 0 ∧
  exit_code (deploy_mjs (world (Some "dev") operator_file_with_mark
                           commands_succeed)) = 0 ∧
  exit_code (deploy_mjs (world_without_target_directory (Some "dev"))) ≠ 0.
Proof.
  split; [|split].
  - apply (mjs_exit_code_zero_iff
             (world (Some "dev") operator_file commands_succeed)).
    vm_compute. reflexivity.
  - apply (mjs_exit_code_zero_iff
             (world (Some "dev") operator_file_with_mark commands_succeed)).
    vm_compute. reflexivity.
  - intros Hzero.
    apply (mjs_exit_code_zero_iff (world_without_target_directory (Some "dev")))
      in Hzero.
    vm_compute in Hzero. discriminate Hzero.
Defined.

(** X8. The commands a run of deploy.mjs executes are an initial segment
    of its plan: the build, then the mirror upload to the bucket of the
    environment, then, for prod with a distribution id only, the
    CloudFront invalidation. A run that ends with status 0 has executed
    the whole plan. No run executes any other command, and no run for
    dev, qa or staging invalidates. *)
Theorem mjs_commands_follow_the_plan (w : World) :
  commands (events (deploy_mjs w)) `prefix_of` mjs_plan w ∧
  (exit_code (deploy_mjs w) = 0 → commands (events (deploy_mjs w)) = mjs_plan w).
Proof.
  unfold mjs_plan.
  destruct (mjs_operator_config w) as [[vars uid]|] eqn:Hconfig.
  - destruct (array_includes validEnvironments (requested w)) eqn:Hvalid.
    + pose proof (requested_argument w (accepted_nonempty _ Hvalid)) as Harg.
      pose proof (mjs_ready_outcome w _ uid vars Harg Hvalid Hconfig) as Hout.
      cbn zeta in Hout.
      destruct (build_status w =? 0).
      * destruct (artifact w !! sourceConfig w (requested w)) as [document|].
        -- destruct (copy_failure w _ _ (artifact w)).
           ++ destruct Hout as (-> & ->). split; [|done].
              by eexists.
           ++ destruct (_ =? 0).
              ** destruct Hout as (_ & -> & _). done.
              ** destruct Hout as (-> & ->). split; [|done].
                 by eexists.
        -- destruct Hout as (-> & ->). split; [|done].
           by eexists.
      * destruct Hout as (-> & ->). split; [|done].
        by eexists.
    + rewrite (mjs_refuses w Hvalid). unfold mjs_refusal. cbn [events exit_code].
      split; [|done]. destruct (nonempty _); by eexists.
  - destruct (mjs_requires_operator_config w Hconfig) as (-> & Hnone & _).
    split; [|done].
    assert (commands (events (deploy_mjs w)) = []) as ->; [|by eexists].
    destruct (array_includes validEnvironments (requested w)) eqn:Hvalid.
    + rewrite (mjs_stops_without_operator_config w Hvalid Hconfig).
      by destruct (bool_decide _).
    + rewrite (mjs_refuses w Hvalid). unfold mjs_refusal. cbn [events].
      by destruct (nonempty _).
Qed.

(** A staging run in the checkout, to which a staging document is added:
    it ends with 0 after the build and the upload. *)
Lemma mjs_commands_follow_the_plan_witness :
  let w := {| argument := Some "staging";
              dirname := "/repo";
              files := <["/repo/src/assets/config/environment.staging.json"
                         := "staging document"]> (checkout operator_file);
              run := commands_succeed;
              source := source_assignments;
              copy_failure := copies_succeed;
              escapes := no_escapes |} in
  commands (events (deploy_mjs w)) = mjs_plan w.
Proof.
  intros w. apply (mjs_commands_follow_the_plan w). vm_compute. reflexivity.
Defined.

(* ===================================================================== *)
(** ** deploy.sh: the steps after the build *)
(* ===================================================================== *)

(** Step 3 of deploy.sh, from any state. *)
Lemma sh_publish_step_run (w : World) (bucket : string) (st : State) :
  sh_publish_step w bucket st =
    let '(s, d) := run w (sh_sync_command bucket) (disk st) in
    let t := trace st ++
               [Out (echo_e w ("[3/4] Deploying to S3 bucket: " +:+ bucket));
                Exec (sh_sync_command bucket)] in
    if s =? 0
    then (Next tt, {| disk := d; trace := t ++ [Out "Files uploaded to S3"] |})
    else (Exit s, {| disk := d; trace := t |}).
Proof.
  unfold sh_publish_step. script_unfold. cbn [disk trace].
  destruct (run w (sh_sync_command bucket) (disk st)) as [s d].
  destruct (s =? 0) eqn:Hs; cbn [disk trace negb]; rewrite ?Hs;
    cbn [disk trace negb]; rewrite <- ?app_assoc; reflexivity.
Qed.

(** Step 4 and the summary of deploy.sh: they fail only through the
    CloudFront command. *)
Lemma sh_tail_run (w : World) (E bucket : string) (vars : gmap string string)
    (st : State) :
  let tail :=
    when (String.eqb E "prod")
      (sh_invalidate_step w (expand vars "CLOUDFRONT_DISTRIBUTION_ID")) ≫= λ _,
    sh_summary w E bucket (expand vars "CLOUDFRONT_DOMAIN") in
  let distribution := expand vars "CLOUDFRONT_DISTRIBUTION_ID" in
  if String.eqb E "prod" && nonempty distribution then
    let '(s, d) := run w (sh_invalidation_command distribution) (disk st) in
    if s =? 0 then
      ∃ t, tail st = (Next tt, {| disk := d; trace := trace st ++ t |}) ∧
           commands t = [sh_invalidation_command distribution] ∧
           Out "Deployment Successful!" ∈ t
    else
      ∃ t, tail st = (Exit s, {| disk := d; trace := trace st ++ t |}) ∧
           commands t = [sh_invalidation_command distribution]
  else
    ∃ t, tail st = (Next tt, {| disk := disk st; trace := trace st ++ t |}) ∧
         commands t = [] ∧
         Out "Deployment Successful!" ∈ t.
Proof.
  intros tail distribution. subst tail distribution.
  unfold sh_invalidate_step, sh_summary.
  destruct (String.eqb E "prod") eqn:Hprod; cbn [andb].
  - destruct (nonempty (expand vars "CLOUDFRONT_DISTRIBUTION_ID")) eqn:Hid.
    + script_unfold. cbn [disk trace negb].
      destruct (run w _ (disk st)) as [s d].
      destruct (s =? 0) eqn:Hs; cbn [disk trace]; rewrite ?Hs; cbn [disk trace];
        eexists; (split; [rewrite <- ?app_assoc; cbn [app]; reflexivity|]).
      * split; [reflexivity|]. set_solver.
      * reflexivity.
    + script_unfold. cbn [disk trace negb]. eexists.
      split; [rewrite <- !app_assoc; cbn [app]; reflexivity|].
      split; [reflexivity|]. set_solver.
  - script_unfold. cbn [disk trace]. eexists.
    split; [rewrite <- !app_assoc; cbn [app]; reflexivity|].
    split; [reflexivity|]. set_solver.
Qed.

(** deploy.sh that could not source .env.aws has run no command and ends
    with a status other than 0. *)
Lemma sh_without_variables (w : World) :
  sh_variables w = None →
  exit_code (deploy_sh w) ≠ 0 ∧ commands (events (deploy_sh w)) = [].
Proof.
  intros Hvars. unfold deploy_sh, finish, main_sh, sh_variables in *.
  script_unfold. unfold sh_source. cbn [disk trace].
  destruct (files w !! ".env.aws") as [content|] eqn:Hfile.
  - rewrite bool_decide_eq_true_2 by eauto. cbn [negb app disk trace].
    rewrite Hfile.
    destruct (source w content _) as [status vars'].
    destruct (status =? 0) eqn:Hs; [discriminate|].
    cbn [exit_code events]. split; [by apply Z.eqb_neq | done].
  - rewrite bool_decide_eq_false_2 by (intros [? ?]; discriminate).
    by split.
Qed.

(** How a run of deploy.sh that got to step 1 ends. *)
Lemma sh_ready_outcome (w : World) (vars : gmap string string) :
  sh_variables w = Some vars →
  array_includes case_patterns (expand vars "ENVIRONMENT") = true →
  let o := deploy_sh w in
  let E := expand vars "ENVIRONMENT" in
  let distribution := expand vars "CLOUDFRONT_DISTRIBUTION_ID" in
  let sync := sh_sync_command (bucketName E (expand vars "UNIQUE_ID")) in
  if build_status w =? 0 then
    match artifact w !! SOURCE_CONFIG E with
    | None => exit_code o = 1 ∧ commands (events o) = [build_command]
    | Some document =>
        match copy_failure w (SOURCE_CONFIG E) TARGET_CONFIG (artifact w) with
        | Some failure =>
            exit_code o = Z.pos (cp_status failure) ∧
            commands (events o) = [build_command]
        | None =>
            let uploaded :=
              run w sync (<[TARGET_CONFIG := document]> (artifact w)) in
            if uploaded.1 =? 0 then
              if String.eqb E "prod" && nonempty distribution then
                let status :=
                  (run w (sh_invalidation_command distribution) uploaded.2).1 in
                exit_code o = status ∧
                commands (events o) =
                  [build_command; sync; sh_invalidation_command distribution]
              else
                exit_code o = 0 ∧ commands (events o) = [build_command; sync]
            else
              exit_code o = uploaded.1 ∧
              commands (events o) = [build_command; sync]
        end
    end
  else exit_code o = build_status w ∧ commands (events o) = [build_command].
Proof.
  intros Hvars Hvalid o E distribution sync. subst o E distribution sync.
  unfold deploy_sh, finish.
  rewrite (sh_through_build w vars Hvars Hvalid).
  destruct (build_status w =? 0) eqn:Hbuild; [|by split].
  unfold sh_steps_after_build.
  match goal with |- context [(sh_swap_step ?w ?e ≫= _) ?st] =>
    pose proof (sh_swap_step_run w e st) as Hswap
  end.
  cbn [disk trace] in Hswap.
  destruct (artifact w !! SOURCE_CONFIG (expand vars "ENVIRONMENT")) as [document|].
  - destruct (copy_failure w _ TARGET_CONFIG (artifact w)) as [failure|].
    { rewrite (bind_exit _ _ _ _ _ Hswap). by split. }
    rewrite (bind_next _ _ _ _ _ Hswap). clear Hswap.
    match goal with |- context [(sh_publish_step ?w ?b ≫= _) ?st] =>
      pose proof (sh_publish_step_run w b st) as Hpublish
    end.
    cbn [disk trace] in Hpublish. cbn zeta.
    destruct (run w (sh_sync_command _) (<[TARGET_CONFIG:=document]> (artifact w)))
      as [s d].
    cbn [fst snd]. destruct (s =? 0) eqn:Hs.
    + rewrite (bind_next _ _ _ _ _ Hpublish). clear Hpublish.
      match goal with |- context [(when ?b ?m ≫= ?f) ?st] =>
        pose proof (sh_tail_run w (expand vars "ENVIRONMENT")
                      (bucketName (expand vars "ENVIRONMENT") (expand vars "UNIQUE_ID"))
                      vars st) as Htail
      end.
      cbn zeta in Htail. cbn [disk trace] in Htail.
      destruct (String.eqb (expand vars "ENVIRONMENT") "prod"
                && nonempty (expand vars "CLOUDFRONT_DISTRIBUTION_ID")).
      * destruct (run w (sh_invalidation_command _) d) as [s' d'].
        cbn [fst]. destruct (s' =? 0) eqn:Hs'.
        -- destruct Htail as (t & -> & Hcmds & _).
           cbn [exit_code events trace]. apply Z.eqb_eq in Hs'.
           split; [done|]. by rewrite commands_app, Hcmds.
        -- destruct Htail as (t & -> & Hcmds).
           cbn [exit_code events trace].
           split; [done|]. by rewrite commands_app, Hcmds.
      * destruct Htail as (t & -> & Hcmds & _).
        cbn [exit_code events trace].
        split; [done|]. by rewrite commands_app, Hcmds.
    + rewrite (bind_exit _ _ _ _ _ Hpublish). by split.
  - rewrite (bind_exit _ _ _ _ _ Hswap). by split.
Qed.

(** X10. deploy.sh ends with status 0 exactly when .env.aws is sourced,
    [$ENVIRONMENT] is accepted, the build succeeds, the configuration
    document exists and is copied to its place, the upload succeeds and,
    for prod with a distribution id, the CloudFront command succeeds
    too. *)
Theorem sh_exit_code_zero_iff (w : World) :
  exit_code (deploy_sh w) = 0 ↔ sh_run_succeeds w = true.
Proof.
  unfold sh_run_succeeds.
  destruct (sh_variables w) as [vars|] eqn:Hvars.
  - cbn zeta.
    destruct (array_includes case_patterns (expand vars "ENVIRONMENT")) eqn:Hvalid.
    + pose proof (sh_ready_outcome w vars Hvars Hvalid) as Hout.
      cbn zeta in Hout. cbn [andb].
      destruct (build_status w =? 0) eqn:Hbuild.
      * destruct (artifact w !! SOURCE_CONFIG _) as [document|].
        -- destruct (copy_failure w _ TARGET_CONFIG (artifact w)) as [failure|].
           { destruct Hout as (-> & _). done. }
           destruct (run w (sh_sync_command _) _) as [s d]. cbn [fst snd] in *.
           destruct (s =? 0) eqn:Hs; cbn [andb].
           ++ destruct (String.eqb _ "prod" && nonempty _).
              ** destruct Hout as (-> & _). symmetry. apply Z.eqb_eq.
              ** destruct Hout as (-> & _). done.
           ++ destruct Hout as (-> & _). split; [|done].
              intros ->. discriminate Hs.
        -- destruct Hout as (-> & _). done.
      * destruct Hout as (-> & _). split; [|done].
        intros Hzero. rewrite Hzero in Hbuild. discriminate Hbuild.
    + rewrite (sh_refuses w vars Hvars Hvalid). done.
  - destruct (sh_without_variables w Hvars) as (Hcode & _). done.
Qed.

(** In the checkout, for dev: the run ends with 0. Where the directory of
    the built document cannot be written, [cp] fails and the run ends
    with its status. *)
Lemma sh_exit_code_zero_iff_witness :
  exit_code (deploy_sh (world (Some "dev") operator_file commands_succeed)) = 0 ∧
  exit_code (deploy_sh (world_without_target_directory (Some "dev"))) ≠ 0.
Proof.
  split.
  - apply (sh_exit_code_zero_iff
             (world (Some "dev") operator_file commands_succeed)).
    vm_compute. reflexivity.
  - intros Hzero.
    apply (sh_exit_code_zero_iff (world_without_target_directory (Some "dev")))
      in Hzero.
    vm_compute in Hzero. discriminate Hzero.
Defined.

(** X9. The commands a run of deploy.sh executes are an initial segment
    of its plan: the build, then the mirror upload to the bucket of the
    environment, then, for prod with a distribution id only, the
    CloudFront invalidation. A run that ends with status 0 has executed
    the whole plan. *)
Theorem sh_commands_follow_the_plan (w : World) :
  commands (events (deploy_sh w)) `prefix_of` sh_plan w ∧
  (exit_code (deploy_sh w) = 0 → commands (events (deploy_sh w)) = sh_plan w).
Proof.
  unfold sh_plan, sh_invalidation.
  destruct (sh_variables w) as [vars|] eqn:Hvars.
  - cbn zeta.
    destruct (array_includes case_patterns (expand vars "ENVIRONMENT")) eqn:Hvalid.
    + pose proof (sh_ready_outcome w vars Hvars Hvalid) as Hout.
      cbn zeta in Hout.
      destruct (build_status w =? 0) eqn:Hbuild.
      * destruct (artifact w !! SOURCE_CONFIG _) as [document|].
        -- destruct (copy_failure w _ TARGET_CONFIG (artifact w)) as [failure|].
           { destruct Hout as (-> & ->). split; [by eexists | done]. }
           destruct (run w (sh_sync_command _) _) as [s d]. cbn [fst snd] in *.
           destruct (s =? 0) eqn:Hs.
           ++ destruct (String.eqb _ "prod" && nonempty _);
                destruct Hout as (_ & ->); done.
           ++ destruct Hout as (-> & ->). split; [by eexists|].
              intros ->. discriminate Hs.
        -- destruct Hout as (-> & ->). split; [by eexists | done].
      * destruct Hout as (-> & ->). split; [by eexists|].
        intros Hzero. rewrite Hzero in Hbuild. discriminate Hbuild.
    + rewrite (sh_refuses w vars Hvars Hvalid). unfold sh_refusal.
      cbn [events exit_code]. split; [|done]. destruct (nonempty _); by eexists.
  - destruct (sh_without_variables w Hvars) as (Hcode & ->).
    split; [by eexists | done].
Qed.

(** A dev run in the checkout: it ends with 0 after the build and the
    upload. *)
Lemma sh_commands_follow_the_plan_witness :
  let w := world (Some "dev") operator_file commands_succeed in
  commands (events (deploy_sh w)) = sh_plan w.
Proof.
  intros w. apply (sh_commands_follow_the_plan w). vm_compute. reflexivity.
Defined.

(* ===================================================================== *)
(** ** deploy.sh: what [set -e] makes unreachable *)
(* ===================================================================== *)

Lemma never_emits_sret {A} (ev : Event) (a : A) : never_emits ev (sret a).
Proof. by intros st. Qed.

Lemma never_emits_exit {A} (ev : Event) (c : Z) : never_emits ev (@exit A c).
Proof. by intros st. Qed.

Lemma never_emits_exists_file (ev : Event) (p : string) :
  never_emits ev (exists_file p).
Proof. by intros st. Qed.

Lemma never_emits_emit (ev ev' : Event) : ev' ≠ ev → never_emits ev (emit ev').
Proof.
  intros Hne st Hst. cbn. intros [Hin|Hin%list_elem_of_singleton]%elem_of_app; auto.
Qed.

Lemma never_emits_bind {A B} (ev : Event) (m : Script A) (f : A → Script B) :
  never_emits ev m →
  (∀ a, (∃ st st1, m st = (Next a, st1)) → never_emits ev (f a)) →
  never_emits ev (m ≫= f).
Proof.
  intros Hm Hf st Hst. unfold mbind, Script_bind, sbind.
  specialize (Hm st Hst).
  destruct (m st) as [[a|e|c] st1] eqn:Hrun; cbn in *; [|done..].
  apply (Hf a); [by exists st, st1 | done].
Qed.

Lemma never_emits_when (ev : Event) (b : bool) (m : Script unit) :
  (b = true → never_emits ev m) → never_emits ev (when b m).
Proof. intros Hm. destruct b; [by apply Hm | apply never_emits_sret]. Qed.

Lemma never_emits_sh_command (ev : Event) (w : World) (cmd : string) :
  ev ≠ Exec cmd → never_emits ev (sh_command w cmd).
Proof.
  intros Hne st Hst. unfold sh_command. script_unfold.
  destruct (run w cmd (disk st)) as [s d].
  destruct (s =? 0); cbn;
    intros [Hin|Hin%list_elem_of_singleton]%elem_of_app; auto.
Qed.

Lemma never_emits_sh_cp (ev : Event) (w : World) (src dst : string) :
  ev ≠ CopyFile src dst → never_emits ev (sh_cp w src dst).
Proof.
  intros Hne st Hst. unfold sh_cp. script_unfold.
  destruct (disk st !! src); [destruct (copy_failure w src dst (disk st))|]; cbn;
    intros [Hin|Hin%list_elem_of_singleton]%elem_of_app; auto.
Qed.

Lemma never_emits_sh_source (ev : Event) (w : World) (path : string)
    (vars : gmap string string) :
  ev ≠ Source path → never_emits ev (sh_source w path vars).
Proof.
  intros Hne st Hst. unfold sh_source.
  destruct (disk st !! path) as [content|]; [destruct (source w content vars)|];
    cbn; intros [Hin|Hin%list_elem_of_singleton]%elem_of_app; auto.
Qed.

(** Under [set -e] a simple command that lets the script go on has ended
    with status 0. *)
Lemma sh_command_status (w : World) (cmd : string) (a : Z) :
  (∃ st st1, sh_command w cmd st = (Next a, st1)) → a = 0.
Proof.
  intros (st & st1 & Hrun).
  unfold sh_command, spawn, mbind, Script_bind, sbind, sret, exit in Hrun.
  destruct (run w cmd (disk st)) as [s d].
  destruct (s =? 0) eqn:Hs; [|discriminate Hrun].
  injection Hrun as <- _. by apply Z.eqb_eq.
Qed.

Ltac never_emits_step :=
  lazymatch goal with
  | |- never_emits _ (sh_command _ _ ≫= _) =>
      apply never_emits_bind;
      [apply never_emits_sh_command; discriminate
      |let a := fresh "status" in
       let Ha := fresh "Hstatus" in
       intros a Ha; apply sh_command_status in Ha; subst a]
  | |- never_emits _ (_ ≫= _) => apply never_emits_bind; [|intros ? _]
  | |- never_emits _ (when _ _) =>
      apply never_emits_when; let H := fresh in intros H; try discriminate H
  | |- never_emits _ (if ?b then _ else _) => destruct b eqn:?
  | |- never_emits _ (emit _) =>
      apply never_emits_emit;
      repeat match goal with
             | |- context [if ?b then _ else _] => destruct b
             end;
      discriminate
  | |- never_emits _ (exit _) => apply never_emits_exit
  | |- never_emits _ (sret _) => apply never_emits_sret
  | |- never_emits _ (exists_file _) => apply never_emits_exists_file
  | |- never_emits _ (sh_cp _ _ _) => apply never_emits_sh_cp; discriminate
  | |- never_emits _ (sh_source _ _ _) => apply never_emits_sh_source; discriminate
  end.

(** X11. No run of deploy.sh prints "Build failed! Aborting deployment.",
    "Deployment failed!" or "CloudFront invalidation failed (not
    critical)": each of these lines sits in a test of [$?] that [set -e]
    lets the script reach only with status 0. *)
Theorem sh_failure_messages_are_never_printed (w : World) (ev : Event) :
  ev ∈ sh_messages_after_failure → ev ∉ events (deploy_sh w).
Proof.
  intros Hev. unfold deploy_sh. rewrite events_finish.
  assert (never_emits ev (main_sh w)) as Hnever;
    [|apply Hnever; cbn; apply not_elem_of_nil].
  unfold sh_messages_after_failure in Hev.
  unfold main_sh, sh_build_step, sh_steps_after_build, sh_swap_step,
    sh_publish_step, sh_invalidate_step, sh_summary.
  repeat (apply elem_of_cons in Hev as [->|Hev]);
    [..|by apply elem_of_nil in Hev];
    cbn zeta; repeat never_emits_step.
Qed.

(** In the run whose CloudFront command fails. *)
Lemma sh_failure_messages_are_never_printed_witness :
  Out "CloudFront invalidation failed (not critical)"
    ∉ events (deploy_sh (world (Some "prod") operator_file invalidation_fails)).
Proof.
  apply (sh_failure_messages_are_never_printed
           (world (Some "prod") operator_file invalidation_fails)).
  unfold sh_messages_after_failure. set_solver.
Defined.

(* ===================================================================== *)
(** ** Concrete runs of earlier lemmas *)
(* ===================================================================== *)

Lemma commands_succeed_only_build_writes (arg : option string) (env_file : string) :
  only_build_writes (world arg env_file commands_succeed).
Proof.
  intros cmd d Hcmd. cbn [run world]. unfold commands_succeed.
  destruct (String.eqb_spec cmd build_command); [done | done].
Defined.

(** dev and prod in the checkout: the bundle is the same after both. *)
Lemma one_build_many_configurations_witness :
  let w := world None operator_file commands_succeed in
  let bundle := "/repo/dist/angular-release-deployment-frontend/browser/main.js" in
  files_after (deploy_mjs (with_argument (Some "dev") w)) !! bundle =
  files_after (deploy_mjs (with_argument (Some "prod") w)) !! bundle.
Proof.
  intros w bundle.
  apply (one_build_many_configurations w "dev" "prod" "shree-1767366539"
           (parse_env operator_file) bundle).
  - reflexivity.
  - reflexivity.
  - vm_compute. reflexivity.
  - apply commands_succeed_only_build_writes.
  - discriminate.
Defined.

(** deploy.sh for dev in the checkout: the bundle is as built. *)
Lemma deploy_sh_frame_witness :
  let w := world (Some "dev") operator_file commands_succeed in
  let bundle := "dist/angular-release-deployment-frontend/browser/main.js" in
  files_after (deploy_sh w) !! bundle = artifact w !! bundle.
Proof.
  intros w bundle.
  apply (deploy_sh_frame w
           (parse_env operator_file ∪ {[ "ENVIRONMENT" := "dev" ]}) bundle).
  - reflexivity.
  - vm_compute. reflexivity.
  - apply commands_succeed_only_build_writes.
  - discriminate.
Defined.

(** An .env.aws that the shell rejects with status 2. *)
Lemma sh_stops_when_sourcing_fails_witness :
  deploy_sh (world_with_broken_env_file (Some "dev")) =
    {| exit_code := 2;
       events := [Source ".env.aws"];
       files_after := files (world_with_broken_env_file (Some "dev")) |}.
Proof.
  apply (sh_stops_when_sourcing_fails (world_with_broken_env_file (Some "dev"))
           "UNIQUE_ID=(" 2 {[ "ENVIRONMENT" := "dev" ]}).
  - reflexivity.
  - reflexivity.
  - discriminate.
Defined.

(** The .env.aws without its UNIQUE_ID line. *)
Lemma mjs_requires_unique_id_in_file_witness :
  let w := world (Some "dev") operator_file_without_id commands_succeed in
  exit_code (deploy_mjs w) = 1 ∧
  effects (events (deploy_mjs w)) = [] ∧
  files_after (deploy_mjs w) = files w.
Proof.
  intros w.
  apply (mjs_requires_unique_id_in_file w operator_file_without_id).
  - reflexivity.
  - vm_compute. reflexivity.
Defined.

(** prod in the checkout, the CloudFront command ending with 254. *)
Lemma mjs_invalidation_failure_is_warning_witness :
  let w := world (Some "prod") operator_file invalidation_fails in
  exit_code (deploy_mjs w) = 0 ∧
  events (deploy_mjs w) =
    mjs_run_with_warning w "shree-1767366539" "E1QKKABZX5LKQQ"
      (parse_env operator_file !! "CLOUDFRONT_DOMAIN").
Proof.
  intros w.
  apply (mjs_invalidation_failure_is_warning w (parse_env operator_file)
           "shree-1767366539" "E1QKKABZX5LKQQ" "production document" 254).
  - reflexivity.
  - vm_compute. reflexivity.
  - vm_compute. reflexivity.
  - vm_compute. reflexivity.
  - vm_compute. reflexivity.
  - reflexivity.
  - intros d. vm_compute. reflexivity.
  - intros d. vm_compute. reflexivity.
  - discriminate.
Defined.

(* ===================================================================== *)
(** ** Environments are kept apart *)
(* ===================================================================== *)

Lemma append_cancel_l (a x y : string) : a +:+ x = a +:+ y → x = y.
Proof.
  induction a as [|c a IH]; [done|].
  change (String c a +:+ x) with (String c (a +:+ x)).
  change (String c a +:+ y) with (String c (a +:+ y)).
  intros [= H]. by apply IH.
Qed.

Lemma list_ascii_of_string_inj (x y : string) :
  String.list_ascii_of_string x = String.list_ascii_of_string y → x = y.
Proof.
  intros H.
  rewrite <- (String.string_of_list_ascii_of_string x),
    <- (String.string_of_list_ascii_of_string y).
  by rewrite H.
Qed.

Lemma append_cancel_r (x y t : string) : x +:+ t = y +:+ t → x = y.
Proof.
  intros H. apply list_ascii_of_string_inj.
  apply (f_equal String.list_ascii_of_string) in H.
  rewrite !list_ascii_of_string_app in H.
  by apply app_inv_tail in H.
Qed.

Lemma configFile_inj (e1 e2 : string) :
  array_includes validEnvironments e1 = true →
  array_includes validEnvironments e2 = true →
  configFile e1 = configFile e2 → e1 = e2.
Proof.
  intros H1%array_includes_elem_of H2%array_includes_elem_of.
  unfold validEnvironments in *.
  repeat (apply elem_of_cons in H1 as [->|H1]);
    [..|by apply elem_of_nil in H1];
    repeat (apply elem_of_cons in H2 as [->|H2]);
    try (by apply elem_of_nil in H2);
    first [reflexivity | intros H; vm_compute in H; discriminate H].
Qed.

(** X17. Two different accepted environments never share a bucket nor a
    configuration document: with the same [UNIQUE_ID] their bucket names
    differ, and so do the paths of the documents both scripts copy. (For
    arbitrary words the documents can coincide: "production", which is
    not accepted, would use the document of prod.) *)
Theorem environments_are_kept_apart (w : World) (e1 e2 uid : string) :
  array_includes validEnvironments e1 = true →
  array_includes validEnvironments e2 = true →
  e1 ≠ e2 →
  bucketName e1 uid ≠ bucketName e2 uid ∧
  sourceConfig w e1 ≠ sourceConfig w e2 ∧
  SOURCE_CONFIG e1 ≠ SOURCE_CONFIG e2 ∧
  configFile "production" = configFile "prod".
Proof.
  intros H1 H2 Hne. split; [|split; [|split; [|reflexivity]]].
  - unfold bucketName. intros H.
    apply append_cancel_l, append_cancel_r in H. done.
  - unfold sourceConfig, path_join, join. cbn [fold_left]. intros H.
    do 2 apply append_cancel_l in H. by apply Hne, configFile_inj.
  - unfold SOURCE_CONFIG. intros H.
    apply append_cancel_l in H. by apply Hne, configFile_inj.
Qed.

Lemma environments_are_kept_apart_witness :
  let w := world None operator_file commands_succeed in
  bucketName "staging" "shree-1767366539" ≠ bucketName "prod" "shree-1767366539" ∧
  sourceConfig w "staging" ≠ sourceConfig w "prod" ∧
  SOURCE_CONFIG "staging" ≠ SOURCE_CONFIG "prod" ∧
  configFile "production" = configFile "prod".
Proof.
  intros w.
  apply (environments_are_kept_apart w "staging" "prod" "shree-1767366539").
  - reflexivity.
  - reflexivity.
  - discriminate.
Defined.

(* ===================================================================== *)
(** ** The parser of .env.aws: what it reads and what it passes over *)
(* ===================================================================== *)

Lemma append_assoc (a b c : string) : (a +:+ b) +:+ c = a +:+ (b +:+ c).
Proof.
  induction a as [|x a IH]; [done|].
  change (String x a +:+ b) with (String x (a +:+ b)).
  change (String x (a +:+ b) +:+ c) with (String x ((a +:+ b) +:+ c)).
  change (String x a +:+ (b +:+ c)) with (String x (a +:+ (b +:+ c))).
  by rewrite IH.
Qed.

Lemma split_without_separator (sep : ascii) (s : string) :
  has_char sep s = false → split sep s = [s].
Proof.
  induction s as [|c r IH]; [done|]. cbn [has_char split].
  intros [Hc Hr]%orb_false_iff. rewrite Hc, (IH Hr). done.
Qed.

Lemma split_at_separator (sep : ascii) (a b : string) :
  has_char sep a = false →
  split sep (a +:+ String sep b) = a :: split sep b.
Proof.
  induction a as [|c r IH].
  - intros _. change ("" +:+ String sep b) with (String sep b).
    cbn [split]. by rewrite Ascii.eqb_refl.
  - cbn [has_char]. intros [Hc Hr]%orb_false_iff.
    change (String c r +:+ String sep b) with (String c (r +:+ String sep b)).
    cbn [split]. by rewrite Hc, (IH Hr).
Qed.

Lemma join_fold_prefix (sep a b : string) (ps : list string) :
  fold_left (λ acc q, acc +:+ sep +:+ q) ps (a +:+ b)
  = a +:+ fold_left (λ acc q, acc +:+ sep +:+ q) ps b.
Proof.
  revert b. induction ps as [|p ps IH]; intros b; [done|].
  cbn [fold_left]. by rewrite append_assoc, IH.
Qed.

Lemma join_cons (sep p q : string) (ps : list string) :
  join sep (p :: q :: ps) = p +:+ sep +:+ join sep (q :: ps).
Proof.
  unfold join. cbn [fold_left].
  by rewrite join_fold_prefix, join_fold_prefix.
Qed.

Lemma split_lines (ls : list string) :
  ls ≠ [] →
  forallb (λ l, negb (has_char newline l)) ls = true →
  split newline (lines ls) = ls.
Proof.
  intros Hne. induction ls as [|p [|q ps] IH]; [done| |].
  - cbn [forallb]. intros [Hp _]%andb_true_iff.
    apply negb_true_iff in Hp. by apply split_without_separator.
  - intros Hfree. cbn [forallb] in Hfree.
    apply andb_true_iff in Hfree as [Hp Hrest].
    apply negb_true_iff in Hp.
    unfold lines in *. rewrite join_cons.
    change (p +:+ String newline "" +:+ join (String newline "") (q :: ps))
      with (p +:+ String newline (join (String newline "") (q :: ps))).
    rewrite (split_at_separator _ _ _ Hp). f_equal. by apply IH.
Qed.

(** On a file given by its lines, the parser works line by line. *)
Lemma parse_env_lines (ls : list string) :
  forallb (λ l, negb (has_char newline l)) ls = true →
  parse_env (lines ls) = parse_lines ls.
Proof.
  intros Hfree. unfold parse_env, parse_lines. fold kept_line.
  destruct ls as [|p ps]; [done|].
  by rewrite split_lines.
Qed.

Ltac low_byte c :=
  repeat match goal with
         | |- context [(Ascii.N_of_ascii c =? ?k)%N] =>
             rewrite (proj2 (N.eqb_neq (Ascii.N_of_ascii c) k)) by lia
         | |- context [(?k <=? Ascii.N_of_ascii c)%N] =>
             rewrite (proj2 (N.leb_gt k (Ascii.N_of_ascii c))) by lia
         end;
  repeat (rewrite ?andb_false_r, ?andb_false_l, ?orb_false_r, ?orb_false_l);
  reflexivity.

(** No white space of several bytes starts or ends with an ASCII byte. *)
Lemma is_space2_ascii (c1 c2 : ascii) :
  (Ascii.N_of_ascii c1 < 128)%N ∨ (Ascii.N_of_ascii c2 < 128)%N →
  is_space2 c1 c2 = false.
Proof. unfold is_space2. intros [H|H]; [low_byte c1 | low_byte c2]. Qed.

Lemma is_space3_ascii (c1 c2 c3 : ascii) :
  (Ascii.N_of_ascii c1 < 128)%N ∨ (Ascii.N_of_ascii c3 < 128)%N →
  is_space3 c1 c2 c3 = false.
Proof. unfold is_space3. cbv zeta. intros [H|H]; [low_byte c1 | low_byte c3]. Qed.

Lemma strip_tight (backwards : bool) (s : string) :
  starts_tight s = true → strip backwards s = s.
Proof.
  destruct s as [|c1 rest1]; [done|]. cbn [starts_tight strip].
  intros [Hspace%negb_true_iff Hlow%N.ltb_lt]%andb_true_iff.
  rewrite Hspace. destruct rest1 as [|c2 rest2]; [done|].
  replace (if backwards then is_space2 c2 c1 else is_space2 c1 c2) with false
    by (destruct backwards; symmetry; apply is_space2_ascii; auto).
  destruct rest2 as [|c3 rest3]; [done|].
  by replace (if backwards then is_space3 c3 c2 c1 else is_space3 c1 c2 c3)
    with false
    by (destruct backwards; symmetry; apply is_space3_ascii; auto).
Qed.

Lemma trim_tight (s : string) :
  starts_tight s = true → starts_tight (reverse s) = true → trim s = s.
Proof.
  intros Hs Hr. unfold trim, trimEnd, trimStart.
  by rewrite (strip_tight false s Hs), (strip_tight true _ Hr), reverse_involutive.
Qed.

Lemma starts_tight_app (a b : string) :
  starts_tight a = true → starts_tight (a +:+ b) = true.
Proof. by destruct a. Qed.

Lemma word_trim (s : string) : word s = true → trim s = s ∧ nonempty s = true.
Proof.
  unfold word. intros [[[Hs Hr]%andb_true_iff _]%andb_true_iff _]%andb_true_iff.
  split; [by apply trim_tight | by destruct s].
Qed.

(** A line [KEY=VALUE] of two words is kept, and assigns VALUE to KEY. *)
Lemma parse_line_assignment (acc : gmap string string) (k v : string) :
  key_word k = true → word v = true →
  kept_line (assignment (k, v)) = true ∧
  parse_line acc (assignment (k, v)) = <[k := v]> acc.
Proof.
  unfold key_word.
  intros [[Hk Hcomment]%andb_true_iff Hproto%negb_true_iff]%andb_true_iff Hv.
  destruct (word_trim k Hk) as [Htk Hnk], (word_trim v Hv) as [Htv Hnv].
  unfold word in Hk, Hv.
  apply andb_true_iff in Hk as [[[Hk1 Hk2]%andb_true_iff Hk3%negb_true_iff]%andb_true_iff _].
  apply andb_true_iff in Hv as [[[Hv1 Hv2]%andb_true_iff Hv3%negb_true_iff]%andb_true_iff _].
  unfold assignment. cbn [fst snd]. split.
  - unfold kept_line. rewrite trim_tight.
    + destruct k as [|c k']; [discriminate Hnk|].
      change (String c k' +:+ "=" +:+ v) with (String c (k' +:+ "=" +:+ v)).
      cbn [nonempty startsWith andb] in *. exact Hcomment.
    + by apply starts_tight_app.
    + rewrite !reverse_app, append_assoc. by apply starts_tight_app.
  - unfold parse_line.
    change (k +:+ "=" +:+ v) with (k +:+ String "="%char v).
    rewrite (split_at_separator _ _ _ Hk3), (split_without_separator _ _ Hv3).
    by rewrite Hnk, Hnv, Htk, Htv, Hproto.
Qed.

(** X14. A file that consists of [KEY=VALUE] lines, each key and value a
    word, no key starting with [#] or being [__proto__], is read back in
    full by the parser of deploy.mjs: every key holds the value of its
    last line, and nothing else is defined. *)
Theorem parse_env_reads_assignments (kvs : list (string * string)) :
  forallb (λ kv, key_word kv.1 && word kv.2) kvs = true →
  parse_env (lines (map assignment kvs)) = assigned kvs.
Proof.
  intros Hwords.
  rewrite parse_env_lines.
  - unfold parse_lines, assigned. generalize (∅ : gmap string string) as acc.
    induction kvs as [|[k v] kvs IH]; intros acc; [done|].
    cbn [forallb fst snd] in Hwords.
    apply andb_true_iff in Hwords as [[Hk Hv]%andb_true_iff Hrest].
    destruct (parse_line_assignment acc k v Hk Hv) as [Hkept Hline].
    cbn [map List.filter]. rewrite Hkept. cbn [fold_left fst snd].
    rewrite Hline. by apply IH.
  - induction kvs as [|[k v] kvs IH]; [done|].
    cbn [forallb fst snd] in Hwords.
    apply andb_true_iff in Hwords as [[Hk Hv]%andb_true_iff Hrest].
    cbn [map forallb]. rewrite (IH Hrest), andb_true_r.
    unfold key_word, word in Hk, Hv.
    apply andb_true_iff in Hk as [[[_ Hk%negb_true_iff]%andb_true_iff _]%andb_true_iff _].
    apply andb_true_iff in Hv as [_ Hv%negb_true_iff].
    apply negb_true_iff. unfold assignment. cbn [fst snd].
    clear -Hk Hv. induction k as [|c k IHk]; [exact Hv|].
    cbn [has_char] in *. apply orb_false_iff in Hk as [Hc Hk].
    change (String c k +:+ "=" +:+ v) with (String c (k +:+ "=" +:+ v)).
    cbn [has_char]. by rewrite Hc, IHk.
Qed.

(** The .env.aws of the setup guide, and a key assigned twice. *)
Lemma parse_env_reads_assignments_witness :
  parse_env (lines (map assignment
    [("UNIQUE_ID", "first");
     ("CLOUDFRONT_DOMAIN", "d29lgch8cdh74n.cloudfront.net");
     ("UNIQUE_ID", "shree-1767366539")]))
  = assigned [("UNIQUE_ID", "first");
              ("CLOUDFRONT_DOMAIN", "d29lgch8cdh74n.cloudfront.net");
              ("UNIQUE_ID", "shree-1767366539")].
Proof.
  apply (parse_env_reads_assignments
           [("UNIQUE_ID", "first");
            ("CLOUDFRONT_DOMAIN", "d29lgch8cdh74n.cloudfront.net");
            ("UNIQUE_ID", "shree-1767366539")]).
  vm_compute. reflexivity.
Defined.

(** X15. A blank line, a line that starts with [#] and a line without an
    equals sign change nothing, wherever they stand in the file. *)
Theorem ignored_lines_change_nothing (ls1 ls2 : list string) (l : string) :
  forallb (λ l, negb (has_char newline l)) (ls1 ++ l :: ls2) = true →
  ignored_line l = true →
  parse_env (lines (ls1 ++ l :: ls2)) = parse_env (lines (ls1 ++ ls2)).
Proof.
  intros Hfree Hignored.
  assert (forallb (λ l, negb (has_char newline l)) (ls1 ++ ls2) = true) as Hfree'.
  { rewrite forallb_app in *. cbn [forallb] in Hfree.
    apply andb_true_iff in Hfree as [H1 [_ H2]%andb_true_iff]. by rewrite H1, H2. }
  rewrite !parse_env_lines by done.
  unfold parse_lines. rewrite !List.filter_app. cbn [List.filter].
  destruct (kept_line l) eqn:Hkept; [|done].
  rewrite !fold_left_app. cbn [fold_left]. f_equal.
  unfold ignored_line, kept_line in *.
  apply andb_true_iff in Hkept as [Hblank Hcomment%negb_true_iff].
  rewrite Hblank, Hcomment in Hignored. cbn [negb orb] in Hignored.
  apply negb_true_iff in Hignored.
  unfold parse_line. by rewrite (split_without_separator _ _ Hignored).
Qed.

(** A comment between two assignments. *)
Lemma ignored_lines_change_nothing_witness :
  parse_env (lines (["UNIQUE_ID=shree-1767366539"] ++
                    "# the distribution" :: ["CLOUDFRONT_DOMAIN=d29.cloudfront.net"]))
  = parse_env (lines (["UNIQUE_ID=shree-1767366539"] ++
                      ["CLOUDFRONT_DOMAIN=d29.cloudfront.net"])).
Proof.
  apply (ignored_lines_change_nothing ["UNIQUE_ID=shree-1767366539"]
           ["CLOUDFRONT_DOMAIN=d29.cloudfront.net"] "# the distribution").
  - vm_compute. reflexivity.
  - vm_compute. reflexivity.
Defined.

(* ===================================================================== *)
(** ** The bundle analysis script *)
(* ===================================================================== *)

Lemma prefix_append (a s : string) : String.prefix a (a +:+ s) = true.
Proof.
  rewrite <- (prefix_app a a s); [done | apply prefix_refl].
Qed.

(** X20. The package of a file under node_modules is the directory name
    that follows, together with the next one when the first starts with
    [@]; every file whose path does not start with "node_modules/"
    belongs to "Your App". *)
Theorem packageName_of_path (name scope rest : string) :
  has_char "/"%char name = false →
  has_char "/"%char scope = false →
  startsWith name "@"%char = false →
  Analyzer.packageName ("node_modules/" +:+ name +:+ "/" +:+ rest) = name ∧
  Analyzer.packageName ("node_modules/@" +:+ scope +:+ "/" +:+ name +:+ "/" +:+ rest)
    = "@" +:+ scope +:+ "/" +:+ name ∧
  (∀ path, String.prefix "node_modules/" path = false →
           Analyzer.packageName path = "Your App").
Proof.
  intros Hname Hscope Hplain. split; [|split].
  - remember ("node_modules/" +:+ name +:+ "/" +:+ rest) as path eqn:Hpath.
    unfold Analyzer.packageName.
    replace (String.prefix "node_modules/" path) with true
      by (subst path; symmetry; apply prefix_append).
    subst path.
    change ("node_modules/" +:+ name +:+ "/" +:+ rest)
      with ("node_modules" +:+ String "/"%char (name +:+ String "/"%char rest)).
    rewrite split_at_separator by done.
    rewrite split_at_separator by done.
    cbn [lookup list_lookup default from_option id]. by rewrite Hplain.
  - remember ("node_modules/@" +:+ scope +:+ "/" +:+ name +:+ "/" +:+ rest)
      as path eqn:Hpath.
    unfold Analyzer.packageName.
    replace (String.prefix "node_modules/" path) with true
      by (subst path; symmetry; apply (prefix_append "node_modules/")).
    subst path.
    change ("node_modules/@" +:+ scope +:+ "/" +:+ name +:+ "/" +:+ rest)
      with ("node_modules" +:+
            String "/"%char (String "@"%char scope +:+
            String "/"%char (name +:+ String "/"%char rest))).
    rewrite split_at_separator by done.
    rewrite (split_at_separator "/"%char (String "@"%char scope)) by done.
    rewrite split_at_separator by done.
    reflexivity.
  - intros path Hpath. unfold Analyzer.packageName. by rewrite Hpath.
Qed.

Lemma packageName_of_path_witness :
  Analyzer.packageName ("node_modules/" +:+ "rxjs" +:+ "/" +:+ "dist/esm/index.js")
    = "rxjs" ∧
  Analyzer.packageName
    ("node_modules/@" +:+ "angular" +:+ "/" +:+ "rxjs" +:+ "/" +:+ "dist/esm/index.js")
    = "@" +:+ "angular" +:+ "/" +:+ "rxjs" ∧
  (∀ path, String.prefix "node_modules/" path = false →
           Analyzer.packageName path = "Your App").
Proof.
  apply (packageName_of_path "rxjs" "angular" "dist/esm/index.js");
    reflexivity.
Defined.

(** *** Sizes added as integers *)

Lemma sum_of_insert (name : string) (size : Z) (sizes : gmap string Z) :
  sum_of (<[name := size]> sizes) = size + sum_of (delete name sizes).
Proof.
  unfold sum_of. rewrite <- insert_delete_eq.
  apply (map_fold_insert_L (λ (_ : string) (s sum : Z), s + sum)).
  - intros; lia.
  - apply lookup_delete_eq.
Qed.

Lemma sum_of_lookup (name : string) (size : Z) (sizes : gmap string Z) :
  sizes !! name = Some size →
  sum_of sizes = size + sum_of (delete name sizes).
Proof.
  intros Hsize. rewrite <- (insert_id sizes name size Hsize) at 1.
  apply sum_of_insert.
Qed.

Lemma sum_of_absent (name : string) (sizes : gmap string Z) :
  sizes !! name = None → sum_of (delete name sizes) = sum_of sizes.
Proof. intros Hnone. by rewrite delete_id. Qed.

Lemma bytes_of_absent (name : string) (inputs : Analyzer.Inputs) :
  existsb (λ entry, String.eqb (Analyzer.packageName entry.1) name) inputs
    = false →
  bytes_of name inputs = 0.
Proof.
  induction inputs as [|entry inputs IH]; [done|].
  cbn [existsb bytes_of foldr]. intros [Hentry Hrest]%orb_false_iff.
  rewrite Hentry. by apply IH.
Qed.

(** The loop without rounding, started from any table whose sizes add up
    to the total. *)
Lemma add_exactly_run (inputs : Analyzer.Inputs) (sizes : gmap string Z)
    (total : Z) :
  let result := fold_left add_exactly inputs (sizes, total) in
  (∀ name,
     result.1 !! name =
       if existsb (λ entry, String.eqb (Analyzer.packageName entry.1) name) inputs
       then Some (default 0 (sizes !! name) + bytes_of name inputs)
       else sizes !! name) ∧
  result.2 = total + total_bytes inputs ∧
  (sum_of sizes = total → sum_of result.1 = result.2).
Proof.
  revert sizes total.
  induction inputs as [|[path bytes] inputs IH]; intros sizes total.
  - cbn. repeat split; [lia | done].
  - cbn [fold_left add_exactly fst snd].
    set (name := Analyzer.packageName path).
    destruct (IH (<[name := default 0 (sizes !! name) + bytes]> sizes)
                (total + bytes)) as (Hlookup & Htotal & Hsum).
    cbv zeta. repeat split.
    + intros other. rewrite Hlookup. cbn [existsb bytes_of foldr fst snd].
      fold name. fold (bytes_of other inputs).
      destruct (String.eqb_spec name other) as [->|Hother].
      * rewrite lookup_insert_eq. cbn [orb default from_option id] in *.
        destruct (existsb _ inputs) eqn:Hlater; f_equal; [lia|].
        rewrite (bytes_of_absent _ _ Hlater). lia.
      * rewrite lookup_insert_ne by done. done.
    + rewrite Htotal. unfold total_bytes. cbn [foldr snd]. lia.
    + intros Hbalance. apply Hsum. rewrite sum_of_insert.
      destruct (sizes !! name) as [size|] eqn:Hsize.
      * rewrite (sum_of_lookup name size) in Hbalance by done.
        cbn [default from_option id]. lia.
      * rewrite sum_of_absent by done. cbn [default from_option id]. lia.
Qed.

(** *** Sizes added as Numbers *)

Lemma Number_exact (n : Z) :
  0 ≤ n ≤ 2 ^ 53 → Analyzer.Number n = Analyzer.Finite n.
Proof.
  intros [Hlow Hhigh]. unfold Analyzer.Number, nearest_double.
  rewrite Z.abs_eq by done.
  rewrite (proj2 (Z.leb_le n (2 ^ 53)) Hhigh).
  by rewrite (proj2 (Z.ltb_ge n 0) Hlow).
Qed.

Lemma total_bytes_nonnegative (inputs : Analyzer.Inputs) :
  Forall (λ entry, 0 ≤ entry.2) inputs → 0 ≤ total_bytes inputs.
Proof.
  induction 1 as [|entry inputs Hentry _ IH]; [done|].
  unfold total_bytes in *. cbn [foldr]. lia.
Qed.

Lemma table_sum_exact (sizes : gmap string Z) :
  table_sum (Analyzer.Finite <$> sizes) = sum_of sizes.
Proof. unfold table_sum, sum_of. by rewrite map_fold_fmap. Qed.

(** While the total stays within 2^53 no sum is rounded: the loop of the
    script computes what the loop without rounding computes. *)
Lemma add_input_exactly (inputs : Analyzer.Inputs) (sizes : gmap string Z)
    (total : Z) :
  (∀ name size, sizes !! name = Some size → 0 ≤ size ≤ total) →
  0 ≤ total →
  Forall (λ entry, 0 ≤ entry.2) inputs →
  total + total_bytes inputs ≤ 2 ^ 53 →
  fold_left Analyzer.add_input inputs
    (Analyzer.Finite <$> sizes, Analyzer.Finite total)
  = (Analyzer.Finite <$> (fold_left add_exactly inputs (sizes, total)).1,
     Analyzer.Finite (fold_left add_exactly inputs (sizes, total)).2).
Proof.
  revert sizes total.
  induction inputs as [|[path bytes] inputs IH]; intros sizes total;
    [done|].
  intros Hsizes Htotal Hbytes Hbound.
  apply Forall_cons in Hbytes as [Hentry Hbytes]. cbn [snd] in Hentry.
  pose proof (total_bytes_nonnegative inputs Hbytes) as Hrest.
  unfold total_bytes in Hbound. cbn [foldr snd] in Hbound.
  fold (total_bytes inputs) in Hbound.
  cbn [fold_left]. unfold Analyzer.add_input at 2, add_exactly at 2 4.
  cbn [fst snd].
  set (name := Analyzer.packageName path).
  rewrite (Number_exact bytes) by lia.
  assert (0 ≤ default 0 (sizes !! name) ≤ total) as Hcurrent.
  { destruct (sizes !! name) as [size|] eqn:Hsize; cbn; [eauto | lia]. }
  assert (match (Analyzer.Finite <$> sizes) !! name with
          | Some size => if Analyzer.falsy size then Analyzer.Finite 0 else size
          | None => Analyzer.Finite 0
          end = Analyzer.Finite (default 0 (sizes !! name))) as ->.
  { rewrite lookup_fmap. destruct (sizes !! name) as [size|]; [|done].
    cbn. by destruct (Z.eqb_spec size 0) as [->|]. }
  cbn [Analyzer.add]. rewrite !Number_exact by lia.
  rewrite <- fmap_insert. apply IH; [|lia|done|lia].
  intros other size.
  destruct (decide (name = other)) as [<-|Hother].
  - rewrite lookup_insert_eq. intros [= <-]. lia.
  - rewrite lookup_insert_ne by done. intros Hsize.
    specialize (Hsizes other size Hsize). lia.
Qed.

(** X21. As long as the sizes are not negative and add up to 2^53 at most,
    the analysis attributes every byte to one package: the table holds,
    for each package that has an input, the sum of the bytes of its
    inputs, and no other entry; the total is the sum of all sizes, and the
    sizes in the table add up to it. *)
Theorem sizes_are_attributed_to_packages (inputs : Analyzer.Inputs) :
  Forall (λ entry, Analyzer.packageName entry.1 ∉ Analyzer.inherited_names)
         inputs →
  Forall (λ entry, 0 ≤ entry.2) inputs →
  total_bytes inputs ≤ 2 ^ 53 →
  (∀ name,
     (Analyzer.analyze inputs).1 !! name =
       if existsb (λ entry, String.eqb (Analyzer.packageName entry.1) name) inputs
       then Some (Analyzer.Finite (bytes_of name inputs))
       else None) ∧
  (Analyzer.analyze inputs).2 = Analyzer.Finite (total_bytes inputs) ∧
  table_sum (Analyzer.analyze inputs).1 = total_bytes inputs.
Proof.
  intros _ Hbytes Hbound. unfold Analyzer.analyze.
  rewrite <- (fmap_empty Analyzer.Finite).
  rewrite add_input_exactly; [|by intros name size; rewrite lookup_empty|done..].
  destruct (add_exactly_run inputs ∅ 0) as (Hlookup & Htotal & Hsum).
  cbv zeta in *. cbn [fst snd]. split; [|split].
  - intros name. rewrite lookup_fmap, Hlookup, lookup_empty.
    cbn [default from_option id].
    by destruct (existsb _ inputs).
  - by rewrite Htotal.
  - rewrite table_sum_exact, Hsum, Htotal; done.
Qed.

Lemma sizes_are_attributed_to_packages_witness :
  (Analyzer.analyze sample_inputs).1 !! "@angular/core"
    = Some (Analyzer.Finite 430000) ∧
  (Analyzer.analyze sample_inputs).1 !! "Your App" = Some (Analyzer.Finite 1600) ∧
  (Analyzer.analyze sample_inputs).1 !! "lodash" = None ∧
  (Analyzer.analyze sample_inputs).2 = Analyzer.Finite 444200 ∧
  table_sum (Analyzer.analyze sample_inputs).1 = 444200.
Proof.
  assert (Hnames : Forall (λ entry, Analyzer.packageName entry.1
                                    ∉ Analyzer.inherited_names) sample_inputs).
  { repeat constructor; vm_compute; intros Hin;
      repeat (apply elem_of_cons in Hin as [Hin|Hin]; [discriminate Hin|]);
      by apply elem_of_nil in Hin. }
  assert (Hbytes : Forall (λ entry, 0 ≤ entry.2) sample_inputs).
  { repeat constructor; discriminate. }
  assert (Hbound : total_bytes sample_inputs ≤ 2 ^ 53).
  { vm_compute. discriminate. }
  destruct (sizes_are_attributed_to_packages sample_inputs Hnames Hbytes Hbound)
    as (Hlookup & Htotal & Hsum).
  split; [|split; [|split; [|split]]].
  - by rewrite Hlookup.
  - by rewrite Hlookup.
  - by rewrite Hlookup.
  - exact Htotal.
  - exact Hsum.
Defined.

(** Above 2^53 the sums are rounded: two inputs of 2^53 bytes and of 1 byte
    give a total of 2^53. *)
Lemma oversized_total_is_rounded :
  total_bytes oversized_inputs = 2 ^ 53 + 1 ∧
  (Analyzer.analyze oversized_inputs).2 = Analyzer.Finite (2 ^ 53).
Proof. by vm_compute. Qed.
